(** * folder_synchronizer: a shallow embedding of [src/synchronizer.py]

    The development follows the class [FolderSynchronizer]: the ignore
    matcher ([match_pattern], [should_ignore]), the tree scanner
    ([get_all_items]), the equality oracle ([md5], [files_differ]), the
    applier ([copy_item], [remove_item], [_retry_operation]) and the pass
    driver ([synchronize]).

    Strings are [string]; sets of relative paths are [gset string]; the hash
    cache is a [gmap string string]; the two directory trees are finite
    trees of files and directories; calls that raise in Python return in
    a state-and-error monad whose state survives the exception. *)

From Stdlib Require Import ZArith Ascii String SpecFloat.
From Stdlib.Strings Require Import Byte.
From stdpp Require Import base option list sets gmap strings pretty.

Open Scope string_scope.
Open Scope list_scope.

(** ** Python string operations used by the program *)

Definition chars (s : string) : list ascii := list_ascii_of_string s.
Definition str (l : list ascii) : string := string_of_list_ascii l.

Definition sep : ascii := "/"%char.
Definition backslash : ascii := "\"%char.
Definition star : ascii := "*"%char.

(** [s.replace("\\", "/")] *)
Definition normalize_char (c : ascii) : ascii :=
  if decide (c = backslash) then sep else c.
Definition replace_backslash (s : string) : string :=
  str (normalize_char <$> chars s).

(** [s.startswith(p)] and [s.endswith(p)] *)
Definition startswith (s p : string) : bool :=
  bool_decide (chars p `prefix_of` chars s).
Definition endswith (s p : string) : bool :=
  bool_decide (chars p `suffix_of` chars s).

(** [s[:-1]] *)
Definition drop_last_char (s : string) : string := str (removelast (chars s)).

(** ["*" in s] *)
Definition contains_star (s : string) : bool := bool_decide (star ∈ chars s).

(** [s.split("*", 1)] on a string that holds a star: the text before the
    first star and the text after it. *)
Fixpoint split_first_star (l : list ascii) : list ascii * list ascii :=
  match l with
  | [] => ([], [])
  | c :: l' =>
      if decide (c = star) then ([], l')
      else let '(base, ext) := split_first_star l' in (c :: base, ext)
  end.

(** ** PathMatcher *)

(** [FolderSynchronizer.match_pattern].  The directory branch tests
    [path.startswith(pattern[:-1])]; when that test fails, and when a starred
    pattern does not begin with the star, control reaches the final
    [return False]. *)
Definition match_pattern (path pattern : string) : bool :=
  let path := replace_backslash path in
  let pattern := replace_backslash pattern in
  if endswith pattern "/" then
    if startswith path (drop_last_char pattern) then true else false
  else if contains_star pattern then
    let '(base, ext) := split_first_star (chars pattern) in
    if startswith pattern "*" then endswith path (str ext) else false
  else
    bool_decide (path = pattern).

(** [FolderSynchronizer.should_ignore]: the first matching pattern returns
    [True]. *)
Fixpoint should_ignore (ignore_patterns : list string) (path : string) : bool :=
  match ignore_patterns with
  | [] => false
  | pattern :: rest =>
      if match_pattern path pattern then true else should_ignore rest path
  end.

(** ** Paths

    A relative path is a string whose components are joined by [/].  The
    operating system resolves a path component by component
    ([split_path]); the program builds paths with [os.path.join] and takes
    parents with [os.path.dirname]. *)

(** [os.path.join(a, b)] (POSIX). *)
Definition os_path_join (a b : string) : string :=
  if startswith b "/" then b
  else if bool_decide (a = "") || endswith a "/" then a +:+ b
  else a +:+ "/" +:+ b.

(** The pieces of a character list between separators. *)
Fixpoint split_sep (l : list ascii) : list (list ascii) :=
  match l with
  | [] => [[]]
  | c :: l' =>
      if decide (c = sep) then [] :: split_sep l'
      else match split_sep l' with
           | [] => [[c]]
           | w :: ws => (c :: w) :: ws
           end
  end.

(** Path resolution skips empty components (doubled or trailing
    separators); the empty path names the root it is relative to. *)
Definition split_path (p : string) : list string :=
  str <$> filter (λ w, w ≠ []) (split_sep (chars p)).

(** The characters before the last separator, if there is one. *)
Fixpoint before_last_sep (l : list ascii) : option (list ascii) :=
  match l with
  | [] => None
  | c :: l' =>
      match before_last_sep l' with
      | Some d => Some (c :: d)
      | None => if decide (c = sep) then Some [] else None
      end
  end.

(** [os.path.dirname(p)] for a relative path without doubled separators:
    the text before the last separator, empty when there is none. *)
Definition os_path_dirname (p : string) : string :=
  match before_last_sep (chars p) with
  | Some d => str d
  | None => ""
  end.

(** ** The directory trees *)

Record stat_result := mk_stat { st_size : Z; st_mtime_ns : Z }.

(** ** Python floats

    A Python [float] is an IEEE-754 binary64 number: 53 bits of precision,
    exponents below 1024, every operation rounded to nearest, ties to
    even. *)
Definition float_prec : Z := 53.
Definition float_emax : Z := 1024.

(** [float(z)] for an integer [z]. *)
Definition float_of_Z (z : Z) : spec_float :=
  binary_normalize float_prec float_emax z 0 false.

(** The literal [1e-9]: the double 0x1.12e0be826d695p-30. *)
Definition float_1e_9 : spec_float := S754_finite false 4835703278458517 (-82).

Definition float_add : spec_float → spec_float → spec_float :=
  SFadd float_prec float_emax.
Definition float_sub : spec_float → spec_float → spec_float :=
  SFsub float_prec float_emax.
Definition float_mul : spec_float → spec_float → spec_float :=
  SFmul float_prec float_emax.

(** [int(x)] for a float [x]: the integer part, towards zero.  Python
    raises on an infinity and on a NaN; the time of a file is neither. *)
Definition int_of_float (x : spec_float) : Z :=
  match x with
  | S754_finite s m e =>
      cond_Zopp s
        (match e with
         | Zneg p => Z.quot (Zpos m) (Z.pow_pos 2 p)
         | _ => Zpos m * 2 ^ e
         end)%Z
  | _ => 0%Z
  end.

(** [stat.st_mtime]: the interpreter builds the float from the two fields
    of the file's [timespec], whole seconds and nanoseconds within the
    second, as [sec + 1e-9 * nsec] in double precision. *)
Definition st_mtime (st : stat_result) : spec_float :=
  float_add (float_of_Z (st_mtime_ns st / 1000000000))
    (float_mul float_1e_9 (float_of_Z (st_mtime_ns st mod 1000000000))).

(** A regular file holds its bytes and its modification time, kept in
    nanoseconds ([st_mtime_ns]); [st_mtime] is the float the interpreter
    derives from it.  A directory holds what [os.stat] reports for it and
    its entries by name.  Symbolic links and permission bits are outside
    the model. *)
#[local] Unset Elimination Schemes.
Inductive node :=
| File (content : list byte) (mtime_ns : Z)
| Dir (st : stat_result) (entries : list (string * node)).
#[local] Set Elimination Schemes.

Inductive exn :=
| FileNotFoundError
| NotADirectoryError
| IsADirectoryError
| FileExistsError
| OSError.

Fixpoint alookup {A} (k : string) (es : list (string * A)) : option A :=
  match es with
  | [] => None
  | (k', v) :: es' => if decide (k = k') then Some v else alookup k es'
  end.

Fixpoint aset {A} (k : string) (v : A) (es : list (string * A))
  : list (string * A) :=
  match es with
  | [] => [(k, v)]
  | (k', v') :: es' =>
      if decide (k = k') then (k, v) :: es' else (k', v') :: aset k v es'
  end.

Fixpoint adel {A} (k : string) (es : list (string * A)) : list (string * A) :=
  match es with
  | [] => []
  | (k', v') :: es' =>
      if decide (k = k') then adel k es' else (k', v') :: adel k es'
  end.

Definition aput {A} (k : string) (o : option A) (es : list (string * A))
  : list (string * A) :=
  match o with
  | Some v => aset k v es
  | None => adel k es
  end.

(** What a path names under a root that may itself be absent. *)
Fixpoint resolve (p : list string) (o : option node) : option node :=
  match p with
  | [] => o
  | c :: p' =>
      match o with
      | Some (Dir _ es) => resolve p' (alookup c es)
      | _ => None
      end
  end.

(** Change what a path names: [f] sees the present entry (or [None]) and
    answers the new one (or [None] to unlink it).  A missing ancestor is a
    [FileNotFoundError], a regular file on the way a [NotADirectoryError]. *)
Fixpoint update_at (p : list string) (f : option node → exn + option node)
    (o : option node) : exn + option node :=
  match p with
  | [] => f o
  | c :: p' =>
      match o with
      | None => inl FileNotFoundError
      | Some (File _ _) => inl NotADirectoryError
      | Some (Dir st es) =>
          match update_at p' f (alookup c es) with
          | inl e => inl e
          | inr r => inr (Some (Dir st (aput c r es)))
          end
      end
  end.

Definition is_dir (o : option node) : bool :=
  match o with Some (Dir _ _) => true | _ => false end.
Definition is_file (o : option node) : bool :=
  match o with Some (File _ _) => true | _ => false end.
Definition is_present (o : option node) : bool :=
  match o with Some _ => true | None => false end.

Definition stat_of (n : node) : stat_result :=
  match n with
  | File content mtime => mk_stat (Z.of_nat (length content)) mtime
  | Dir st _ => st
  end.

(** [os.remove] *)
Definition remove_edit (o : option node) : exn + option node :=
  match o with
  | Some (File _ _) => inr None
  | Some (Dir _ _) => inl IsADirectoryError
  | None => inl FileNotFoundError
  end.

(** [shutil.rmtree] *)
Definition rmtree_edit (o : option node) : exn + option node :=
  match o with
  | Some (Dir _ _) => inr None
  | Some (File _ _) => inl NotADirectoryError
  | None => inl FileNotFoundError
  end.

(** [os.mkdir] *)
Definition mkdir_edit (fresh : stat_result) (o : option node)
  : exn + option node :=
  match o with
  | None => inr (Some (Dir fresh []))
  | Some _ => inl FileExistsError
  end.

(** [open(path, "wb")], the write and the close. *)
Definition write_edit (content : list byte) (mtime : Z) (o : option node)
  : exn + option node :=
  match o with
  | Some (Dir _ _) => inl IsADirectoryError
  | _ => inr (Some (File content mtime))
  end.

(** [os.makedirs(path)]: every missing ancestor is made, outermost first,
    then the leaf with [os.mkdir], which raises when the leaf exists. *)
Fixpoint makedirs_from (fresh : stat_result) (pre rest : list string)
    (o : option node) : exn + option node :=
  match rest with
  | [] => update_at pre (mkdir_edit fresh) o
  | c :: rest' =>
      if is_present (resolve pre o) then
        makedirs_from fresh (pre ++ [c]) rest' o
      else
        match update_at pre (mkdir_edit fresh) o with
        | inl e => inl e
        | inr o' => makedirs_from fresh (pre ++ [c]) rest' o'
        end
  end.

Definition os_makedirs (fresh : stat_result) (p : list string)
    (o : option node) : exn + option node :=
  makedirs_from fresh [] p o.

(** [shutil.copy2(src, dst)]: a destination that is a directory receives
    the file under the source's base name; content and modification time
    are copied. *)
Definition shutil_copy2 (src_root : option node) (src dst : list string)
    (dst_root : option node) : exn + option node :=
  let dst :=
    if is_dir (resolve dst dst_root) then dst ++ [default "" (last src)]
    else dst in
  match resolve src src_root with
  | None => inl FileNotFoundError
  | Some (Dir _ _) => inl IsADirectoryError
  | Some (File content mtime) => update_at dst (write_edit content mtime) dst_root
  end.

(** ** The world of one synchronizer object *)

Record config := mk_config {
  source_folder : string;
  replica_folder : string;
  use_md5 : bool;
  use_hash_cache : bool;
  ignore_patterns : list string;
  dry_run : bool;
  max_retries : Z
}.

(** What the program takes from its libraries and its interpreter. *)
Record platform := mk_platform {
  md5_hexdigest : list byte → string;
  json_dumps : gmap string string → list byte;
  set_iter : gset string → list string;
  mkdir_stat : stat_result;
  clock_ns : Z
}.

(** The trace keeps the logger calls, the pauses, every call that changes
    the disk (also one that raises) and every read of a file's bytes. *)
Inductive event :=
| LogInfo (msg : string)
| LogWarning (func : string) (attempt : Z) (bound : Z)
| LogError (func : string)
| Sleep (seconds : Z)
| Call (func : string) (args : list string)
| ReadBytes (path : string).

(** [faults] is the environment's say on the calls that run under
    [_retry_operation]: each attempt takes the head, and [true] makes the
    attempt raise [OSError] before it touches the disk. *)
Record world := mk_world {
  source_tree : option node;
  replica_tree : option node;
  hash_cache : gmap string string;
  faults : list bool;
  trace : list event
}.

Definition set_replica (r : option node) (w : world) : world :=
  mk_world (source_tree w) r (hash_cache w) (faults w) (trace w).
Definition set_cache (c : gmap string string) (w : world) : world :=
  mk_world (source_tree w) (replica_tree w) c (faults w) (trace w).
Definition set_faults (f : list bool) (w : world) : world :=
  mk_world (source_tree w) (replica_tree w) (hash_cache w) f (trace w).
Definition emit (e : event) (w : world) : world :=
  mk_world (source_tree w) (replica_tree w) (hash_cache w) (faults w)
    (trace w ++ [e]).

(** A path under one of the two roots: [os.path.join(self.source_folder,
    rel)] and [os.path.join(self.replica_folder, rel)]. *)
Inductive loc :=
| InSource (rel : string)
| InReplica (rel : string).

Definition rel_of (l : loc) : string :=
  match l with InSource rel | InReplica rel => rel end.

Definition root_of (l : loc) (w : world) : option node :=
  match l with
  | InSource _ => source_tree w
  | InReplica _ => replica_tree w
  end.

Definition node_at (l : loc) (w : world) : option node :=
  resolve (split_path (rel_of l)) (root_of l w).

Definition abs_path (cfg : config) (l : loc) : string :=
  match l with
  | InSource rel => os_path_join (source_folder cfg) rel
  | InReplica rel => os_path_join (replica_folder cfg) rel
  end.

(** [os.path.dirname] of a location.  For an item at the top of a folder
    the location is the folder, and [abs_path] writes it with a separator
    at its end where [os.path.dirname] has none; the string is shown only
    by the call of [os.makedirs] for a replica folder that is missing. *)
Definition dirname_loc (l : loc) : loc :=
  match l with
  | InSource rel => InSource (os_path_dirname rel)
  | InReplica rel => InReplica (os_path_dirname rel)
  end.

(** ** State and exceptions *)

Definition M (A : Type) : Type := world → (exn + A) * world.

Definition ret {A} (a : A) : M A := λ w, (inr a, w).
Definition raise {A} (e : exn) : M A := λ w, (inl e, w).
Definition bind {A B} (m : M A) (k : A → M B) : M B := λ w,
  match m w with
  | (inl e, w') => (inl e, w')
  | (inr a, w') => k a w'
  end.

Notation "x <- m ;; k" := (bind m (λ x, k))
  (at level 100, m at next level, right associativity,
   format "'[v' x  <-  m ;;  '/' k ']'").
Notation "m ;;; k" := (bind m (λ _, k))
  (at level 100, right associativity, format "'[v' m ;;;  '/' k ']'").

Definition log (e : event) : M unit := λ w, (inr tt, emit e w).
Definition when (b : bool) (m : M unit) : M unit := if b then m else ret tt.

(** [for item in items: body(item)] *)
Fixpoint for_each {A} (items : list A) (body : A → M unit) : M unit :=
  match items with
  | [] => ret tt
  | item :: rest => body item ;;; for_each rest body
  end.

Definition os_path_exists (l : loc) : M bool := λ w,
  (inr (is_present (node_at l w)), w).
Definition os_path_isdir (l : loc) : M bool := λ w,
  (inr (is_dir (node_at l w)), w).
Definition os_path_isfile (l : loc) : M bool := λ w,
  (inr (is_file (node_at l w)), w).

Definition os_stat (l : loc) : M stat_result := λ w,
  match node_at l w with
  | Some n => (inr (stat_of n), w)
  | None => (inl FileNotFoundError, w)
  end.

(** [open(path, "rb")] and the chunked reads to the end of the file. *)
Definition read_bytes (cfg : config) (l : loc) : M (list byte) := λ w,
  match node_at l w with
  | Some (File content _) => (inr content, emit (ReadBytes (abs_path cfg l)) w)
  | Some (Dir _ _) => (inl IsADirectoryError, w)
  | None => (inl FileNotFoundError, w)
  end.

(** A call that changes the replica and is not retried: it raises or it
    commits. *)
Definition mutate (func : string) (args : list string)
    (op : option node → exn + option node) : M unit := λ w,
  let w1 := emit (Call func args) w in
  match op (replica_tree w) with
  | inl e => (inl e, w1)
  | inr r => (inr tt, set_replica r w1)
  end.

(** One attempt inside [_retry_operation]: [None] when [func] returned,
    the exception when it raised. *)
Definition attempt (func : string) (args : list string)
    (op : option node → exn + option node) : M (option exn) := λ w,
  let w1 := set_faults (tail (faults w)) (emit (Call func args) w) in
  match head (faults w) with
  | Some true => (inr (Some OSError), w1)
  | _ =>
      match op (replica_tree w) with
      | inl e => (inr (Some e), w1)
      | inr r => (inr None, set_replica r w1)
      end
  end.

(** ** FolderSynchronizer *)

Section FolderSynchronizer.

Context (P : platform) (cfg : config).

(** [self.hash_cache_file] *)
Definition hash_cache_file : loc := InReplica "hash_cache.json".

(** [ensure_dir_exists] *)
Definition ensure_dir_exists (path : loc) : M unit :=
  present <- os_path_exists path ;;
  when (negb present && negb (dry_run cfg))
    (mutate "makedirs" [abs_path cfg path]
       (os_makedirs (mkdir_stat P) (split_path (rel_of path)))).

(** One entry of the directory that [os.walk] is listing, inside the loop
    body of [get_all_items]: a file name is recorded unless it is ignored;
    a directory name stays in [dirnames], and is walked, unless it is
    ignored. *)
Definition visit_entry (walk_dir : string → node → gset string * gset string)
    (rel_dir name : string) (child : node) : gset string * gset string :=
  match child with
  | File _ _ =>
      let rel_file_path := replace_backslash (os_path_join rel_dir name) in
      if should_ignore (ignore_patterns cfg) rel_file_path then (∅, ∅)
      else ({[ rel_file_path ]}, ∅)
  | Dir _ _ =>
      if should_ignore (ignore_patterns cfg) (os_path_join rel_dir name)
      then (∅, ∅)
      else walk_dir (os_path_join rel_dir name) child
  end.

Definition snap_union (a b : gset string * gset string)
  : gset string * gset string := (a.1 ∪ b.1, a.2 ∪ b.2).

(** The [os.walk] loop of [get_all_items] from one directory down.
    [relpath] is [os.path.relpath(dirpath, root)]. *)
Fixpoint walk (relpath : string) (n : node) : gset string * gset string :=
  match n with
  | File _ _ => (∅, ∅)
  | Dir _ entries =>
      let rel_dir := if bool_decide (relpath = ".") then "" else relpath in
      let here : gset string * gset string :=
        if bool_decide (rel_dir = "") then (∅, ∅)
        else (∅, {[ replace_backslash rel_dir ]}) in
      foldr snap_union here
        ((λ e, visit_entry walk rel_dir e.1 e.2) <$> entries)
  end.

(** What the loop of [get_all_items] collects from a root.  [os.walk]
    reports no error of its own: a root it cannot list yields no
    directory at all, and the loop body never runs. *)
Definition scan_tree (root : option node) : gset string * gset string :=
  match root with
  | Some (Dir st entries) => walk "." (Dir st entries)
  | _ => (∅, ∅)
  end.

(** [get_all_items] *)
Definition get_all_items (root : loc) : M (gset string * gset string) := λ w,
  (inr (scan_tree (root_of root w)), w).

(** [int(stat.st_mtime)] *)
Definition int_mtime (st : stat_result) : Z :=
  int_of_float (st_mtime st).

(** [f"{file_path}-{stat.st_size}-{int(stat.st_mtime)}"] *)
Definition cache_key (file_path : string) (st : stat_result) : string :=
  file_path +:+ "-" +:+ pretty (st_size st) +:+ "-" +:+ pretty (int_mtime st).

(** [md5] *)
Definition md5 (file_path : loc) : M string :=
  present <- os_path_exists file_path ;;
  if negb present then ret ""
  else
    st <- os_stat file_path ;;
    let key := cache_key (abs_path cfg file_path) st in
    λ w,
      match (if use_hash_cache cfg then hash_cache w !! key else None) with
      | Some cached => (inr cached, w)
      | None =>
          (data <- read_bytes cfg file_path ;;
           let hash_val := md5_hexdigest P data in
           when (use_hash_cache cfg)
             (λ w', (inr tt, set_cache (<[key := hash_val]> (hash_cache w')) w')) ;;;
           ret hash_val) w
      end.

(** [abs(source_stat.st_mtime - replica_stat.st_mtime) > 1] *)
Definition mtime_gap_exceeds_1s (a b : stat_result) : bool :=
  SFltb (float_of_Z 1) (SFabs (float_sub (st_mtime a) (st_mtime b))).

(** [files_differ] *)
Definition files_differ (source_file replica_file : loc) : M bool :=
  present <- os_path_exists replica_file ;;
  if negb present then ret true
  else if use_md5 cfg then
    source_hash <- md5 source_file ;;
    replica_hash <- md5 replica_file ;;
    ret (negb (bool_decide (source_hash = replica_hash)))
  else
    source_stat <- os_stat source_file ;;
    replica_stat <- os_stat replica_file ;;
    if negb (bool_decide (st_size source_stat = st_size replica_stat))
    then ret true
    else if mtime_gap_exceeds_1s source_stat replica_stat then ret true
    else ret false.

(** The loop of [_retry_operation] over the attempt numbers still to
    come. *)
Fixpoint retry_loop (attempts : list Z) (func : string) (args : list string)
    (op : option node → exn + option node) : M unit :=
  match attempts with
  | [] => log (LogError func)
  | attempt_no :: rest =>
      r <- attempt func args op ;;
      match r with
      | None => ret tt
      | Some _ =>
          log (LogWarning func (attempt_no + 1) (max_retries cfg)) ;;;
          log (Sleep 1) ;;;
          retry_loop rest func args op
      end
  end.

(** [_retry_operation]: [for attempt in range(self.max_retries)]. *)
Definition _retry_operation (func : string) (args : list string)
    (op : option node → exn + option node) : M unit :=
  retry_loop (seqZ 0 (max_retries cfg)) func args op.

(** [copy_item] *)
Definition copy_item (rel_path : string) : M unit :=
  let src_path := InSource rel_path in
  let dst_path := InReplica rel_path in
  src_is_dir <- os_path_isdir src_path ;;
  if src_is_dir then
    ensure_dir_exists dst_path ;;;
    log (LogInfo ("Directory created/updated: " +:+ abs_path cfg dst_path))
  else
    ensure_dir_exists (dirname_loc dst_path) ;;;
    (λ w,
       when (negb (dry_run cfg))
         (_retry_operation "copy2"
            [abs_path cfg src_path; abs_path cfg dst_path]
            (shutil_copy2 (source_tree w) (split_path rel_path)
               (split_path rel_path))) w) ;;;
    log (LogInfo ("File copied/updated: " +:+ abs_path cfg dst_path)).

(** [remove_item] *)
Definition remove_item (rel_path : string) : M unit :=
  let path := InReplica rel_path in
  when (negb (dry_run cfg))
    (path_is_dir <- os_path_isdir path ;;
     if path_is_dir then
       _retry_operation "rmtree" [abs_path cfg path]
         (update_at (split_path rel_path) rmtree_edit)
     else
       _retry_operation "remove" [abs_path cfg path]
         (update_at (split_path rel_path) remove_edit)) ;;;
  log (LogInfo ("Removed: " +:+ abs_path cfg path)).

(** The three sets of a pass. *)
Record plan := mk_plan {
  to_add : gset string;
  to_remove : gset string;
  in_both : gset string
}.

Definition make_plan (source_snap replica_snap : gset string * gset string)
  : plan :=
  let source_all := source_snap.1 ∪ source_snap.2 in
  let replica_all := replica_snap.1 ∪ replica_snap.2 in
  mk_plan (source_all ∖ replica_all) (replica_all ∖ source_all)
          (source_all ∩ replica_all).

(** The body of the third loop of [synchronize]. *)
Definition update_item (item : string) : M unit :=
  let src_item := InSource item in
  let rep_item := InReplica item in
  src_is_file <- os_path_isfile src_item ;;
  if src_is_file then
    differ <- files_differ src_item rep_item ;;
    when differ (copy_item item)
  else ret tt.

(** [with open(self.hash_cache_file, "w") as f: json.dump(...)] *)
Definition save_cache : M unit := λ w,
  mutate "open" [abs_path cfg hash_cache_file]
    (update_at (split_path (rel_of hash_cache_file))
       (write_edit (json_dumps P (hash_cache w)) (clock_ns P))) w.

(** The three loops of [synchronize], in the order of the source. *)
Definition add_loop (p : plan) : M unit :=
  for_each (set_iter P (to_add p)) copy_item.
Definition remove_loop (p : plan) : M unit :=
  for_each (set_iter P (to_remove p)) remove_item.
Definition update_loop (p : plan) : M unit :=
  for_each (set_iter P (in_both p)) update_item.

(** [synchronize] *)
Definition synchronize : M unit :=
  source_snap <- get_all_items (InSource "") ;;
  replica_snap <- get_all_items (InReplica "") ;;
  let p := make_plan source_snap replica_snap in
  add_loop p ;;;
  remove_loop p ;;;
  update_loop p ;;;
  when (use_hash_cache cfg && negb (dry_run cfg)) save_cache.

End FolderSynchronizer.

(** ** Vocabulary of the statements *)

(** A name a directory can hold. *)
Definition valid_name (name : string) : bool :=
  bool_decide (name ≠ "" ∧ name ≠ "." ∧ name ≠ ".."
               ∧ (sep ∉ chars name) ∧ (backslash ∉ chars name)).

Definition valid_path (cs : list string) : Prop :=
  Forall (λ c, valid_name c = true) cs.

(** The relative path with the given components. *)
Fixpoint render (cs : list string) : string :=
  match cs with
  | [] => ""
  | [c] => c
  | c :: cs' => c +:+ "/" +:+ render cs'
  end.

(** Names are valid and distinct within each directory. *)
Fixpoint wf_node (n : node) : bool :=
  match n with
  | File _ _ => true
  | Dir _ entries =>
      bool_decide (NoDup entries.*1)
      && forallb valid_name entries.*1
      && forallb (λ e, wf_node e.2) entries
  end.

Definition wf_opt (o : option node) : Prop :=
  match o with
  | Some n => wf_node n = true
  | None => True
  end.

(** A root that exists, is a directory and is well formed. *)
Definition wf_root (o : option node) : bool :=
  match o with
  | Some (Dir st entries) => wf_node (Dir st entries)
  | _ => false
  end.

(** What a path names, without the entries below it. *)
Inductive kind :=
| KFile (content : list byte) (mtime_ns : Z)
| KDir.

Definition kind_of (n : node) : kind :=
  match n with
  | File content mtime => KFile content mtime
  | Dir _ _ => KDir
  end.

Definition entry (q : list string) (o : option node) : option kind :=
  kind_of <$> resolve q o.

(** No ignore rule matches the path or one of its ancestors. *)
Definition visible (cfg : config) (q : list string) : Prop :=
  ∀ q', q' `prefix_of` q → q' ≠ [] →
    should_ignore (ignore_patterns cfg) (render q') = false.

(** The same for the part [q] of a path that continues [cs]. *)
Definition visible_from (cfg : config) (cs q : list string) : Prop :=
  ∀ q', q' `prefix_of` q → q' ≠ [] →
    should_ignore (ignore_patterns cfg) (render (cs ++ q')) = false.

(** No relative path is a regular file in one snapshot and a directory in
    the other. *)
Definition no_type_conflict (cfg : config) (w : world) : bool :=
  let s := scan_tree cfg (source_tree w) in
  let r := scan_tree cfg (replica_tree w) in
  bool_decide (s.1 ∩ r.2 = ∅ ∧ s.2 ∩ r.1 = ∅).

(** A live pass on two well-formed trees without type conflict, with no
    fault injected and at least one attempt per operation. *)
Definition clean_start (cfg : config) (w : world) : bool :=
  wf_root (source_tree w) && wf_root (replica_tree w)
  && no_type_conflict cfg w
  && negb (dry_run cfg)
  && bool_decide (faults w = [])
  && bool_decide (0 < max_retries cfg)%Z.

(** The iteration of a set visits each member once. *)
Definition iteration_faithful (P : platform) : Prop :=
  ∀ X : gset string, set_iter P X ≡ₚ elements X.

(** The events one failed attempt leaves in the trace. *)
Definition failing_round (cfg : config) (func : string) (args : list string)
    (attempt_no : Z) : list event :=
  [Call func args; LogWarning func (attempt_no + 1) (max_retries cfg); Sleep 1].

(** Every attempt of the operation fails: the operation itself raises on
    the replica as it is, or a fault is injected at each attempt. *)
Definition always_fails (cfg : config) (op : option node → exn + option node)
    (w : world) : bool :=
  match op (replica_tree w) with
  | inl _ => true
  | inr _ =>
      bool_decide (Z.to_nat (max_retries cfg) ≤ length (faults w))%nat
      && forallb id (take (Z.to_nat (max_retries cfg)) (faults w))
  end.

Definition is_call (e : event) : bool :=
  match e with Call _ _ => true | _ => false end.
Definition is_info (e : event) : bool :=
  match e with LogInfo _ => true | _ => false end.

Definition calls (t : list event) : list event := List.filter is_call t.
Definition infos (t : list event) : list event := List.filter is_info t.

(** The events a run added to the trace. *)
Definition new_events (w w' : world) : list event :=
  drop (length (trace w)) (trace w').

(** ** Floats read as numbers

    [sval x] is the number that a finite float stands for, times [2^200]:
    an integer for every float whose exponent is at least [-200], as are
    all the floats that the modification times of this development
    give. *)
Definition scale : Z := 200.

Definition sval (x : spec_float) : Z :=
  match x with
  | S754_finite s m e => cond_Zopp s (Zpos m * 2 ^ (e + scale))%Z
  | _ => 0%Z
  end.

(** Zero, or a positive float with a full mantissa of 53 bits. *)
Definition plain_float (x : spec_float) : Prop :=
  x = S754_zero false
  ∨ ∃ m e, x = S754_finite false m e
           ∧ (2 ^ 52 <= Zpos m < 2 ^ 53)%Z ∧ (-100 <= e <= 971)%Z.

(** The modification times of the statements about times: from the epoch
    to the last nanosecond that a signed count of 64 bits holds. *)
Definition epoch_ns (mtime_ns : Z) : Prop := (0 <= mtime_ns < 2 ^ 63)%Z.

(** The answer of [files_differ] in metadata mode. *)
Definition metadata_differ (sn : node) (rn : option node) : bool :=
  match rn with
  | None => true
  | Some rn =>
      negb (bool_decide (st_size (stat_of sn) = st_size (stat_of rn)))
      || mtime_gap_exceeds_1s (stat_of sn) (stat_of rn)
  end.

(** What [md5] answers, the cache it leaves and the events it adds, from
    the entry at the path and the cache it finds. *)
Definition md5_core (P : platform) (cfg : config) (file_path : loc)
    (n : option node) (cache : gmap string string)
  : (exn + string) * gmap string string * list event :=
  match n with
  | None => (inr "", cache, [])
  | Some nd =>
      let key := cache_key (abs_path cfg file_path) (stat_of nd) in
      match (if use_hash_cache cfg then cache !! key else None) with
      | Some cached => (inr cached, cache, [])
      | None =>
          match nd with
          | File content _ =>
              (inr (md5_hexdigest P content),
               if use_hash_cache cfg
               then <[key := md5_hexdigest P content]> cache else cache,
               [ReadBytes (abs_path cfg file_path)])
          | Dir _ _ => (inl IsADirectoryError, cache, [])
          end
      end
  end.

(** The same for [files_differ]. *)
Definition files_differ_core (P : platform) (cfg : config) (src rep : loc)
    (sn rn : option node) (cache : gmap string string)
  : (exn + bool) * gmap string string * list event :=
  match rn with
  | None => (inr true, cache, [])
  | Some _ =>
      if use_md5 cfg then
        match md5_core P cfg src sn cache with
        | (inl e, c1, ev1) => (inl e, c1, ev1)
        | (inr h1, c1, ev1) =>
            match md5_core P cfg rep rn c1 with
            | (inl e, c2, ev2) => (inl e, c2, ev1 ++ ev2)
            | (inr h2, c2, ev2) =>
                (inr (negb (bool_decide (h1 = h2))), c2, ev1 ++ ev2)
            end
        end
      else
        match sn with
        | None => (inl FileNotFoundError, cache, [])
        | Some snode => (inr (metadata_differ snode rn), cache, [])
        end
  end.

(** The world after a step that left the source alone. *)
Definition after (w : world) (r : option node) (c : gmap string string)
    (f : list bool) (evs : list event) : world :=
  mk_world (source_tree w) r c f (trace w ++ evs).

(** The relative path that [os.walk] hands to the loop body. *)
Definition relpath_of (cs : list string) : string :=
  if decide (cs = []) then "." else render cs.

Definition collects_files (cfg : config) (cs : list string) (n : node)
    (p : string) : Prop :=
  ∃ q, q ≠ [] ∧ p = render (cs ++ q)
       ∧ is_file (resolve q (Some n)) = true ∧ visible_from cfg cs q.

Definition collects_dirs (cfg : config) (cs : list string) (n : node)
    (p : string) : Prop :=
  ∃ q, cs ++ q ≠ [] ∧ p = render (cs ++ q)
       ∧ is_dir (resolve q (Some n)) = true ∧ visible_from cfg cs q.

(** What [ensure_dir_exists], a file copy and a removal leave behind. *)
Definition dir_made (q : list string) (r r' : option node) : Prop :=
  wf_opt r' ∧ is_dir r' = true
  ∧ ∀ q', entry q' r' =
          if bool_decide (q' `prefix_of` q) then Some KDir else entry q' r.

Definition file_copied (q : list string) (c : list byte) (m : Z)
    (r r' : option node) : Prop :=
  wf_opt r' ∧ is_dir r' = true
  ∧ ∀ q', entry q' r' =
          if bool_decide (q' = q) then Some (KFile c m)
          else if bool_decide (q' `prefix_of` q) then Some KDir
          else entry q' r.

Definition unlinked (q : list string) (r r' : option node) : Prop :=
  wf_opt r'
  ∧ ∀ q', entry q' r' =
          if bool_decide (q `prefix_of` q') then None else entry q' r.

(** The log events of [copy_item] and [remove_item]. *)
Definition copy_msg (cfg : config) (s : option node) (p : string) : event :=
  LogInfo ((if is_dir (resolve (split_path p) s)
            then "Directory created/updated: "
            else "File copied/updated: ") +:+ abs_path cfg (InReplica p)).

Definition remove_msg (cfg : config) (p : string) : event :=
  LogInfo ("Removed: " +:+ abs_path cfg (InReplica p)).

(** The third loop as a fold: the copy events it logs and the cache it
    leaves, when each item is compared against the replica [r]. *)
Definition update_step (P : platform) (cfg : config) (s r : option node)
    (acc : list event * gmap string string) (p : string)
  : list event * gmap string string :=
  if is_file (resolve (split_path p) s) then
    match files_differ_core P cfg (InSource p) (InReplica p)
            (resolve (split_path p) s) (resolve (split_path p) r) acc.2 with
    | (inr true, c, _) => (acc.1 ++ [copy_msg cfg s p], c)
    | (_, c, _) => (acc.1, c)
    end
  else acc.

Definition update_outcome (P : platform) (cfg : config) (s r : option node)
    (items : list string) (cache : gmap string string)
  : list event * gmap string string :=
  foldl (update_step P cfg s r) ([], cache) items.

(** ** Invariants of a live pass

    [s] is the source tree and [r0] the replica before the pass. *)

Definition to_add_path (cfg : config) (s r0 : option node) (q : list string)
  : Prop :=
  q ≠ [] ∧ valid_path q ∧ visible cfg q ∧ entry q s ≠ None ∧ entry q r0 = None.

Definition to_remove_path (cfg : config) (s r0 : option node)
    (q : list string) : Prop :=
  q ≠ [] ∧ valid_path q ∧ visible cfg q ∧ entry q r0 ≠ None ∧ entry q s = None.

Definition in_both_path (cfg : config) (s r0 : option node) (q : list string)
  : Prop :=
  q ≠ [] ∧ valid_path q ∧ visible cfg q ∧ entry q s ≠ None ∧ entry q r0 ≠ None.

Definition live_frame (s : option node) (t0 : list event) (msgs : list event)
    (w : world) : Prop :=
  source_tree w = s ∧ faults w = []
  ∧ wf_opt (replica_tree w) ∧ is_dir (replica_tree w) = true
  ∧ ∃ evs, trace w = t0 ++ evs ∧ infos evs = msgs.

Definition add_inv (cfg : config) (s r0 : option node) (t0 : list event)
    (c0 : gmap string string) (done : list string) (w : world) : Prop :=
  live_frame s t0 (copy_msg cfg s <$> done) w
  ∧ hash_cache w = c0
  ∧ (∀ q, to_add_path cfg s r0 q →
       entry q (replica_tree w) = None ∨ entry q (replica_tree w) = entry q s)
  ∧ (∀ q, ¬ to_add_path cfg s r0 q → entry q (replica_tree w) = entry q r0)
  ∧ (∀ q, to_add_path cfg s r0 q → render q ∈ done →
       entry q (replica_tree w) = entry q s).

Definition remove_inv (cfg : config) (s r0 r1 : option node) (t0 : list event)
    (c0 : gmap string string) (done : list string) (w : world) : Prop :=
  live_frame s t0 (remove_msg cfg <$> done) w
  ∧ hash_cache w = c0
  ∧ (∀ q, entry q (replica_tree w) = entry q r1
          ∨ (entry q (replica_tree w) = None
             ∧ ∃ q0, q0 `prefix_of` q ∧ to_remove_path cfg s r0 q0))
  ∧ (∀ q0, to_remove_path cfg s r0 q0 → render q0 ∈ done →
       entry q0 (replica_tree w) = None).

(** The replica file at [q] equals the source file, or it was left alone
    because [files_differ] answered [False]. *)
Definition settled (P : platform) (cfg : config) (s r : option node)
    (q : list string) (now : option kind) : Prop :=
  now = entry q s
  ∨ (now = entry q r
     ∧ ∃ c, (files_differ_core P cfg (InSource (render q))
               (InReplica (render q)) (resolve q s) (resolve q r) c).1.1
            = inr false).

Definition update_inv (P : platform) (cfg : config) (s r0 r2 : option node)
    (t0 : list event) (c0 : gmap string string) (done : list string)
    (w : world) : Prop :=
  live_frame s t0 (update_outcome P cfg s r0 done c0).1 w
  ∧ hash_cache w = (update_outcome P cfg s r0 done c0).2
  ∧ (∀ q, entry q (replica_tree w) = entry q r2
          ∨ (in_both_path cfg s r0 q ∧ render q ∈ done
             ∧ entry q (replica_tree w) = entry q s))
  ∧ (∀ q, in_both_path cfg s r0 q → render q ∈ done →
       is_file (resolve q s) = true →
       settled P cfg s r2 q (entry q (replica_tree w))).

(** ** Invariant of a live pass whose operations may fail

    Whatever a copy or a removal did or failed to do, a path that is in
    both trees names a directory in both or in neither, and an item of
    [in_both] that the third loop has not reached yet is as it was in
    [r0]. *)
Definition same_kinds (cfg : config) (s r : option node) : Prop :=
  ∀ q, visible cfg q → entry q s ≠ None → entry q r ≠ None →
       (entry q r = Some KDir ↔ entry q s = Some KDir).

Definition rough_inv (cfg : config) (s r0 : option node)
    (t0 msgs : list event) (c : gmap string string) (done : list string)
    (w : world) : Prop :=
  source_tree w = s
  ∧ wf_opt (replica_tree w) ∧ is_dir (replica_tree w) = true
  ∧ hash_cache w = c
  ∧ (∃ evs, trace w = t0 ++ evs ∧ infos evs = msgs)
  ∧ same_kinds cfg s (replica_tree w)
  ∧ (∀ q, in_both_path cfg s r0 q → render q ∉ done →
       entry q (replica_tree w) = entry q r0).

(** The plan of a pass over the source [s] and the replica [r0]. *)
Definition pass_plan (cfg : config) (s r0 : option node) : plan :=
  make_plan (scan_tree cfg s) (scan_tree cfg r0).

(** What a live pass has reached after its three loops: [w2] is the world
    after the removals, [w3] after the updates. *)
Definition live_pass_post (P : platform) (cfg : config) (s r0 : option node)
    (w w2 w3 : world) : Prop :=
  source_tree w3 = s ∧ faults w3 = []
  ∧ wf_root (replica_tree w3) = true
  ∧ hash_cache w2 = hash_cache w
  ∧ (∀ q, q ≠ [] → visible cfg q → entry q s = None →
       entry q (replica_tree w2) = None ∧ entry q (replica_tree w3) = None)
  ∧ (∀ q, visible cfg q → entry q s ≠ None →
       entry q (replica_tree w3) ≠ None
       ∧ (entry q (replica_tree w3) = Some KDir ↔ entry q s = Some KDir))
  ∧ (∀ q, q ≠ [] → visible cfg q → is_file (resolve q s) = true →
       entry q (replica_tree w3) = entry q s
       ∨ ∃ c, (files_differ_core P cfg (InSource (render q))
                 (InReplica (render q)) (resolve q s)
                 (resolve q (replica_tree w3)) c).1.1 = inr false)
  ∧ (∃ evs, trace w3 = trace w ++ evs
       ∧ infos evs
         = (copy_msg cfg s <$> set_iter P (to_add (pass_plan cfg s r0)))
           ++ (remove_msg cfg <$> set_iter P (to_remove (pass_plan cfg s r0)))
           ++ (update_outcome P cfg s r0
                 (set_iter P (in_both (pass_plan cfg s r0))) (hash_cache w)).1)
  ∧ hash_cache w3
    = (update_outcome P cfg s r0
         (set_iter P (in_both (pass_plan cfg s r0))) (hash_cache w)).2.

(** A world that a loop only read: the trees, the cache and the faults
    are those of [w0], and the events added hold no call and no log of a
    copy or a removal. *)
Definition only_read (w0 : world) (w : world) : Prop :=
  source_tree w = source_tree w0 ∧ replica_tree w = replica_tree w0
  ∧ hash_cache w = hash_cache w0 ∧ faults w = faults w0
  ∧ ∃ evs, trace w = trace w0 ++ evs ∧ calls evs = [] ∧ infos evs = [].

(** The configuration of the live run that a dry run previews. *)
Definition live_of (cfg : config) : config :=
  mk_config (source_folder cfg) (replica_folder cfg) (use_md5 cfg)
    (use_hash_cache cfg) (ignore_patterns cfg) false (max_retries cfg).

(** Both trees are as in [w]; the events added hold no call. *)
Definition kept (w w' : world) : Prop :=
  source_tree w' = source_tree w ∧ replica_tree w' = replica_tree w
  ∧ ∃ evs, trace w' = trace w ++ evs ∧ calls evs = [].

Definition dry_update_inv (P : platform) (cfg : config) (w0 : world)
    (done : list string) (w : world) : Prop :=
  source_tree w = source_tree w0 ∧ replica_tree w = replica_tree w0
  ∧ hash_cache w
    = (update_outcome P cfg (source_tree w0) (replica_tree w0) done
         (hash_cache w0)).2
  ∧ ∃ evs, trace w = trace w0 ++ evs
      ∧ infos evs
        = (update_outcome P cfg (source_tree w0) (replica_tree w0) done
             (hash_cache w0)).1.

(** ** Sample platform, configurations and trees *)

Definition demo_md5 (data : list byte) : string := string_of_list_byte data.
Definition demo_platform : platform :=
  mk_platform demo_md5 (λ _, []) elements (mk_stat 4096 0) 0.
Definition demo_config : config :=
  mk_config "/src" "/rep" false false [] false 3.
Definition cache_config : config :=
  mk_config "/src" "/rep" true true [] false 3.
Definition bytes (s : string) : list byte := list_byte_of_string s.
Definition dir_stat0 : stat_result := mk_stat 4096 0.
Definition fresh_world (s r : option node) : world := mk_world s r ∅ [] [].

Definition order_source : option node :=
  Some (Dir dir_stat0 [("a.txt", File (bytes "new") 5)]).
Definition order_replica : option node :=
  Some (Dir dir_stat0 [("a.txt", File (bytes "older") 5);
                       ("b.txt", File (bytes "B") 5)]).

Definition mirror_source : option node :=
  Some (Dir dir_stat0
          [("a.txt", File (bytes "A") 5);
           ("sub", Dir dir_stat0 [("c.txt", File (bytes "CC") 7)])]).
Definition mirror_replica : option node :=
  Some (Dir dir_stat0
          [("a.txt", File (bytes "old") 5);
           ("b.txt", File (bytes "B") 5);
           ("gone", Dir dir_stat0 [("x", File (bytes "X") 7)])]).

(** A directory of the source whose name is a regular file in the
    replica. *)
Definition conflict_source : option node :=
  Some (Dir dir_stat0 [("a", Dir dir_stat0 [])]).
Definition conflict_replica : option node :=
  Some (Dir dir_stat0 [("a", File (bytes "B") 5)]).

Definition one_file_source : option node :=
  Some (Dir dir_stat0 [("a.txt", File (bytes "A") 5)]).
Definition empty_root : option node := Some (Dir dir_stat0 []).

(** A regular file of the source whose name is a directory in the
    replica. *)
Definition conflict2_source : option node :=
  Some (Dir dir_stat0 [("a", File (bytes "B") 5)]).
Definition conflict2_replica : option node :=
  Some (Dir dir_stat0 [("a", Dir dir_stat0 [])]).

Definition json_ignoring_config : config :=
  mk_config "/src" "/rep" true true ["*.json"] false 3.
Definition cached_replica : option node :=
  Some (Dir dir_stat0 [("a.txt", File (bytes "A") 5);
                       ("hash_cache.json", File (bytes "{}") 9)]).

Definition dry_config : config :=
  mk_config "/src" "/rep" false false [] true 3.

(** A directory to add below a name that is a regular file in the
    replica. *)
Definition nested_source : option node :=
  Some (Dir dir_stat0 [("a", Dir dir_stat0 [("b", Dir dir_stat0 [])])]).

(** Names that hold a backslash.  The scanner reports them with a
    separator in its place, so the relative path it hands on can name
    another entry, or none. *)
Definition backslash_source : option node :=
  Some (Dir dir_stat0
          [("we\ird", Dir dir_stat0 []);
           ("we", Dir dir_stat0 [("ird", File (bytes "I") 5)])]).
Definition backslash_replica : option node :=
  Some (Dir dir_stat0
          [("x\y", File (bytes "X") 5);
           ("x", Dir dir_stat0 [("y", File (bytes "Y") 5)])]).
Definition backslash_below_file_source : option node :=
  Some (Dir dir_stat0
          [("a", File (bytes "A") 5); ("a\b\c", File (bytes "C") 5)]).
Definition one_a_replica : option node :=
  Some (Dir dir_stat0 [("a", File (bytes "A") 5)]).
Definition cached_a_replica : option node :=
  Some (Dir dir_stat0 [("a", File (bytes "A") 5);
                       ("hash_cache.json", File (bytes "{}") 9)]).

(** A replica that holds the cache file and a regular file where the
    source has a directory. *)
Definition cached_conflict_replica : option node :=
  Some (Dir dir_stat0 [("a", File (bytes "B") 5);
                       ("hash_cache.json", File (bytes "{}") 9)]).

(** No attempt at all: [range(0)] is empty. *)
Definition no_retry_config : config :=
  mk_config "/src" "/rep" false false [] false 0.
Definition no_retry_cache_config : config :=
  mk_config "/src" "/rep" true true [] false 0.

(** A world in which the first three attempts fail. *)
Definition faulty_world (s r : option node) : world :=
  mk_world s r ∅ [true; true; true] [].

(** ** What every call leaves in place *)

(** The source tree is the same, the cache has kept every entry (and is
    the same when caching is off), and the trace has only grown. *)
Definition preserved (cfg : config) (w w' : world) : Prop :=
  source_tree w' = source_tree w
  ∧ hash_cache w ⊆ hash_cache w'
  ∧ (use_hash_cache cfg = false → hash_cache w' = hash_cache w)
  ∧ trace w `prefix_of` trace w'.

(** The replica mirrors the source as far as the ignore rules let the
    program see: nothing visible that the source lacks, every visible
    entry of the source present with the same kind, and every visible file
    the source's own or one that [files_differ] takes for equal. *)
Definition mirrored (P : platform) (cfg : config) (w : world) : Prop :=
  wf_root (source_tree w) = true ∧ wf_root (replica_tree w) = true
  ∧ faults w = []
  ∧ (∀ q, q ≠ [] → visible cfg q → entry q (source_tree w) = None →
       entry q (replica_tree w) = None)
  ∧ (∀ q, visible cfg q → entry q (source_tree w) ≠ None →
       entry q (replica_tree w) ≠ None
       ∧ (entry q (replica_tree w) = Some KDir
          ↔ entry q (source_tree w) = Some KDir))
  ∧ (∀ q, q ≠ [] → visible cfg q →
       is_file (resolve q (source_tree w)) = true →
       entry q (replica_tree w) = entry q (source_tree w)
       ∨ ∃ c, (files_differ_core P cfg (InSource (render q))
                 (InReplica (render q)) (resolve q (source_tree w))
                 (resolve q (replica_tree w)) c).1.1 = inr false).

(** ** The rest of the module: the constructor, [load_config] and [main]

    [main] receives what [argparse] and [json.load] return, which the
    program does not type: values are modelled with the JSON kinds the
    code can be handed (numbers with a fraction are left out).  Paths
    other than the two folders (the configuration file, the ignore file
    and the log file) are taken to lie outside both trees, and the two
    folders to be apart. *)

#[local] Unset Elimination Schemes.
Inductive value :=
| VNone
| VBool (b : bool)
| VInt (z : Z)
| VStr (s : string)
| VList (items : list value)
| VDict (items : list (string * value)).
#[local] Set Elimination Schemes.

(** The truth value Python gives to a value in [if], [not] and [or]. *)
Definition truthy (v : value) : bool :=
  match v with
  | VNone => false
  | VBool b => b
  | VInt z => negb (bool_decide (z = 0)%Z)
  | VStr s => negb (bool_decide (s = ""))
  | VList items => negb (bool_decide (items = []))
  | VDict items => negb (bool_decide (items = []))
  end.

Definition of_option (o : option string) : value :=
  match o with
  | Some s => VStr s
  | None => VNone
  end.

(** The exceptions [main] can meet: those of the calls on the disk and
    those of the interpreter and of [json]. *)
Inductive py_exn :=
| FromDisk (e : exn)
| AttributeError
| TypeError
| ValueError
| OverflowError.

(** [FolderSynchronizer.__init__]: the fields are the arguments (the
    [config] of this development); the cache is read from the cache file
    of the replica when caching is on and the file exists, and is empty
    otherwise.  [json_load_cache] is [json.load] on the bytes of the file:
    it raises, or it answers a dictionary of strings, or ([None]) it
    answers other JSON, which the map of the world cannot hold. *)
Inductive constructed :=
| Constructed
| ConstructedForeignCache.

Definition init (json_load_cache : list byte → py_exn + option (gmap string string))
    (cfg : config) (w : world) : (py_exn + constructed) * world :=
  if use_hash_cache cfg && is_present (node_at hash_cache_file w) then
    match node_at hash_cache_file w with
    | Some (File content _) =>
        let w1 := emit (ReadBytes (abs_path cfg hash_cache_file)) w in
        match json_load_cache content with
        | inl e => (inl e, w1)
        | inr (Some cache) => (inr Constructed, set_cache cache w1)
        | inr None => (inr ConstructedForeignCache, w1)
        end
    | Some (Dir _ _) => (inl (FromDisk IsADirectoryError), w)
    | None => (inl (FromDisk FileNotFoundError), w)
    end
  else (inr Constructed, set_cache ∅ w).

(** *** The ignore file *)

(** [str.isspace] on the characters a [string] holds. *)
Definition is_space (c : ascii) : bool :=
  let n := nat_of_ascii c in
  bool_decide (9 ≤ n ≤ 13 ∨ 28 ≤ n ≤ 32 ∨ n = 133 ∨ n = 160)%nat.

(** [s.lstrip()] on the characters. *)
Fixpoint lstrip_chars (l : list ascii) : list ascii :=
  match l with
  | [] => []
  | c :: l' => if is_space c then lstrip_chars l' else l
  end.

(** [s.strip()] *)
Definition strip (s : string) : string :=
  str (reverse (lstrip_chars (reverse (lstrip_chars (chars s))))).

Definition newline : ascii := ascii_of_nat 10.
Definition carriage_return : ascii := ascii_of_nat 13.

(** A file opened with [open(path, "r")] is read with universal newlines:
    a carriage return followed by a newline, and a carriage return alone,
    both arrive as one newline.  [after_cr] says that the character before
    was a carriage return. *)
Fixpoint universal_newlines_from (after_cr : bool) (raw : list ascii)
  : list ascii :=
  match raw with
  | [] => []
  | c :: raw' =>
      if bool_decide (c = carriage_return) then
        newline :: universal_newlines_from true raw'
      else if bool_decide (c = newline) && after_cr then
        universal_newlines_from false raw'
      else c :: universal_newlines_from false raw'
  end.

Definition universal_newlines (raw : string) : string :=
  str (universal_newlines_from false (chars raw)).

(** [for line in f]: the text of the file cut after each newline; a last
    line without newline is a line too, an empty rest is not.  [cur] is the
    line being read. *)
Fixpoint text_lines_from (cur text : list ascii) : list string :=
  match text with
  | [] => if bool_decide (cur = []) then [] else [str cur]
  | c :: text' =>
      if bool_decide (c = newline) then
        str (cur ++ [c]) :: text_lines_from [] text'
      else text_lines_from (cur ++ [c]) text'
  end.

Definition text_lines (text : string) : list string :=
  text_lines_from [] (chars text).

(** The loop of [main] over the lines of the ignore file: each line is
    stripped and kept when something is left. *)
Fixpoint keep_patterns (lines : list string) : list string :=
  match lines with
  | [] => []
  | line :: rest =>
      let pattern := strip line in
      if bool_decide (pattern = "") then keep_patterns rest
      else pattern :: keep_patterns rest
  end.

(** The patterns [main] reads from an ignore file that holds the
    characters [raw]. *)
Definition read_ignore_patterns (raw : string) : list string :=
  keep_patterns (text_lines (universal_newlines raw)).

(** A pattern as the loop leaves it. *)
Definition clean_pattern (p : string) : Prop :=
  p ≠ "" ∧ (newline ∉ chars p) ∧ (carriage_return ∉ chars p)
  ∧ (∀ c, head (chars p) = Some c → is_space c = false)
  ∧ (∀ c, last (chars p) = Some c → is_space c = false).

(** The patterns written one per line. *)
Fixpoint write_lines (patterns : list string) : string :=
  match patterns with
  | [] => ""
  | p :: rest => p +:+ String newline (write_lines rest)
  end.

(** *** [load_config] and [main] *)

(** What [main] asks of its libraries and of the disk outside the two
    folders: [os.path.exists] and the decoded characters of a file there,
    [json.load] on a text and on the bytes of the cache file, [str.upper],
    whether the log file lies inside the source folder or the replica
    folder, whether [setup_logging] raises on a log file and a level,
    whether [os.makedirs] of the replica folder fails, and whether
    [time.sleep] raises on an interval (it does on one too large for its
    clock).  A dictionary is the list of its items, each key once. *)
Record environment := mk_environment {
  other_exists : string → bool;
  other_read : string → py_exn + string;
  json_load : string → py_exn + value;
  json_load_cache : list byte → py_exn + option (gmap string string);
  str_upper : string → string;
  log_file_in_folders : value → bool;
  setup_logging : value → value → option py_exn;
  makedirs_replica : option exn;
  time_sleep : value → option py_exn
}.

(** [load_config] *)
Definition load_config (env : environment) (config_file : string)
  : py_exn + value :=
  if negb (bool_decide (config_file = "")) && other_exists env config_file then
    match other_read env config_file with
    | inl e => inl e
    | inr raw => json_load env (universal_newlines raw)
    end
  else inr (VDict []).

(** The [Namespace] that [parser.parse_args()] returns. *)
Record arguments := mk_arguments {
  arg_source_folder : option string;
  arg_replica_folder : option string;
  arg_sync_interval : option Z;
  arg_log_file : option string;
  arg_use_md5 : bool;
  arg_use_hash_cache : bool;
  arg_ignore_file : option string;
  arg_dry_run : bool;
  arg_log_level : string;
  arg_config_file : option string
}.

(** [config.get(key, default)]: only a dictionary has [get]. *)
Definition config_get (config : value) (key : string) (default : value)
  : py_exn + value :=
  match config with
  | VDict items =>
      inr (match alookup key items with Some v => v | None => default end)
  | _ => inl AttributeError
  end.

(** [a or config.get(key, default)]: the right side is evaluated only
    when the left one is false. *)
Definition or_config (a config : value) (key : string) (default : value)
  : py_exn + value :=
  if truthy a then inr a else config_get config key default.

(** [v.upper()] *)
Definition upper_value (env : environment) (v : value) : py_exn + value :=
  match v with
  | VStr s => inr (VStr (str_upper env s))
  | _ => inl AttributeError
  end.

Record settings := mk_settings {
  set_source_folder : value;
  set_replica_folder : value;
  set_sync_interval : value;
  set_log_file : value;
  set_use_md5 : value;
  set_use_hash_cache : value;
  set_ignore_file : value;
  set_dry_run : value;
  set_log_level : value
}.

Definition and_then {A B} (m : py_exn + A) (k : A → py_exn + B)
  : py_exn + B :=
  match m with
  | inl e => inl e
  | inr a => k a
  end.

(** Lines 347 to 361 of [main], in their order. *)
Definition merge_settings (env : environment) (args : arguments)
    (config : value) : py_exn + settings :=
  and_then (or_config (of_option (arg_source_folder args)) config
              "source_folder" VNone) (λ source_folder,
  and_then (or_config (of_option (arg_replica_folder args)) config
              "replica_folder" VNone) (λ replica_folder,
  and_then (match arg_sync_interval args with
            | Some z => inr (VInt z)
            | None => config_get config "sync_interval" (VInt 30)
            end) (λ sync_interval,
  and_then (or_config (of_option (arg_log_file args)) config
              "log_file" (VStr "sync.log")) (λ log_file,
  and_then (or_config (VBool (arg_use_md5 args)) config
              "use_md5" (VBool false)) (λ use_md5,
  and_then (or_config (VBool (arg_use_hash_cache args)) config
              "use_hash_cache" (VBool false)) (λ use_hash_cache,
  and_then (or_config (of_option (arg_ignore_file args)) config
              "ignore_file" VNone) (λ ignore_file,
  and_then (or_config (VBool (arg_dry_run args)) config
              "dry_run" (VBool false)) (λ dry_run,
  and_then (if negb (bool_decide (arg_log_level args = ""))
            then inr (VStr (str_upper env (arg_log_level args)))
            else and_then (config_get config "log_level" (VStr "INFO"))
                   (upper_value env)) (λ log_level,
  inr (mk_settings source_folder replica_folder sync_interval log_file
         use_md5 use_hash_cache ignore_file dry_run log_level)))))))))).

(** [os.path.exists(v)]: a string is looked up; a list or a dictionary is
    a [TypeError]; a number is taken for a file descriptor, which this
    development does not model. *)
Inductive path_check :=
| PathIs (present : bool)
| PathTypeError
| PathNotModelled.

Definition exists_value (lookup : string → bool) (v : value) : path_check :=
  match v with
  | VStr s => PathIs (lookup s)
  | VInt _ | VBool _ => PathNotModelled
  | VNone | VList _ | VDict _ => PathTypeError
  end.

(** [sync_interval <= 0] *)
Definition nonpositive (v : value) : py_exn + bool :=
  match v with
  | VInt z => inr (bool_decide (z ≤ 0)%Z)
  | VBool b => inr (negb b)
  | _ => inl TypeError
  end.

(** What [main] logs and does, besides what the passes do. *)
Inductive main_event :=
| ErrorPathsRequired
| ErrorSourceMissing (source_folder : value)
| ErrorInterval
| WarningIgnoreFileMissing (ignore_file : value)
| MakedirsReplica (replica_folder : string)
| ErrorReplicaFolder (replica_folder : string) (e : exn)
| InfoStarting (s : settings)
| FromPass (e : event)
| InfoCompleted
| ExceptionInPass (e : exn)
| SleepFor (seconds : value).

(** How far [main] gets: [sys.exit], an exception nothing catches before
    the loop, a step this development does not model, the loop still
    running, or the loop ended by an exception of [time.sleep], which is
    outside the inner [try]. *)
Inductive outcome :=
| Exit (code : Z)
| Uncaught (e : py_exn)
| NotModelled
| Looping
| SleepRaised (e : py_exn).

(** [main] ended before its loop: by [sys.exit] or by an exception. *)
Definition ended_before_loop (o : outcome) : bool :=
  match o with
  | Exit _ | Uncaught _ => true
  | _ => false
  end.

(** What the loop logs when a pass has ended: [Synchronization
    completed.], or the exception that the pass raised. *)
Definition pass_end (r : exn + unit) : main_event :=
  match r with
  | inr _ => InfoCompleted
  | inl e => ExceptionInPass e
  end.

Definition is_from_pass (e : main_event) : bool :=
  match e with FromPass _ => true | _ => false end.

(** The events of [main] itself, without those of the passes. *)
Definition own_events (log : list main_event) : list main_event :=
  List.filter (λ e, negb (is_from_pass e)) log.

(** The first [n] rounds of the loop of [main]: [synchronize], the log of
    its end, the pause.  An exception of the pause ends the loop. *)
Fixpoint sync_loop (env : environment) (P : platform) (cfg : config)
    (interval : value) (n : nat) (w : world)
  : outcome * world * list main_event :=
  match n with
  | O => (Looping, w, [])
  | S n' =>
      let '(r, w1) := synchronize P cfg w in
      let round := (FromPass <$> new_events w w1) ++ [pass_end r] in
      match time_sleep env interval with
      | Some e => (SleepRaised e, w1, round)
      | None =>
          let '(o, w2, rest) := sync_loop env P cfg interval n' w1 in
          (o, w2, round ++ [SleepFor interval] ++ rest)
      end
  end.

(** Lines 380 to 392: the ignore rules. *)
Definition load_ignore_patterns (env : environment) (ignore_file : value)
  : (outcome + list string) * list main_event :=
  if truthy ignore_file then
    match exists_value (other_exists env) ignore_file with
    | PathTypeError => (inl (Uncaught TypeError), [])
    | PathNotModelled => (inl NotModelled, [])
    | PathIs false => (inr [], [WarningIgnoreFileMissing ignore_file])
    | PathIs true =>
        match ignore_file with
        | VStr f =>
            match other_read env f with
            | inl e => (inl (Uncaught e), [])
            | inr raw => (inr (read_ignore_patterns raw), [])
            end
        | _ => (inl NotModelled, [])
        end
    end
  else (inr [], []).

(** Lines 394 to 432: the replica folder, the synchronizer and the loop,
    for folders that are strings. *)
Definition start (env : environment) (P : platform) (s : settings)
    (source_folder replica_folder : string) (patterns : list string)
    (n : nat) (w : world) (log : list main_event)
  : outcome * world * list main_event :=
  let cfg := mk_config source_folder replica_folder (truthy (set_use_md5 s))
               (truthy (set_use_hash_cache s)) patterns
               (truthy (set_dry_run s)) 3 in
  let made : (outcome + world) * list main_event :=
    if negb (is_present (replica_tree w)) && negb (truthy (set_dry_run s)) then
      match makedirs_replica env with
      | Some e =>
          (inl (Exit 1),
           [MakedirsReplica replica_folder;
            ErrorReplicaFolder replica_folder e])
      | None =>
          (inr (set_replica (Some (Dir (mkdir_stat P) [])) w),
           [MakedirsReplica replica_folder])
      end
    else (inr w, []) in
  match made with
  | (inl o, evs) => (o, w, log ++ evs)
  | (inr w1, evs) =>
      match init (json_load_cache env) cfg w1 with
      | (inl e, w2) => (Uncaught e, w2, log ++ evs)
      | (inr ConstructedForeignCache, w2) => (NotModelled, w2, log ++ evs)
      | (inr Constructed, w2) =>
          let '(o, w3, passes) :=
            sync_loop env P cfg (set_sync_interval s) n w2 in
          (o, w3, log ++ evs ++ [InfoStarting s] ++ passes)
      end
  end.

(** [main], from the parsed arguments on, for the first [n] rounds of its
    loop.  The world holds what is at the source folder and at the replica
    folder.  [setup_logging] creates the log file and every logger call
    appends to it: a run whose log file lies inside one of the two folders
    changes them by logging, and is not followed here. *)
Definition main (env : environment) (P : platform) (args : arguments)
    (n : nat) (w : world) : outcome * world * list main_event :=
  let config :=
    match arg_config_file args with
    | Some f => if bool_decide (f = "") then inr (VDict [])
                else load_config env f
    | None => inr (VDict [])
    end in
  match and_then config (merge_settings env args) with
  | inl e => (Uncaught e, w, [])
  | inr s =>
      if log_file_in_folders env (set_log_file s) then (NotModelled, w, [])
      else
      match setup_logging env (set_log_file s) (set_log_level s) with
      | Some e => (Uncaught e, w, [])
      | None =>
          if negb (truthy (set_source_folder s))
             || negb (truthy (set_replica_folder s))
          then (Exit 1, w, [ErrorPathsRequired])
          else
            match exists_value (λ _, is_present (source_tree w))
                    (set_source_folder s) with
            | PathTypeError => (Uncaught TypeError, w, [])
            | PathNotModelled => (NotModelled, w, [])
            | PathIs false =>
                (Exit 1, w, [ErrorSourceMissing (set_source_folder s)])
            | PathIs true =>
                match nonpositive (set_sync_interval s) with
                | inl e => (Uncaught e, w, [])
                | inr true => (Exit 1, w, [ErrorInterval])
                | inr false =>
                    match load_ignore_patterns env (set_ignore_file s) with
                    | (inl o, evs) => (o, w, evs)
                    | (inr patterns, evs) =>
                        match set_source_folder s, set_replica_folder s with
                        | VStr source_folder, VStr replica_folder =>
                            start env P s source_folder replica_folder
                              patterns n w evs
                        | _, VList _ | _, VDict _ | _, VNone =>
                            (Uncaught TypeError, w, evs)
                        | _, _ => (NotModelled, w, evs)
                        end
                    end
                end
            end
      end
  end.

(** ** Sample environment and arguments *)

Definition demo_environment : environment :=
  mk_environment (λ _, false) (λ _, inl (FromDisk FileNotFoundError))
    (λ _, inl ValueError) (λ _, inr (Some ∅)) id (λ _, false) (λ _ _, None)
    None (λ _, None).

Definition demo_arguments : arguments :=
  mk_arguments (Some "/src") (Some "/rep") (Some 30%Z) None false false None
    false "INFO" None.

Definition zero_interval_arguments : arguments :=
  mk_arguments (Some "/src") (Some "/rep") (Some 0%Z) None false false None
    false "INFO" None.

Definition dry_arguments : arguments :=
  mk_arguments (Some "/src") (Some "/rep") (Some 30%Z) None false false None
    true "INFO" None.

(** * Paths as strings and as component lists *)

Lemma str_chars s : str (chars s) = s.
Proof. apply string_of_list_ascii_of_string. Qed.

Lemma chars_str l : chars (str l) = l.
Proof. apply list_ascii_of_string_of_list_ascii. Qed.

Lemma chars_app (a b : string) : chars (a +:+ b) = chars a ++ chars b.
Proof. induction a as [|c a IH]; simpl; [done|]. by rewrite <- IH. Qed.

Lemma chars_inj a b : chars a = chars b → a = b.
Proof. intros H. by rewrite <- (str_chars a), <- (str_chars b), H. Qed.

Lemma chars_nil s : chars s = [] → s = "".
Proof. intros H. by apply chars_inj. Qed.

Lemma valid_name_spec name :
  valid_name name = true ↔
  name ≠ "" ∧ name ≠ "." ∧ name ≠ ".."
  ∧ (sep ∉ chars name) ∧ (backslash ∉ chars name).
Proof. unfold valid_name. by rewrite bool_decide_eq_true. Qed.

Lemma split_sep_nosep x : sep ∉ x → split_sep x = [x].
Proof.
  induction x as [|c x IH]; intros Hx; [done|].
  cbn [split_sep]. rewrite decide_False by (intros ->; apply Hx; by left).
  rewrite IH; [done|]. intros ?. apply Hx. by right.
Qed.

Lemma split_sep_app x y :
  sep ∉ x → split_sep (x ++ sep :: y) = x :: split_sep y.
Proof.
  induction x as [|c x IH]; intros Hx.
  - cbn [app split_sep]. by rewrite decide_True.
  - cbn [app split_sep]. rewrite decide_False by (intros ->; apply Hx; by left).
    rewrite IH; [done|]. intros ?. apply Hx. by right.
Qed.

Lemma chars_render_cons c c' cs :
  chars (render (c :: c' :: cs)) = chars c ++ sep :: chars (render (c' :: cs)).
Proof. cbn [render]. by rewrite !chars_app. Qed.

Lemma split_sep_render cs :
  valid_path cs → cs ≠ [] → split_sep (chars (render cs)) = chars <$> cs.
Proof.
  induction cs as [|c cs IH]; intros Hv Hne; [done|].
  apply Forall_cons in Hv as [Hc Hv].
  apply valid_name_spec in Hc as (_ & _ & _ & Hsep & _).
  destruct cs as [|c' cs].
  - simpl. by rewrite split_sep_nosep.
  - rewrite chars_render_cons, split_sep_app by done.
    rewrite IH by done. done.
Qed.

Lemma split_path_render cs : valid_path cs → split_path (render cs) = cs.
Proof.
  intros Hv. destruct (decide (cs = [])) as [->|Hne]; [done|].
  unfold split_path. rewrite split_sep_render by done.
  clear Hne. induction Hv as [|c cs Hc Hv IH]; [done|].
  rewrite fmap_cons.
  apply valid_name_spec in Hc as (Hc & _).
  rewrite filter_cons_True.
  - rewrite fmap_cons, str_chars. by rewrite IH.
  - intros Hnil. by apply Hc, chars_nil.
Qed.

Lemma render_inj cs cs' :
  valid_path cs → valid_path cs' → render cs = render cs' → cs = cs'.
Proof.
  intros H1 H2 Heq.
  by rewrite <- (split_path_render cs), <- (split_path_render cs'), Heq.
Qed.

Lemma render_nonempty cs : valid_path cs → cs ≠ [] → render cs ≠ "".
Proof.
  intros Hv Hne Heq. apply Hne.
  rewrite <- (split_path_render cs) by done. by rewrite Heq.
Qed.

Lemma render_not_dot cs : valid_path cs → render cs ≠ ".".
Proof.
  intros Hv Heq.
  assert (cs = ["."]) as ->.
  { rewrite <- (split_path_render cs) by done. by rewrite Heq. }
  apply Forall_cons in Hv as [Hc _]. by apply valid_name_spec in Hc as (_ & ? & _).
Qed.

Lemma render_snoc cs n :
  cs ≠ [] → render (cs ++ [n]) = render cs +:+ "/" +:+ n.
Proof.
  induction cs as [|c cs IH]; intros Hne; [done|].
  destruct cs as [|c' cs]; [done|].
  change ((c :: c' :: cs) ++ [n]) with (c :: (c' :: cs) ++ [n]).
  change (render (c :: (c' :: cs) ++ [n]))
    with (c +:+ "/" +:+ render ((c' :: cs) ++ [n])).
  rewrite IH by done. cbn [render].
  apply chars_inj. rewrite !chars_app. by rewrite <- !app_assoc.
Qed.

Lemma render_ends_with_last cs c :
  last cs = Some c → ∃ pre, chars (render cs) = pre ++ chars c.
Proof.
  induction cs as [|c0 cs IH]; intros Hl; [done|].
  destruct cs as [|c' cs].
  - simplify_eq/=. by exists [].
  - destruct IH as [pre Hpre]; [done|].
    exists (chars c0 ++ sep :: pre).
    rewrite chars_render_cons, Hpre. by rewrite <- app_assoc.
Qed.

Lemma startswith_sep_false n : sep ∉ chars n → startswith n "/" = false.
Proof.
  intros Hn. apply bool_decide_eq_false. intros [k Hk]. simpl in Hk.
  apply Hn. rewrite Hk. by left.
Qed.

Lemma endswith_sep_false cs :
  valid_path cs → endswith (render cs) "/" = false.
Proof.
  intros Hv. apply bool_decide_eq_false. intros [k Hk].
  destruct (last cs) as [c|] eqn:Hl.
  - destruct (render_ends_with_last cs c Hl) as [pre Hpre].
    assert (valid_name c = true) as Hc.
    { apply last_Some in Hl as [l' ->]. by apply Forall_app in Hv as [_ [? _]%Forall_cons]. }
    apply valid_name_spec in Hc as (Hne & _ & _ & Hsep & _).
    rewrite Hpre in Hk. simpl in Hk.
    destruct (chars c) as [|a l] eqn:Hc using rev_ind.
    { by apply Hne, chars_nil. }
    clear IHl. rewrite app_assoc in Hk.
    apply app_inj_tail in Hk as [_ ->].
    apply Hsep. apply elem_of_app. right. by left.
  - apply last_None in Hl as ->. simpl in Hk. by destruct k.
Qed.

Lemma os_path_join_render cs n :
  valid_path cs → valid_name n = true →
  os_path_join (render cs) n = render (cs ++ [n]).
Proof.
  intros Hv Hn. unfold os_path_join.
  apply valid_name_spec in Hn as (_ & _ & _ & Hsep & _).
  rewrite startswith_sep_false by done.
  rewrite endswith_sep_false by done. rewrite orb_false_r.
  destruct (decide (cs = [])) as [->|Hne]; [done|].
  rewrite bool_decide_eq_false_2 by by apply render_nonempty.
  by rewrite render_snoc.
Qed.

Lemma before_last_sep_nosep y : sep ∉ y → before_last_sep y = None.
Proof.
  induction y as [|c y IH]; intros Hy; [done|].
  cbn [before_last_sep]. rewrite IH by (intros ?; apply Hy; by right).
  rewrite decide_False; [done|]. intros ->. apply Hy. by left.
Qed.

Lemma before_last_sep_app x y :
  sep ∉ y → before_last_sep (x ++ sep :: y) = Some x.
Proof.
  intros Hy. induction x as [|c x IH].
  - cbn [app before_last_sep].
    rewrite before_last_sep_nosep by done. by rewrite decide_True.
  - cbn [app before_last_sep]. by rewrite IH.
Qed.

Lemma os_path_dirname_render cs n :
  valid_name n = true → os_path_dirname (render (cs ++ [n])) = render cs.
Proof.
  intros Hn. apply valid_name_spec in Hn as (_ & _ & _ & Hsep & _).
  unfold os_path_dirname.
  destruct (decide (cs = [])) as [->|Hne].
  - simpl. by rewrite before_last_sep_nosep.
  - rewrite render_snoc by done. rewrite !chars_app. simpl.
    rewrite before_last_sep_app by done. apply str_chars.
Qed.

Lemma backslash_not_in_render cs :
  valid_path cs → backslash ∉ chars (render cs).
Proof.
  induction 1 as [|c cs Hc Hv IH]; [apply not_elem_of_nil|].
  apply valid_name_spec in Hc as (_ & _ & _ & _ & Hb).
  destruct cs as [|c' cs]; [done|].
  rewrite chars_render_cons. intros [?|[?|?]%elem_of_cons]%elem_of_app; done.
Qed.

Lemma replace_backslash_id s : backslash ∉ chars s → replace_backslash s = s.
Proof.
  intros Hs. unfold replace_backslash.
  rewrite <- (str_chars s) at 2. f_equal.
  induction (chars s) as [|c l IH]; [done|].
  rewrite fmap_cons. unfold normalize_char at 1.
  rewrite decide_False by (intros ->; apply Hs; by left).
  rewrite IH; [done|]. intros ?. apply Hs. by right.
Qed.

Lemma replace_backslash_render cs :
  valid_path cs → replace_backslash (render cs) = render cs.
Proof. intros. by apply replace_backslash_id, backslash_not_in_render. Qed.

(** * Trees: lookup and update *)

Lemma node_ind (Q : node → Prop) :
  (∀ c m, Q (File c m)) →
  (∀ st es, Forall (λ e, Q e.2) es → Q (Dir st es)) →
  ∀ n, Q n.
Proof.
  intros HF HD. fix IH 1. intros [c m|st es]; [apply HF|].
  apply HD. induction es as [|[k v] es IHes]; constructor.
  - apply IH.
  - apply IHes.
Qed.

Section Assoc.
Context {A : Type}.
Implicit Types (es : list (string * A)) (k : string) (v : A).

Lemma alookup_aset_eq k v es : alookup k (aset k v es) = Some v.
Proof.
  induction es as [|[k' v'] es IH]; simpl.
  - by rewrite decide_True.
  - destruct (decide (k = k')) as [->|Hne]; simpl.
    + by rewrite decide_True.
    + by rewrite decide_False.
Qed.

Lemma alookup_aset_ne k k' v es :
  k' ≠ k → alookup k' (aset k v es) = alookup k' es.
Proof.
  intros Hne. induction es as [|[k0 v0] es IH]; simpl.
  - by rewrite decide_False.
  - destruct (decide (k = k0)) as [->|Hne0]; simpl.
    + by rewrite !decide_False.
    + destruct (decide (k' = k0)); [done|apply IH].
Qed.

Lemma alookup_adel_eq k es : alookup k (adel k es) = None.
Proof.
  induction es as [|[k' v'] es IH]; simpl; [done|].
  destruct (decide (k = k')) as [->|Hne]; simpl; [done|].
  by rewrite decide_False.
Qed.

Lemma alookup_adel_ne k k' es :
  k' ≠ k → alookup k' (adel k es) = alookup k' es.
Proof.
  intros Hne. induction es as [|[k0 v0] es IH]; simpl; [done|].
  destruct (decide (k = k0)) as [->|Hne0]; simpl.
  - by rewrite decide_False.
  - destruct (decide (k' = k0)); [done|apply IH].
Qed.

Lemma alookup_aput_eq k o es : alookup k (aput k o es) = o.
Proof. destruct o; [apply alookup_aset_eq|apply alookup_adel_eq]. Qed.

Lemma alookup_aput_ne k k' o es :
  k' ≠ k → alookup k' (aput k o es) = alookup k' es.
Proof. destruct o; [apply alookup_aset_ne|apply alookup_adel_ne]. Qed.

Lemma alookup_Some_elem k v es : alookup k es = Some v → (k, v) ∈ es.
Proof.
  induction es as [|[k' v'] es IH]; simpl; [done|].
  destruct (decide (k = k')) as [->|Hne].
  - intros [= ->]. by left.
  - intros H. right. by apply IH.
Qed.

Lemma alookup_None_keys k es : alookup k es = None ↔ k ∉ es.*1.
Proof.
  induction es as [|[k' v'] es IH]; simpl.
  - split; [intros _; apply not_elem_of_nil|done].
  - destruct (decide (k = k')) as [->|Hne].
    + split; [done|]. intros H. exfalso. apply H. by left.
    + rewrite IH, not_elem_of_cons. tauto.
Qed.

Lemma elem_alookup_NoDup k v es :
  NoDup es.*1 → (k, v) ∈ es → alookup k es = Some v.
Proof.
  induction es as [|[k' v'] es IH]; simpl; intros Hnd Hel.
  - by apply elem_of_nil in Hel.
  - apply NoDup_cons in Hnd as [Hk' Hnd].
    apply elem_of_cons in Hel as [[= <- <-]|Hel].
    + by rewrite decide_True.
    + rewrite decide_False; [by apply IH|].
      intros <-. apply Hk'. apply list_elem_of_fmap. by exists (k, v).
Qed.

Lemma aset_keys k v es :
  (aset k v es).*1 = if decide (k ∈ es.*1) then es.*1 else es.*1 ++ [k].
Proof.
  induction es as [|[k' v'] es IH].
  - destruct (decide (k ∈ ([] : list (string * A)).*1)) as [H|H]; [|done].
    by apply elem_of_nil in H.
  - cbn [aset]. destruct (decide (k = k')) as [->|Hne].
    + rewrite decide_True; [done|]. rewrite fmap_cons. by left.
    + rewrite !fmap_cons, IH. cbn [fst].
      destruct (decide (k ∈ es.*1)) as [Hin|Hin].
      * rewrite decide_True; [done|by right].
      * rewrite decide_False; [done|]. by intros [?|?]%elem_of_cons.
Qed.

Lemma aset_values_Forall (Q : A → Prop) k v es :
  Q v → Forall (λ e, Q e.2) es → Forall (λ e, Q e.2) (aset k v es).
Proof.
  intros Hv. induction 1 as [|[k' v'] es Hx Hes IH]; simpl.
  - by constructor.
  - destruct (decide (k = k')); constructor; done.
Qed.

Lemma adel_keys_sublist k es : (adel k es).*1 `sublist_of` es.*1.
Proof.
  induction es as [|[k' v'] es IH]; simpl; [done|].
  destruct (decide (k = k')); simpl.
  - by apply sublist_cons.
  - by apply sublist_skip.
Qed.

Lemma adel_keys_Forall (Q : string → Prop) k es :
  Forall Q es.*1 → Forall Q (adel k es).*1.
Proof.
  induction es as [|[k' v'] es IH]; simpl; [done|].
  intros [? ?]%Forall_cons.
  destruct (decide (k = k')); [by apply IH|].
  rewrite fmap_cons. constructor; [done|by apply IH].
Qed.

Lemma adel_values_Forall (Q : A → Prop) k es :
  Forall (λ e, Q e.2) es → Forall (λ e, Q e.2) (adel k es).
Proof.
  induction 1 as [|[k' v'] es Hx Hes IH]; simpl; [done|].
  destruct (decide (k = k')); [done|by constructor].
Qed.

End Assoc.

Lemma resolve_None q : resolve q None = None.
Proof. by destruct q. Qed.

Lemma resolve_File q c m : q ≠ [] → resolve q (Some (File c m)) = None.
Proof. by destruct q. Qed.

Lemma resolve_app p q o : resolve (p ++ q) o = resolve q (resolve p o).
Proof.
  revert o. induction p as [|c p IH]; intros o; [done|].
  simpl. destruct o as [[|st es]|]; by rewrite ?IH, ?resolve_None.
Qed.

Lemma entry_app_None p q o : entry p o = None → entry (p ++ q) o = None.
Proof.
  unfold entry. rewrite resolve_app.
  destruct (resolve p o); [done|]. by rewrite resolve_None.
Qed.

Lemma entry_is_dir q o : entry q o = Some KDir ↔ is_dir (resolve q o) = true.
Proof. unfold entry. by destruct (resolve q o) as [[]|]. Qed.

Lemma entry_is_present q o : entry q o ≠ None ↔ is_present (resolve q o) = true.
Proof. unfold entry. by destruct (resolve q o) as [[]|]. Qed.

Lemma entry_is_file q o :
  (∃ c m, entry q o = Some (KFile c m)) ↔ is_file (resolve q o) = true.
Proof.
  unfold entry. destruct (resolve q o) as [[]|]; simpl; split;
    try done; try (by intros (? & ? & ?)); eauto.
Qed.

(** A path with something below it names a directory. *)
Lemma entry_parent_dir p q o :
  q ≠ [] → entry (p ++ q) o ≠ None → entry p o = Some KDir.
Proof.
  unfold entry. rewrite resolve_app. intros Hq.
  destruct (resolve p o) as [[c m|st es]|]; [|done|].
  - by rewrite resolve_File.
  - by rewrite resolve_None.
Qed.

Lemma update_at_other p f o o' q :
  update_at p f o = inr o' → ¬ p `prefix_of` q → entry q o' = entry q o.
Proof.
  revert o o' q. induction p as [|c p IH]; intros o o' q Hup Hpre.
  - exfalso. apply Hpre. apply prefix_nil.
  - simpl in Hup. destruct o as [[cc m|st es]|]; [done| |done].
    destruct (update_at p f (alookup c es)) as [e|r] eqn:Hr; [done|].
    simplify_eq. destruct q as [|c' q]; [done|].
    unfold entry. simpl. destruct (decide (c' = c)) as [->|Hne].
    + rewrite alookup_aput_eq. apply (IH _ _ _ Hr).
      intros Hp. apply Hpre. by apply prefix_cons.
    + by rewrite alookup_aput_ne.
Qed.

Lemma update_at_under p f o o' :
  update_at p f o = inr o' →
  ∃ res, f (resolve p o) = inr res ∧ ∀ t, resolve (p ++ t) o' = resolve t res.
Proof.
  revert o o'. induction p as [|c p IH]; intros o o' Hup.
  - simpl in *. by exists o'.
  - simpl in Hup. destruct o as [[cc m|st es]|]; [done| |done].
    destruct (update_at p f (alookup c es)) as [e|r] eqn:Hr; [done|].
    simplify_eq. destruct (IH _ _ Hr) as (res & Hf & Hres).
    exists res. split; [done|]. intros t. simpl.
    rewrite alookup_aput_eq. apply Hres.
Qed.

Lemma update_at_ok pre c f o res :
  is_dir (resolve pre o) = true →
  f (resolve (pre ++ [c]) o) = inr res →
  ∃ o', update_at (pre ++ [c]) f o = inr o'.
Proof.
  revert o. induction pre as [|c0 pre IH]; intros o Hdir Hf.
  - simpl in *. destruct o as [[|st es]|]; [done| |done].
    rewrite Hf. by eexists.
  - destruct o as [[|st es]|]; simpl in Hdir, Hf; try done.
    simpl. destruct (IH _ Hdir Hf) as [o' ->]. by eexists.
Qed.

(** * Well-formed trees *)

Lemma forallb_Forall {A} (f : A → bool) (l : list A) :
  forallb f l = true ↔ Forall (λ x, f x = true) l.
Proof.
  induction l as [|x l IH]; simpl.
  - split; [constructor|done].
  - rewrite andb_true_iff, Forall_cons, IH. done.
Qed.

Lemma wf_node_Dir st es :
  wf_node (Dir st es) = true ↔
  NoDup es.*1 ∧ valid_path es.*1 ∧ Forall (λ e, wf_node e.2 = true) es.
Proof.
  cbn [wf_node]. rewrite !andb_true_iff, bool_decide_eq_true.
  rewrite !forallb_Forall. unfold valid_path. tauto.
Qed.

Lemma wf_opt_alookup st es c :
  wf_node (Dir st es) = true → wf_opt (alookup c es).
Proof.
  intros (_ & _ & Hall)%wf_node_Dir.
  destruct (alookup c es) as [v|] eqn:Hl; [|done].
  apply alookup_Some_elem in Hl. rewrite Forall_forall in Hall.
  by apply (Hall (c, v)).
Qed.

Lemma wf_opt_resolve q o : wf_opt o → wf_opt (resolve q o).
Proof.
  revert o. induction q as [|c q IH]; intros o Hwf; [done|].
  simpl. destruct o as [[|st es]|]; try done.
  apply IH. by apply (wf_opt_alookup st).
Qed.

Lemma wf_present_valid q o :
  wf_opt o → is_present (resolve q o) = true → valid_path q.
Proof.
  revert o. induction q as [|c q IH]; intros o Hwf Hp; [constructor|].
  simpl in Hp. destruct o as [[|st es]|]; try done.
  destruct (alookup c es) as [v|] eqn:Hl; [|by rewrite resolve_None in Hp].
  constructor.
  - apply wf_node_Dir in Hwf as (_ & Hvalid & _).
    apply alookup_Some_elem in Hl.
    unfold valid_path in Hvalid. rewrite Forall_forall in Hvalid.
    apply Hvalid. apply list_elem_of_fmap. by exists (c, v).
  - apply (IH (Some v)); [|done].
    pose proof (wf_opt_alookup st es c Hwf) as H. by rewrite Hl in H.
Qed.

Lemma wf_aput st es c r :
  wf_node (Dir st es) = true → valid_name c = true → wf_opt r →
  wf_node (Dir st (aput c r es)) = true.
Proof.
  intros (Hnd & Hvalid & Hall)%wf_node_Dir Hc Hr. apply wf_node_Dir.
  destruct r as [v|]; simpl.
  - rewrite aset_keys. split; [|split].
    + destruct (decide (c ∈ es.*1)); [done|].
      apply NoDup_app. split; [done|]. split; [|apply NoDup_singleton].
      intros x Hx ->%list_elem_of_singleton. done.
    + destruct (decide (c ∈ es.*1)); [done|].
      apply Forall_app. split; [done|]. by constructor.
    + by apply (aset_values_Forall (λ n, wf_node n = true)).
  - split; [|split].
    + by apply (sublist_NoDup _ _ Hnd (adel_keys_sublist c es)).
    + by apply adel_keys_Forall.
    + by apply (adel_values_Forall (λ n, wf_node n = true)).
Qed.

Lemma update_at_wf p f o o' :
  wf_opt o → valid_path p →
  (∀ x y, wf_opt x → f x = inr y → wf_opt y) →
  update_at p f o = inr o' → wf_opt o'.
Proof.
  intros Hwf Hp Hf. revert o o' Hwf.
  induction Hp as [|c p Hc Hp IH]; intros o o' Hwf Hup.
  - simpl in Hup. by eapply Hf.
  - simpl in Hup. destruct o as [[cc m|st es]|]; [done| |done].
    destruct (update_at p f (alookup c es)) as [e|r] eqn:Hr; [done|].
    simplify_eq. apply wf_aput; [done..|].
    apply (IH _ _ (wf_opt_alookup st es c Hwf) Hr).
Qed.

Lemma wf_root_spec o : wf_root o = true ↔ is_dir o = true ∧ wf_opt o.
Proof. destruct o as [[]|]; simpl; split; try done; tauto. Qed.

(** * The disk operations seen through [entry] *)

Lemma entry_nil_dir o : is_dir o = true ↔ entry [] o = Some KDir.
Proof. unfold entry. simpl. by destruct o as [[]|]. Qed.

Lemma entry_None_resolve q o : entry q o = None ↔ resolve q o = None.
Proof. unfold entry. by destruct (resolve q o). Qed.

Lemma prefix_strict_snoc {A} (q pre : list A) c :
  q `prefix_of` pre ++ [c] → q ≠ pre ++ [c] → q `prefix_of` pre.
Proof.
  intros [t Ht] Hne. destruct t as [|x t] using rev_ind.
  - rewrite app_nil_r in Ht. by subst.
  - clear IHt. rewrite app_assoc in Ht. apply app_inj_tail in Ht as [-> _].
    by apply prefix_app_r.
Qed.

Lemma entry_prefix_dir q p o :
  q `prefix_of` p → is_dir (resolve p o) = true → entry q o = Some KDir.
Proof.
  intros [t ->] Hd. destruct (decide (t = [])) as [->|Hne].
  - rewrite app_nil_r in Hd. by apply entry_is_dir.
  - apply (entry_parent_dir q t); [done|].
    apply entry_is_present. by destruct (resolve (q ++ t) o).
Qed.

(** [os.remove] and [shutil.rmtree]: nothing is left at the path or below
    it; the rest is as before. *)
Lemma unlink_entry p f o o' :
  (f = remove_edit ∨ f = rmtree_edit) →
  update_at p f o = inr o' →
  ∀ q, entry q o' = if bool_decide (p `prefix_of` q) then None else entry q o.
Proof.
  intros Hf Hup q. case_bool_decide as Hpre.
  - destruct Hpre as [t ->].
    destruct (update_at_under _ _ _ _ Hup) as (res & Hres & Hunder).
    unfold entry. rewrite Hunder.
    assert (res = None) as ->.
    { destruct Hf as [-> | ->]; destruct (resolve p o) as [[]|];
        simpl in Hres; by simplify_eq. }
    by rewrite resolve_None.
  - by eapply update_at_other.
Qed.

Lemma unlink_wf p f o o' :
  (f = remove_edit ∨ f = rmtree_edit) →
  wf_opt o → valid_path p → update_at p f o = inr o' → wf_opt o'.
Proof.
  intros Hf Hwf Hp Hup. eapply update_at_wf; [done..| |done].
  intros x y _ Hxy.
  destruct Hf as [-> | ->]; destruct x as [[]|]; simpl in Hxy; by simplify_eq.
Qed.

(** The write at the end of [shutil.copy2] and of the cache flush. *)
Lemma write_entry p c m o o' :
  update_at p (write_edit c m) o = inr o' →
  ∀ q, entry q o' =
       if bool_decide (q = p) then Some (KFile c m)
       else if bool_decide (p `prefix_of` q) then None
       else entry q o.
Proof.
  intros Hup q.
  destruct (update_at_under _ _ _ _ Hup) as (res & Hres & Hunder).
  assert (res = Some (File c m)) as ->.
  { destruct (resolve p o) as [[]|]; simpl in Hres; by simplify_eq. }
  case_bool_decide as Heq.
  - subst q. unfold entry. rewrite <- (app_nil_r p), Hunder. done.
  - case_bool_decide as Hpre.
    + destruct Hpre as [t ->]. unfold entry. rewrite Hunder.
      rewrite resolve_File; [done|]. intros ->. by rewrite app_nil_r in Heq.
    + by eapply update_at_other.
Qed.

Lemma write_wf p c m o o' :
  wf_opt o → valid_path p →
  update_at p (write_edit c m) o = inr o' → wf_opt o'.
Proof.
  intros Hwf Hp Hup. eapply update_at_wf; [done..| |done].
  intros x y _ Hxy. destruct x as [[]|]; simpl in Hxy; by simplify_eq.
Qed.

Lemma write_ok pre name c m o :
  is_dir (resolve pre o) = true →
  is_dir (resolve (pre ++ [name]) o) = false →
  ∃ o', update_at (pre ++ [name]) (write_edit c m) o = inr o'.
Proof.
  intros Hd Hnd. eapply update_at_ok; [done|].
  destruct (resolve (pre ++ [name]) o) as [[]|]; done.
Qed.

(** [os.mkdir] *)
Lemma mkdir_entry fresh p o o' :
  update_at p (mkdir_edit fresh) o = inr o' →
  entry p o = None
  ∧ ∀ q, entry q o' =
         if bool_decide (q = p) then Some KDir
         else if bool_decide (p `prefix_of` q) then None
         else entry q o.
Proof.
  intros Hup.
  destruct (update_at_under _ _ _ _ Hup) as (res & Hres & Hunder).
  assert (resolve p o = None ∧ res = Some (Dir fresh [])) as [Hnone ->].
  { destruct (resolve p o) as [[]|]; simpl in Hres; by simplify_eq. }
  split; [by apply entry_None_resolve|]. intros q.
  case_bool_decide as Heq.
  - subst q. unfold entry. rewrite <- (app_nil_r p), Hunder. done.
  - case_bool_decide as Hpre.
    + destruct Hpre as [t ->]. unfold entry. rewrite Hunder.
      destruct t as [|x t]; [by rewrite app_nil_r in Heq|].
      simpl. by rewrite resolve_None.
    + by eapply update_at_other.
Qed.

Lemma mkdir_wf fresh p o o' :
  wf_opt o → valid_path p →
  update_at p (mkdir_edit fresh) o = inr o' → wf_opt o'.
Proof.
  intros Hwf Hp Hup. eapply update_at_wf; [done..| |done].
  intros x y _ Hxy. destruct x as [[]|]; simpl in Hxy; by simplify_eq.
Qed.

(** [os.makedirs] of a missing path whose existing ancestors are
    directories under an existing root. *)
Lemma makedirs_from_spec fresh rest : ∀ pre o,
  wf_opt o → valid_path (pre ++ rest) →
  is_dir o = true →
  (∀ q, q `prefix_of` pre ++ rest → entry q o = None ∨ entry q o = Some KDir) →
  entry (pre ++ rest) o = None →
  (∀ pre' c, pre = pre' ++ [c] → is_dir (resolve pre' o) = true) →
  ∃ o', makedirs_from fresh pre rest o = inr o'
    ∧ wf_opt o' ∧ is_dir o' = true
    ∧ ∀ q, entry q o' =
           if bool_decide (q `prefix_of` pre ++ rest) then Some KDir
           else entry q o.
Proof.
  assert (Hstep : ∀ pre o,
    wf_opt o → valid_path pre → is_dir o = true →
    entry pre o = None →
    (∀ pre' c, pre = pre' ++ [c] → is_dir (resolve pre' o) = true) →
    ∃ o', update_at pre (mkdir_edit fresh) o = inr o'
      ∧ wf_opt o' ∧ is_dir o' = true
      ∧ ∀ q, entry q o' =
             if bool_decide (q `prefix_of` pre) then Some KDir
             else entry q o).
  { intros pre o Hwf Hval Hroot Hnone Hparent.
    destruct (decide (pre = [])) as [->|Hne].
    { apply entry_nil_dir in Hroot. congruence. }
    destruct (exists_last Hne) as (pre' & c & ->).
    specialize (Hparent pre' c eq_refl).
    destruct (update_at_ok pre' c (mkdir_edit fresh) o (Some (Dir fresh [])))
      as [o' Hup]; [done| |].
    { apply entry_None_resolve in Hnone. by rewrite Hnone. }
    exists o'. split; [done|].
    destruct (mkdir_entry _ _ _ _ Hup) as [_ Hent].
    split; [by eapply mkdir_wf|]. split.
    { apply entry_nil_dir. rewrite Hent.
      rewrite bool_decide_eq_false_2 by by destruct pre'.
      rewrite bool_decide_eq_false_2.
      - by apply entry_nil_dir.
      - intros ?%prefix_nil_inv. by destruct pre'. }
    intros q. rewrite Hent. case_bool_decide as Heq.
    { subst. by rewrite bool_decide_eq_true_2. }
    case_bool_decide as Hpre; case_bool_decide as Hpre'.
    - exfalso. apply Heq. by apply (anti_symm prefix).
    - destruct Hpre as [t ->]. symmetry. by apply entry_app_None.
    - apply (entry_prefix_dir q pre'); [|done].
      by apply prefix_strict_snoc in Hpre'.
    - done. }
  induction rest as [|c rest IH]; intros pre o Hwf Hval Hroot Hchain Hnone Hparent.
  - rewrite app_nil_r in *. simpl. by apply Hstep.
  - simpl. replace (pre ++ c :: rest) with ((pre ++ [c]) ++ rest) in *
      by by rewrite <- app_assoc.
    assert (valid_path pre) as Hvalpre.
    { by apply Forall_app in Hval as [[? _]%Forall_app _]. }
    destruct (is_present (resolve pre o)) eqn:Hpres.
    + apply IH; try done.
      intros pre' c' [-> ->]%app_inj_tail.
      apply entry_is_dir.
      destruct (Hchain pre') as [Hn|Hd]; [|by apply entry_None_resolve in Hn; rewrite Hn in Hpres|done].
      rewrite <- app_assoc. by apply prefix_app_r.
    + assert (entry pre o = None) as Hpnone.
      { apply entry_None_resolve. by destruct (resolve pre o). }
      destruct (Hstep pre o) as (o1 & -> & Hwf1 & Hroot1 & Hent1); try done.
      destruct (IH (pre ++ [c]) o1) as (o' & -> & Hwf' & Hroot' & Hent');
        try done.
      * intros q Hq. rewrite Hent1. case_bool_decide; [by right|].
        by apply Hchain.
      * rewrite Hent1. rewrite bool_decide_eq_false_2; [done|].
        intros Hp%prefix_length. rewrite !length_app in Hp. simpl in Hp. lia.
      * intros pre' c' [-> ->]%app_inj_tail. apply entry_is_dir.
        rewrite Hent1. by rewrite bool_decide_eq_true_2.
      * eexists. split; [done|]. split; [done|]. split; [done|].
        intros q. rewrite Hent'. case_bool_decide as Hq; [done|].
        rewrite Hent1. rewrite bool_decide_eq_false_2; [done|].
        intros Hp. apply Hq. rewrite <- app_assoc. by apply prefix_app_r.
Qed.

Lemma os_makedirs_spec fresh p o :
  wf_opt o → valid_path p → is_dir o = true →
  (∀ q, q `prefix_of` p → entry q o = None ∨ entry q o = Some KDir) →
  entry p o = None →
  ∃ o', os_makedirs fresh p o = inr o'
    ∧ wf_opt o' ∧ is_dir o' = true
    ∧ ∀ q, entry q o' =
           if bool_decide (q `prefix_of` p) then Some KDir else entry q o.
Proof.
  intros. apply (makedirs_from_spec fresh p []); try done.
  intros pre' c Hnil. by destruct pre'.
Qed.

(** * What the scanner collects *)

Section Scanner.
Context (cfg : config).

Lemma elem_of_foldr_snap_union_1 p here (l : list (gset string * gset string)) :
  p ∈ (foldr snap_union here l).1 ↔ p ∈ here.1 ∨ ∃ x, x ∈ l ∧ p ∈ x.1.
Proof.
  induction l as [|x l IH]; simpl.
  - split; [by left|]. intros [?|(x & Hx & _)]; [done|].
    by apply elem_of_nil in Hx.
  - rewrite elem_of_union, IH. split.
    + intros [?|[?|(y & ? & ?)]]; [right; exists x|by left|right; exists y].
      * split; [by left|done].
      * split; [by right|done].
    + intros [?|(y & [->|?]%elem_of_cons & ?)]; [right; by left|by left|].
      right. right. by exists y.
Qed.

Lemma elem_of_foldr_snap_union_2 p here (l : list (gset string * gset string)) :
  p ∈ (foldr snap_union here l).2 ↔ p ∈ here.2 ∨ ∃ x, x ∈ l ∧ p ∈ x.2.
Proof.
  induction l as [|x l IH]; simpl.
  - split; [by left|]. intros [?|(x & Hx & _)]; [done|].
    by apply elem_of_nil in Hx.
  - rewrite elem_of_union, IH. split.
    + intros [?|[?|(y & ? & ?)]]; [right; exists x|by left|right; exists y].
      * split; [by left|done].
      * split; [by right|done].
    + intros [?|(y & [->|?]%elem_of_cons & ?)]; [right; by left|by left|].
      right. right. by exists y.
Qed.

Lemma visible_from_nil cs : visible_from cfg cs [].
Proof. intros q' ->%prefix_nil_inv. done. Qed.

Lemma visible_from_cons cs name q :
  visible_from cfg cs (name :: q) ↔
  should_ignore (ignore_patterns cfg) (render (cs ++ [name])) = false
  ∧ visible_from cfg (cs ++ [name]) q.
Proof.
  split.
  - intros H. split.
    + apply (H [name]); [|done]. by apply prefix_cons, prefix_nil.
    + intros q' Hq' _. rewrite <- app_assoc. apply (H (name :: q')); [|done].
      by apply prefix_cons.
  - intros [H1 H2] q' Hq' Hne. destruct q' as [|c q']; [done|].
    pose proof (prefix_cons_inv_1 _ _ _ _ Hq') as ->.
    apply prefix_cons_inv_2 in Hq'.
    destruct (decide (q' = [])) as [->|Hne']; [done|].
    specialize (H2 q' Hq' Hne'). by rewrite <- app_assoc in H2.
Qed.

Lemma walk_spec n : ∀ cs,
  valid_path cs → wf_node n = true →
  ∀ p, (p ∈ (walk cfg (relpath_of cs) n).1 ↔ collects_files cfg cs n p)
     ∧ (p ∈ (walk cfg (relpath_of cs) n).2 ↔ collects_dirs cfg cs n p).
Proof.
  induction n as [c m|st es IH] using node_ind; intros cs Hcs Hwf p.
  - simpl. split; (split; [by intros ?%elem_of_empty|]).
    + intros (q & Hq & _ & Hf & _). by rewrite resolve_File in Hf.
    + intros (q & _ & _ & Hd & _). destruct q; [done|].
      by rewrite resolve_File in Hd.
  - apply wf_node_Dir in Hwf as (Hnd & Hnames & Hkids).
    assert (Hrel : (if bool_decide (relpath_of cs = ".") then ""
                    else relpath_of cs) = render cs).
    { unfold relpath_of. destruct (decide (cs = [])) as [->|Hne]; [done|].
      rewrite bool_decide_eq_false_2; [done|]. by apply render_not_dot. }
    cbn [walk]. rewrite Hrel.
    (* each entry *)
    assert (Hentry : ∀ name child, (name, child) ∈ es →
      should_ignore (ignore_patterns cfg) (render (cs ++ [name])) = false →
      (p ∈ (visit_entry cfg (walk cfg) (render cs) name child).1 ↔
        ∃ q', p = render (cs ++ name :: q')
              ∧ is_file (resolve q' (Some child)) = true
              ∧ visible_from cfg (cs ++ [name]) q')
      ∧ (p ∈ (visit_entry cfg (walk cfg) (render cs) name child).2 ↔
        ∃ q', p = render (cs ++ name :: q')
              ∧ is_dir (resolve q' (Some child)) = true
              ∧ visible_from cfg (cs ++ [name]) q')).
    { intros name child Hel Hvis.
      assert (valid_name name = true) as Hname.
      { unfold valid_path in Hnames. rewrite Forall_forall in Hnames.
        apply Hnames. apply list_elem_of_fmap. by exists (name, child). }
      assert (valid_path (cs ++ [name])) as Hcs'.
      { apply Forall_app. split; [done|]. by constructor. }
      assert (os_path_join (render cs) name = render (cs ++ [name])) as Hjoin
        by by apply os_path_join_render.
      destruct child as [c m|st' es'].
      - cbn [visit_entry]. rewrite Hjoin, replace_backslash_render by done.
        rewrite Hvis. simpl. split.
        + rewrite elem_of_singleton. split.
          * intros ->. exists []. split; [done|]. split; [done|].
            apply visible_from_nil.
          * intros (q' & -> & Hf & _). destruct q'; [done|].
            by rewrite resolve_File in Hf.
        + split; [by intros ?%elem_of_empty|].
          intros (q' & _ & Hd & _). destruct q'; [done|].
          by rewrite resolve_File in Hd.
      - cbn [visit_entry]. rewrite Hjoin, Hvis.
        rewrite Forall_forall in IH, Hkids.
        specialize (IH _ Hel (cs ++ [name]) Hcs' (Hkids _ Hel) p).
        unfold relpath_of in IH. rewrite decide_False in IH by by destruct cs.
        destruct IH as [IHf IHd]. simpl in IHf, IHd. split.
        + rewrite IHf. split.
          * intros (q & _ & -> & Hf & Hv). exists q.
            by rewrite <- app_assoc.
          * intros (q' & -> & Hf & Hv). exists q'.
            split; [by destruct q'|]. by rewrite <- app_assoc.
        + rewrite IHd. split.
          * intros (q & _ & -> & Hf & Hv). exists q.
            by rewrite <- app_assoc.
          * intros (q' & -> & Hf & Hv). exists q'.
            split; [by destruct cs|]. by rewrite <- app_assoc. }
    assert (Hign : ∀ name child,
      should_ignore (ignore_patterns cfg) (render (cs ++ [name])) = true →
      valid_name name = true →
      visit_entry cfg (walk cfg) (render cs) name child = (∅, ∅)).
    { intros name child Hig Hname.
      assert (os_path_join (render cs) name = render (cs ++ [name])) as Hjoin
        by by apply os_path_join_render.
      assert (valid_path (cs ++ [name])) as Hcs'.
      { apply Forall_app. split; [done|]. by constructor. }
      destruct child; cbn [visit_entry];
        rewrite Hjoin, ?replace_backslash_render by done; by rewrite Hig. }
    assert (Hvalid_in : ∀ name child, (name, child) ∈ es → valid_name name = true).
    { intros name child Hel. unfold valid_path in Hnames.
      rewrite Forall_forall in Hnames.
      apply Hnames. apply list_elem_of_fmap. by exists (name, child). }
    split.
    + rewrite elem_of_foldr_snap_union_1. split.
      * intros [Hhere|(x & Hx & Hp)].
        { by case_bool_decide; apply elem_of_empty in Hhere. }
        apply list_elem_of_fmap in Hx as ([name child] & -> & Hel).
        simpl in Hp.
        destruct (should_ignore (ignore_patterns cfg) (render (cs ++ [name])))
          eqn:Hig.
        { rewrite Hign in Hp by eauto. by apply elem_of_empty in Hp. }
        apply (Hentry _ _ Hel Hig) in Hp as (q' & -> & Hf & Hv).
        exists (name :: q'). split; [done|]. split; [done|].
        split; [|by apply visible_from_cons].
        simpl. by rewrite (elem_alookup_NoDup _ _ _ Hnd Hel).
      * intros (q & Hq & -> & Hf & Hv). right.
        destruct q as [|name q']; [done|].
        simpl in Hf.
        destruct (alookup name es) as [child|] eqn:Hl;
          [|by rewrite resolve_None in Hf].
        apply alookup_Some_elem in Hl.
        apply visible_from_cons in Hv as [Hig Hv].
        exists (visit_entry cfg (walk cfg) (render cs) name child).
        split.
        { apply list_elem_of_fmap. by exists (name, child). }
        apply (Hentry _ _ Hl Hig). by exists q'.
    + rewrite elem_of_foldr_snap_union_2. split.
      * intros [Hhere|(x & Hx & Hp)].
        { case_bool_decide as Hnil; [by apply elem_of_empty in Hhere|].
          simpl in Hhere. rewrite replace_backslash_render in Hhere by done.
          apply elem_of_singleton in Hhere as ->.
          exists []. rewrite app_nil_r. split.
          { intros ->. done. }
          split; [done|]. split; [done|]. apply visible_from_nil. }
        apply list_elem_of_fmap in Hx as ([name child] & -> & Hel).
        simpl in Hp.
        destruct (should_ignore (ignore_patterns cfg) (render (cs ++ [name])))
          eqn:Hig.
        { rewrite Hign in Hp by eauto. by apply elem_of_empty in Hp. }
        apply (Hentry _ _ Hel Hig) in Hp as (q' & -> & Hf & Hv).
        exists (name :: q'). split; [by destruct cs|]. split; [done|].
        split; [|by apply visible_from_cons].
        simpl. by rewrite (elem_alookup_NoDup _ _ _ Hnd Hel).
      * intros (q & Hq & -> & Hd & Hv).
        destruct q as [|name q'].
        { left. rewrite app_nil_r in *.
          rewrite bool_decide_eq_false_2 by by apply render_nonempty.
          simpl. rewrite replace_backslash_render by done.
          by apply elem_of_singleton. }
        right. simpl in Hd.
        destruct (alookup name es) as [child|] eqn:Hl;
          [|by rewrite resolve_None in Hd].
        apply alookup_Some_elem in Hl.
        apply visible_from_cons in Hv as [Hig Hv].
        exists (visit_entry cfg (walk cfg) (render cs) name child).
        split.
        { apply list_elem_of_fmap. by exists (name, child). }
        apply (Hentry _ _ Hl Hig). by exists q'.
Qed.

Lemma visible_from_root q : visible_from cfg [] q ↔ visible cfg q.
Proof. done. Qed.

Lemma scan_tree_files o p :
  wf_root o = true →
  p ∈ (scan_tree cfg o).1 ↔
  ∃ q, q ≠ [] ∧ valid_path q ∧ p = render q
       ∧ is_file (resolve q o) = true ∧ visible cfg q.
Proof.
  intros Hwf. destruct o as [[c m|st es]|]; try done.
  pose proof (proj1 (wf_root_spec _) Hwf) as [_ Hwfo].
  destruct (walk_spec (Dir st es) [] (Forall_nil_2 _) Hwf p) as [Hf _].
  unfold scan_tree. change "." with (relpath_of []). rewrite Hf. split.
  - intros (q & Hq & -> & Hfile & Hv). exists q. repeat split; try done.
    apply (wf_present_valid q (Some (Dir st es))); [done|].
    by destruct (resolve q (Some (Dir st es))).
  - intros (q & Hq & _ & -> & Hfile & Hv). by exists q.
Qed.

Lemma scan_tree_dirs o p :
  wf_root o = true →
  p ∈ (scan_tree cfg o).2 ↔
  ∃ q, q ≠ [] ∧ valid_path q ∧ p = render q
       ∧ is_dir (resolve q o) = true ∧ visible cfg q.
Proof.
  intros Hwf. destruct o as [[c m|st es]|]; try done.
  pose proof (proj1 (wf_root_spec _) Hwf) as [_ Hwfo].
  destruct (walk_spec (Dir st es) [] (Forall_nil_2 _) Hwf p) as [_ Hd].
  unfold scan_tree. change "." with (relpath_of []). rewrite Hd. split.
  - intros (q & Hq & -> & Hdir & Hv). exists q. repeat split; try done.
    apply (wf_present_valid q (Some (Dir st es))); [done|].
    by destruct (resolve q (Some (Dir st es))) as [[]|].
  - intros (q & Hq & _ & -> & Hdir & Hv). by exists q.
Qed.

(** A relative path is in a snapshot exactly when it is visible and names
    something. *)
Lemma scan_tree_all o q :
  wf_root o = true → valid_path q → q ≠ [] →
  render q ∈ (scan_tree cfg o).1 ∪ (scan_tree cfg o).2 ↔
  entry q o ≠ None ∧ visible cfg q.
Proof.
  intros Hwf Hq Hne. rewrite elem_of_union, scan_tree_files, scan_tree_dirs
    by done.
  split.
  - intros [(q' & _ & Hq' & Heq & Hk & Hv)|(q' & _ & Hq' & Heq & Hk & Hv)];
      apply render_inj in Heq; try done; subst q'; (split; [|done]);
      apply entry_is_present; by destruct (resolve q o).
  - intros [Hp Hv]. apply entry_is_present in Hp.
    destruct (resolve q o) as [[c m|st es]|] eqn:Hr; [| |done].
    + left. exists q. by rewrite Hr.
    + right. exists q. by rewrite Hr.
Qed.

End Scanner.

(** * The arithmetic of [st_mtime]

    [SpecFloat] defines the operations; what follows gives them their
    meaning on the floats that modification times produce: each operation
    returns the exact result rounded to 53 bits, at most half a unit of
    the last place away. *)

Section Rounding.
Local Open Scope Z_scope.

Lemma digits2_pos_log2 p : Zpos (digits2_pos p) = Z.log2 (Zpos p) + 1.
Proof.
  induction p as [p IH|p IH|]; simpl.
  - rewrite Pos2Z.inj_succ, IH. destruct p; simpl; lia.
  - rewrite Pos2Z.inj_succ, IH. destruct p; simpl; lia.
  - reflexivity.
Qed.

(** [d] is the number of binary digits of [m]. *)
Lemma digits_bounds p :
  2 ^ (Zpos (digits2_pos p) - 1) <= Zpos p < 2 ^ Zpos (digits2_pos p).
Proof.
  rewrite digits2_pos_log2.
  replace (Z.log2 (Z.pos p) + 1 - 1) with (Z.log2 (Z.pos p)) by lia.
  pose proof (Z.log2_spec (Zpos p) eq_refl) as H.
  replace (Z.succ (Z.log2 (Z.pos p))) with (Z.log2 (Z.pos p) + 1) in H by lia.
  exact H.
Qed.

Lemma digits_unique p d :
  2 ^ (d - 1) <= Zpos p < 2 ^ d → Zpos (digits2_pos p) = d.
Proof.
  intros H. rewrite digits2_pos_log2.
  assert (0 <= d - 1).
  { destruct (Z_lt_le_dec (d - 1) 0) as [Hn|]; [|done].
    assert (d <= 0) by lia.
    assert (2 ^ d <= 1).
    { destruct (Z.eq_dec d 0) as [->|]; [simpl; lia|].
      rewrite Z.pow_neg_r; lia. }
    lia. }
  assert (Z.log2 (Zpos p) = d - 1); [|lia].
  apply Z.log2_unique; [done|].
  replace (Z.succ (d - 1)) with d by lia. done.
Qed.

Lemma iter_pos_iter {A} (f : A → A) p x : SpecFloat.iter_pos f p x = Pos.iter f x p.
Proof.
  revert x. induction p as [p IH|p IH|]; intros x; simpl.
  - by rewrite !IH, Pos.iter_swap, Pos.iter_swap.
  - by rewrite !IH.
  - reflexivity.
Qed.

Lemma shr_1_spec m r s :
  0 <= m →
  shr_1 (Build_shr_record m r s) = Build_shr_record (m / 2) (Z.odd m) (r || s).
Proof.
  intros Hm. rewrite <- Z.div2_div.
  destruct m as [|[p|p|]|p]; try reflexivity. lia.
Qed.

(** Shifting [n] bits out: the quotient, the last bit shifted out and
    whether a bit before it was set. *)
Lemma shr_iter_spec m p :
  0 <= m →
  Pos.iter shr_1 (Build_shr_record m false false) p
  = Build_shr_record (m / 2 ^ Zpos p) (Z.odd (m / 2 ^ (Zpos p - 1)))
      (negb (m mod 2 ^ (Zpos p - 1) =? 0)).
Proof.
  intros Hm. induction p as [|p IH] using Pos.peano_ind.
  - replace (Pos.iter shr_1 (Build_shr_record m false false) 1)
      with (shr_1 (Build_shr_record m false false)) by reflexivity.
    rewrite shr_1_spec by done.
    change (2 ^ (1 - 1)) with 1. rewrite Z.div_1_r, Z.mod_1_r. reflexivity.
  - rewrite Pos.iter_succ, IH.
    rewrite shr_1_spec by (apply Z.div_pos; lia).
    rewrite Pos2Z.inj_succ.
    replace (Z.succ (Z.pos p) - 1) with (Zpos p) by lia.
    replace (Z.succ (Zpos p)) with (Zpos p + 1) by lia.
    rewrite Z.pow_add_r by lia. change (2 ^ 1) with 2.
    rewrite Z.div_div by lia. f_equal.
    (* the sticky bit *)
    set (k := Zpos p - 1). assert (0 <= k) by lia.
    replace (Zpos p) with (k + 1) by lia.
    rewrite Z.pow_add_r by lia. change (2 ^ 1) with 2.
    assert (0 < 2 ^ k) by (apply Z.pow_pos_nonneg; lia).
    rewrite (Z.rem_mul_r m (2 ^ k) 2) by lia.
    pose proof (Z.mod_pos_bound m (2 ^ k)).
    pose proof (Z.mod_pos_bound (m / 2 ^ k) 2).
    rewrite (Zodd_mod (m / 2 ^ k)).
    destruct (Z.eqb_spec ((m / 2 ^ k) mod 2) 1) as [E|E];
      destruct (Z.eqb_spec (m mod 2 ^ k) 0) as [E2|E2]; simpl;
      symmetry.
    + apply negb_true_iff, Z.eqb_neq. lia.
    + apply negb_true_iff, Z.eqb_neq. nia.
    + apply negb_false_iff, Z.eqb_eq. lia.
    + apply negb_true_iff, Z.eqb_neq. nia.
Qed.

Lemma rne_bound m n :
  0 <= m → 1 <= n →
  let q := m / 2 ^ n in
  let m1 := round_nearest_even q
              (loc_of_shr_record
                 (Build_shr_record q (Z.odd (m / 2 ^ (n - 1)))
                    (negb (m mod 2 ^ (n - 1) =? 0)))) in
  q <= m1 <= q + 1 ∧ 2 * Z.abs (m1 * 2 ^ n - m) <= 2 ^ n.
Proof.
  intros Hm Hn q m1.
  set (k := n - 1) in *. assert (0 <= k) by lia.
  assert (0 < 2 ^ k) as Hk by (apply Z.pow_pos_nonneg; lia).
  assert (2 ^ n = 2 ^ k * 2) as Hpow.
  { replace n with (k + 1) by lia. by rewrite Z.pow_add_r by lia. }
  pose proof (Z.div_mod m (2 ^ k) ltac:(lia)) as Hdm.
  pose proof (Z.mod_pos_bound m (2 ^ k) Hk) as Hr.
  set (h := m / 2 ^ k) in *. set (lo := m mod 2 ^ k) in *.
  assert (q = h / 2) as Hq.
  { unfold q, h. rewrite Hpow. by rewrite Z.div_div by lia. }
  pose proof (Z.div_mod h 2 ltac:(lia)) as Hh.
  pose proof (Z.mod_pos_bound h 2 ltac:(lia)) as Hb.
  rewrite <- Hq in Hh.
  assert (Z.odd h = (h mod 2 =? 1)) as Hodd by apply Zodd_mod.
  unfold m1. rewrite Hodd, Hpow. clear m1.
  set (P := 2 ^ k) in *.
  assert (m = P * (2 * q + h mod 2) + lo) as Hm' by (rewrite <- Hh; exact Hdm).
  set (b := h mod 2) in *. clearbody b lo P q. clear Hdm Hh Hodd Hq.
  subst m.
  assert (∀ x, 2 * x * P = 2 * (x * P)) as Hx by (intros; ring).
  destruct (Z.eqb_spec b 1) as [E|E];
    destruct (Z.eqb_spec lo 0) as [E2|E2];
    cbn [loc_of_shr_record round_nearest_even negb].
  - subst b lo. destruct (Z.even q).
    + split; [lia|].
      replace (q * (P * 2) - (P * (2 * q + 1) + 0)) with (- P) by ring.
      rewrite Z.abs_neq by lia. lia.
    + split; [lia|].
      replace ((q + 1) * (P * 2) - (P * (2 * q + 1) + 0)) with P by ring.
      rewrite Z.abs_eq by lia. lia.
  - subst b. split; [lia|].
    replace ((q + 1) * (P * 2) - (P * (2 * q + 1) + lo)) with (P - lo) by ring.
    rewrite Z.abs_eq by lia. lia.
  - assert (b = 0) as -> by lia. subst lo. split; [lia|].
    replace (q * (P * 2) - (P * (2 * q + 0) + 0)) with 0 by ring.
    rewrite Z.abs_0. lia.
  - assert (b = 0) as -> by lia. split; [lia|].
    replace (q * (P * 2) - (P * (2 * q + 0) + lo)) with (- lo) by ring.
    rewrite Z.abs_neq by lia. lia.
Qed.

Lemma fexp_normal x : -1074 <= x - 53 → fexp 53 1024 x = x - 53.
Proof. intros H. unfold fexp, emin. lia. Qed.

Lemma pow52_digits p : Zpos p = 2 ^ 53 → Zpos (digits2_pos p) = 54.
Proof. intros H. apply digits_unique. rewrite H. simpl. lia. Qed.

(** Rounding a mantissa of at least 53 bits in the normal range: the
    result has 53 bits and lies half a unit of its last place away, at
    most. *)
Lemma binary_round_aux_spec sx m e :
  let d := Zpos (digits2_pos m) in
  53 <= d → -1074 <= d + e - 53 → d + e <= 1023 →
  ∃ m' e',
    binary_round_aux 53 1024 sx (Zpos m) e loc_Exact = S754_finite sx m' e'
    ∧ 2 ^ 52 <= Zpos m' < 2 ^ 53
    ∧ d + e - 53 <= e' <= d + e - 52
    ∧ 2 * Z.abs (Zpos m' * 2 ^ (e' - e) - Zpos m) <= 2 ^ (d - 53).
Proof.
  intros d Hd Hlo Hhi.
  pose proof (digits_bounds m) as Hm. fold d in Hm.
  unfold binary_round_aux, shr_fexp.
  change (Zdigits2 (Zpos m)) with d.
  rewrite fexp_normal by lia.
  replace (d + e - 53 - e) with (d - 53) by lia.
  destruct (d - 53) as [|p|p] eqn:Hn; [| |lia].
  - (* 53 bits already *)
    assert (d = 53) as Hd53 by lia.
    cbn [shr shr_record_of_loc shr_m loc_of_shr_record round_nearest_even].
    change (Zdigits2 (Zpos m)) with d.
    rewrite fexp_normal by lia.
    replace (d + e - 53 - e) with 0 by lia.
    cbn [shr shr_record_of_loc shr_m].
    rewrite (proj2 (Z.leb_le e (1024 - 53))) by lia.
    exists m, e. split; [done|]. rewrite Hd53 in Hm.
    split; [simpl in *; lia|]. split; [lia|].
    rewrite Z.sub_diag, Z.mul_1_r, Z.sub_diag. simpl. lia.
  - (* bits to shift out *)
    cbn [shr shr_record_of_loc].
    rewrite iter_pos_iter, shr_iter_spec by lia.
    pose proof (rne_bound (Zpos m) (Zpos p) ltac:(lia) ltac:(lia)) as [Hq Herr].
    set (q := Zpos m / 2 ^ Zpos p) in *.
    set (m1 := round_nearest_even q _) in *.
    cbn [shr_m]. fold m1.
    assert (2 ^ 52 <= q < 2 ^ 53) as Hqb.
    { assert (0 < 2 ^ Zpos p) by (apply Z.pow_pos_nonneg; lia).
      assert (2 ^ (d - 1) = 2 ^ 52 * 2 ^ Zpos p) as E1.
      { rewrite <- Z.pow_add_r by lia. f_equal. lia. }
      assert (2 ^ d = 2 ^ 53 * 2 ^ Zpos p) as E2.
      { rewrite <- Z.pow_add_r by lia. f_equal. lia. }
      rewrite E1, E2 in Hm. unfold q. split.
      - apply Z.div_le_lower_bound; lia.
      - apply Z.div_lt_upper_bound; lia. }
    destruct m1 as [|m1p|m1p] eqn:Hm1; [lia| |lia].
    destruct (Z.eq_dec (Zpos m1p) (2 ^ 53)) as [Hcarry|Hnc].
    + (* the mantissa is 2^53 after rounding: one more bit goes *)
      assert (m1p = 9007199254740992%positive) as ->.
      { apply Pos2Z.inj. rewrite Hcarry. reflexivity. }
      change (Zdigits2 (Zpos 9007199254740992)) with 54.
      rewrite fexp_normal by lia.
      replace (54 + (e + Zpos p) - 53 - (e + Zpos p)) with 1 by lia.
      cbn [shr shr_record_of_loc SpecFloat.iter_pos shr_1 shr_m].
      rewrite (proj2 (Z.leb_le (e + Zpos p + 1) (1024 - 53))) by lia.
      exists 4503599627370496%positive, (e + Zpos p + 1).
      split; [done|]. split; [done|]. split; [lia|].
      replace (e + Zpos p + 1 - e) with (Zpos p + 1) by lia.
      rewrite Z.pow_add_r by lia. change (2 ^ 1) with 2.
      replace (d - 53) with (Zpos p) by lia.
      assert (Zpos 4503599627370496 * (2 ^ Zpos p * 2)
              = Zpos 9007199254740992 * 2 ^ Zpos p) as -> by lia.
      exact Herr.
    + change (Zdigits2 (Zpos m1p)) with (Zpos (digits2_pos m1p)).
      rewrite (digits_unique m1p 53) by lia.
      rewrite fexp_normal by lia.
      replace (53 + (e + Zpos p) - 53 - (e + Zpos p)) with 0 by lia.
      cbn [shr shr_record_of_loc shr_m].
      rewrite (proj2 (Z.leb_le (e + Zpos p) (1024 - 53))) by lia.
      exists m1p, (e + Zpos p). split; [done|].
      split; [lia|]. split; [lia|].
      replace (e + Zpos p - e) with (Zpos p) by lia.
      replace (d - 53) with (Zpos p) by lia. exact Herr.
Qed.

Lemma pos_iter_xO m p : Zpos (Pos.iter xO m p) = Zpos m * 2 ^ Zpos p.
Proof.
  induction p as [|p IH] using Pos.peano_ind.
  - simpl. lia.
  - rewrite Pos.iter_succ, Pos2Z.inj_xO, IH, Pos2Z.inj_succ.
    rewrite Z.pow_succ_r by lia. ring.
Qed.

Lemma abs_scale a b c : 0 <= c → Z.abs (a * c - b * c) = Z.abs (a - b) * c.
Proof.
  intros Hc. rewrite <- Z.mul_sub_distr_r, Z.abs_mul. f_equal.
  by apply Z.abs_eq.
Qed.

(** Rounding [m * 2^e], read at the scale of [sval]: the result has a
    mantissa of 53 bits, lies within half a unit of the last place, and is
    exact when [m] has no more than 53 bits. *)
Lemma binary_round_sval sx m e :
  let d := Zpos (digits2_pos m) in
  - scale <= e → - scale <= d + e - 53 → d + e <= 1023 →
  ∃ m' e',
    binary_round 53 1024 sx m e = S754_finite sx m' e'
    ∧ 2 ^ 52 <= Zpos m' < 2 ^ 53
    ∧ d + e - 53 <= e' <= d + e - 52
    ∧ 2 * Z.abs (Zpos m' * 2 ^ (e' + scale) - Zpos m * 2 ^ (e + scale))
      <= 2 ^ (d + e - 53 + scale)
    ∧ (d <= 53 → Zpos m' * 2 ^ (e' + scale) = Zpos m * 2 ^ (e + scale)).
Proof.
  intros d He Hlo Hhi. subst d. unfold scale in *.
  pose proof (digits_bounds m) as Hm.
  pose proof (binary_round_aux_spec sx m e) as Haux. cbv zeta in Haux.
  unfold binary_round. rewrite fexp_normal by lia.
  unfold shl_align.
  assert (1 <= Zpos (digits2_pos m)) as Hd1 by lia.
  set (d := Zpos (digits2_pos m)) in *. clearbody d.
  assert (0 <= 2 ^ (e + 200)) as Hpe by (apply Z.pow_nonneg; lia).
  assert (∀ m' e', e <= e' →
            2 * Z.abs (Zpos m' * 2 ^ (e' - e) - Zpos m) <= 2 ^ (d - 53) →
            53 <= d →
            2 * Z.abs (Zpos m' * 2 ^ (e' + 200) - Zpos m * 2 ^ (e + 200))
            <= 2 ^ (d + e - 53 + 200)
            ∧ (d <= 53 → Zpos m' * 2 ^ (e' + 200) = Zpos m * 2 ^ (e + 200)))
    as Hscale.
  { intros m' e' He' Herr Hd.
    replace (e' + 200) with ((e' - e) + (e + 200)) by lia.
    rewrite (Z.pow_add_r 2 (e' - e) (e + 200)) by lia.
    rewrite Z.mul_assoc, abs_scale by done.
    replace (d + e - 53 + 200) with ((d - 53) + (e + 200)) by lia.
    rewrite (Z.pow_add_r 2 (d - 53) (e + 200)) by lia.
    split; [nia|]. intros Hd'. replace (d - 53) with 0 in Herr by lia.
    change (2 ^ 0) with 1 in Herr.
    assert (Zpos m' * 2 ^ (e' - e) = Zpos m) as -> by lia. done. }
  destruct (d + e - 53 - e) as [|p|p] eqn:Hn; cbv beta iota zeta.
  - destruct Haux as (m' & e' & Hrun & Hm' & He' & Herr); try lia.
    exists m', e'. split; [done|]. split; [done|]. split; [done|].
    apply Hscale; [lia|done|lia].
  - destruct Haux as (m' & e' & Hrun & Hm' & He' & Herr); try lia.
    exists m', e'. split; [done|]. split; [done|]. split; [done|].
    apply Hscale; [lia|done|lia].
  - (* fewer than 53 bits: the mantissa is shifted left, nothing is lost *)
    clear Haux Hscale.
    set (mz := Pos.iter xO m p).
    assert (Zpos mz = Zpos m * 2 ^ Zpos p) as Hmz by apply pos_iter_xO.
    assert (Zpos p = 53 - d) as Hp by lia.
    assert (2 ^ 52 <= Zpos mz < 2 ^ 53) as Hmzb.
    { rewrite Hmz.
      assert (2 ^ 52 = 2 ^ (d - 1) * 2 ^ Zpos p) as ->.
      { rewrite <- Z.pow_add_r by lia. f_equal. lia. }
      assert (2 ^ 53 = 2 ^ d * 2 ^ Zpos p) as ->.
      { rewrite <- Z.pow_add_r by lia. f_equal. lia. }
      assert (0 < 2 ^ Zpos p) by (apply Z.pow_pos_nonneg; lia). nia. }
    assert (Zpos (digits2_pos mz) = 53) as Hdz by by apply digits_unique.
    destruct (binary_round_aux_spec sx mz (d + e - 53))
      as (m' & e' & Hrun & Hm' & He' & Herr); rewrite ?Hdz; try lia.
    rewrite Hdz in He', Herr.
    exists m', e'. split; [done|]. split; [done|]. split; [lia|].
    replace (53 - 53) with 0 in Herr by lia. change (2 ^ 0) with 1 in Herr.
    assert (Zpos m' * 2 ^ (e' - (d + e - 53)) = Zpos mz) as Hexact by lia.
    replace (e' + 200) with ((e' - (d + e - 53)) + (d + e - 53 + 200)) by lia.
    rewrite (Z.pow_add_r 2 (e' - (d + e - 53))) by lia.
    rewrite Z.mul_assoc, Hexact, Hmz.
    replace (e + 200) with (Zpos p + (d + e - 53 + 200)) by lia.
    rewrite (Z.pow_add_r 2 (Zpos p)) by lia.
    rewrite Z.mul_assoc, Z.sub_diag. simpl Z.abs.
    assert (0 <= 2 ^ (d + e - 53 + 200)) by (apply Z.pow_nonneg; lia).
    split; [lia|done].
Qed.

(** The same for a mantissa that is not shifted left first, as in a
    product. *)
Lemma binary_round_aux_sval sx m e :
  let d := Zpos (digits2_pos m) in
  53 <= d → - scale <= e → d + e <= 1023 →
  ∃ m' e',
    binary_round_aux 53 1024 sx (Zpos m) e loc_Exact = S754_finite sx m' e'
    ∧ 2 ^ 52 <= Zpos m' < 2 ^ 53
    ∧ d + e - 53 <= e' <= d + e - 52
    ∧ 2 * Z.abs (Zpos m' * 2 ^ (e' + scale) - Zpos m * 2 ^ (e + scale))
      <= 2 ^ (d + e - 53 + scale).
Proof.
  intros d Hd He Hhi. subst d. unfold scale in *.
  destruct (binary_round_aux_spec sx m e)
    as (m' & e' & Hrun & Hm' & He' & Herr); try lia.
  set (d := Zpos (digits2_pos m)) in *. clearbody d.
  exists m', e'. split; [done|]. split; [done|]. split; [done|].
  assert (0 <= 2 ^ (e + 200)) as Hpe by (apply Z.pow_nonneg; lia).
  replace (e' + 200) with ((e' - e) + (e + 200)) by lia.
  rewrite (Z.pow_add_r 2 (e' - e) (e + 200)) by lia.
  rewrite Z.mul_assoc, abs_scale by done.
  replace (d + e - 53 + 200) with ((d - 53) + (e + 200)) by lia.
  rewrite (Z.pow_add_r 2 (d - 53) (e + 200)) by lia. nia.
Qed.

(** The digits of a mantissa from the size of the number. *)
Lemma digits_from_value m e K :
  - scale <= e → Zpos m * 2 ^ (e + scale) < 2 ^ (K + scale) →
  Zpos (digits2_pos m) + e <= K.
Proof.
  unfold scale. intros He Hv. pose proof (digits_bounds m) as [Hlo _].
  set (d := Zpos (digits2_pos m)) in *.
  assert (1 <= d) by (unfold d; lia). clearbody d.
  destruct (Z_le_gt_dec (d + e) K) as [|Hgt]; [done|exfalso].
  assert (2 ^ (K + 200) <= 2 ^ (d - 1 + (e + 200))) as Hle.
  { apply Z.pow_le_mono_r; lia. }
  rewrite (Z.pow_add_r 2 (d - 1) (e + 200)) in Hle by lia.
  assert (0 <= 2 ^ (e + 200)) by (apply Z.pow_nonneg; lia). nia.
Qed.

Lemma digits_from_value_low m e K :
  - scale <= e → 0 <= K + scale → 2 ^ (K + scale) <= Zpos m * 2 ^ (e + scale) →
  K < Zpos (digits2_pos m) + e.
Proof.
  unfold scale. intros He HK Hv. pose proof (digits_bounds m) as [_ Hhi].
  set (d := Zpos (digits2_pos m)) in *.
  assert (1 <= d) by (unfold d; lia). clearbody d.
  destruct (Z_lt_le_dec K (d + e)) as [|Hle]; [done|exfalso].
  assert (2 ^ (d + (e + 200)) <= 2 ^ (K + 200)) as Hle'.
  { apply Z.pow_le_mono_r; lia. }
  rewrite (Z.pow_add_r 2 d (e + 200)) in Hle' by lia.
  assert (0 < 2 ^ (e + 200)) by (apply Z.pow_pos_nonneg; lia). nia.
Qed.

(** [binary_normalize] of a non-zero integer mantissa, at the scale of
    [sval]. *)
Lemma binary_normalize_sval z e K :
  z ≠ 0 → -147 <= e → K <= 1023 →
  Z.abs z * 2 ^ (e + scale) < 2 ^ (K + scale) →
  ∃ m' e',
    binary_normalize 53 1024 z e false = S754_finite (z <? 0) m' e'
    ∧ 2 ^ 52 <= Zpos m' < 2 ^ 53
    ∧ - scale <= e' <= 971
    ∧ (∀ L, 0 <= L + scale →
         2 ^ (L + scale) <= Z.abs z * 2 ^ (e + scale) → L - 52 <= e')
    ∧ 2 * Z.abs (sval (S754_finite (z <? 0) m' e') - z * 2 ^ (e + scale))
      <= 2 ^ (K - 53 + scale)
    ∧ (Z.abs z < 2 ^ 53 →
       sval (S754_finite (z <? 0) m' e') = z * 2 ^ (e + scale)).
Proof.
  intros Hz He HK Hv.
  assert (∃ p, Z.abs z = Zpos p
               ∧ binary_normalize 53 1024 z e false
                 = binary_round 53 1024 (z <? 0) p e) as (p & Hp & ->).
  { destruct z as [|p|p]; [done|by exists p..]. }
  rewrite Hp in Hv.
  pose proof (digits_from_value p e K ltac:(unfold scale; lia) Hv) as HdK.
  destruct (binary_round_sval (z <? 0) p e)
    as (m' & e' & Hrun & Hm' & He' & Herr & Hexact);
    try (unfold scale; lia).
  exists m', e'. split; [done|]. split; [done|].
  split; [unfold scale in *; lia|]. split.
  { intros L HL Hlow. rewrite Hp in Hlow.
    pose proof (digits_from_value_low p e L ltac:(unfold scale; lia) HL Hlow).
    lia. }
  assert (2 ^ (Zpos (digits2_pos p) + e - 53 + scale) <= 2 ^ (K - 53 + scale))
    as Hmono by (apply Z.pow_le_mono_r; lia).
  assert (sval (S754_finite (z <? 0) m' e') - z * 2 ^ (e + scale)
          = cond_Zopp (z <? 0)
              (Zpos m' * 2 ^ (e' + scale) - Zpos p * 2 ^ (e + scale))) as Hs.
  { cbn [sval]. destruct z as [|q|q]; [done|..].
    - change (Z.abs (Z.pos q)) with (Z.pos q) in Hp. injection Hp as ->.
      reflexivity.
    - change (Z.abs (Z.neg q)) with (Z.pos q) in Hp. injection Hp as ->.
      change (Z.neg p <? 0) with true. cbn [cond_Zopp].
      change (Z.neg p) with (- Zpos p). ring. }
  split.
  - rewrite Hs. destruct (z <? 0); cbn [cond_Zopp]; rewrite ?Z.abs_opp; lia.
  - intros Hsmall. rewrite Hp in Hsmall.
    assert (Zpos (digits2_pos p) <= 53) as Hd.
    { pose proof (digits_bounds p) as [Hlo _].
      destruct (Z_le_gt_dec (Zpos (digits2_pos p)) 53) as [|Hgt]; [done|].
      exfalso. assert (2 ^ 53 <= 2 ^ (Zpos (digits2_pos p) - 1))
        by (apply Z.pow_le_mono_r; lia). lia. }
    specialize (Hexact Hd).
    apply Z.sub_move_0_r. rewrite Hs, Hexact, Z.sub_diag.
    by destruct (z <? 0).
Qed.

Lemma shl_align_fst m e ez :
  ez <= e → Zpos (fst (shl_align m e ez)) = Zpos m * 2 ^ (e - ez).
Proof.
  intros H. unfold shl_align.
  destruct (ez - e) as [|p|p] eqn:Hd; cbn [fst].
  - replace (e - ez) with 0 by lia. simpl. lia.
  - lia.
  - rewrite pos_iter_xO. f_equal. f_equal. lia.
Qed.

(** The mantissas of two finite floats, brought to their lower exponent. *)
Lemma aligned_value m e ez :
  ez <= e → - scale <= ez →
  Zpos (fst (shl_align m e ez)) * 2 ^ (ez + scale) = Zpos m * 2 ^ (e + scale).
Proof.
  unfold scale. intros H1 H2. rewrite shl_align_fst by done.
  rewrite <- Z.mul_assoc, <- Z.pow_add_r by lia. f_equal. f_equal. lia.
Qed.

(** ** The floats of a modification time *)

Lemma plain_float_sval_nonneg x : plain_float x → 0 <= sval x.
Proof.
  intros [->|(m & e & -> & _ & He)]; [done|]. cbn [sval cond_Zopp].
  assert (0 <= 2 ^ (e + scale)) by (apply Z.pow_nonneg; unfold scale; lia).
  lia.
Qed.

(** [float(z)] is exact below [2^53]. *)
Lemma float_of_Z_exact z :
  0 <= z < 2 ^ 53 →
  plain_float (float_of_Z z) ∧ sval (float_of_Z z) = z * 2 ^ scale.
Proof.
  intros Hz. destruct (Z.eq_dec z 0) as [->|Hne].
  { split; [by left|done]. }
  unfold float_of_Z, float_prec, float_emax.
  destruct (binary_normalize_sval z 0 53)
    as (m & e & Hrun & Hm & He & Hlow & _ & Hexact); try lia.
  { rewrite Z.abs_eq by lia. change (0 + scale) with scale.
    rewrite (Z.pow_add_r 2 53 scale) by (unfold scale; lia).
    assert (0 < 2 ^ scale) by (apply Z.pow_pos_nonneg; unfold scale; lia).
    nia. }
  rewrite Hrun. rewrite (proj2 (Z.ltb_ge z 0)) in * by lia.
  split.
  - right. exists m, e. split; [done|]. split; [done|].
    split; [|lia]. specialize (Hlow 0).
    assert (0 - 52 <= e); [|lia]. apply Hlow; [unfold scale; lia|].
    rewrite Z.abs_eq by lia. change (0 + scale) with scale.
    assert (0 < 2 ^ scale) by (apply Z.pow_pos_nonneg; unfold scale; lia).
    nia.
  - rewrite Hexact by (rewrite Z.abs_eq; lia). done.
Qed.

(** The product [1e-9 * float(nsec)], rounded once. *)
Lemma float_mul_1e_9 nsec :
  0 <= nsec < 1000000000 →
  plain_float (float_mul float_1e_9 (float_of_Z nsec))
  ∧ 2 * Z.abs (sval (float_mul float_1e_9 (float_of_Z nsec))
               - 4835703278458517 * nsec * 2 ^ 118) <= 2 ^ 148.
Proof.
  intros Hn. destruct (float_of_Z_exact nsec ltac:(lia)) as [Hplain Hval].
  destruct Hplain as [Hz|(mn & en & Hf & Hmn & Hen)].
  { rewrite Hz in *. cbn [sval] in Hval.
    assert (0 < 2 ^ scale) by (apply Z.pow_pos_nonneg; unfold scale; lia).
    assert (nsec = 0) as -> by nia.
    split; [by left|]. unfold float_mul, float_1e_9. cbn [SFmul xorb sval].
    change (4835703278458517 * 0 * 2 ^ 118) with 0. rewrite Z.sub_0_r.
    change (Z.abs 0) with 0.
    assert (0 < 2 ^ 148) by (apply Z.pow_pos_nonneg; lia). lia. }
  rewrite Hf in *. cbn [sval cond_Zopp] in Hval.
  unfold float_mul, float_1e_9, float_prec, float_emax. cbn [SFmul xorb].
  set (C := 4835703278458517%positive).
  assert (Hpow : 2 ^ (en + scale) = 2 ^ (en + 118) * 2 ^ 82).
  { rewrite <- (Z.pow_add_r 2 (en + 118) 82) by lia. f_equal. unfold scale. lia. }
  assert (Hs : 2 ^ scale = 2 ^ 118 * 2 ^ 82) by (by unfold scale).
  assert (H82 : 0 < 2 ^ 82) by (apply Z.pow_pos_nonneg; lia).
  assert (H118 : 0 < 2 ^ 118) by (apply Z.pow_pos_nonneg; lia).
  assert (Hen118 : 0 < 2 ^ (en + 118)) by (apply Z.pow_pos_nonneg; lia).
  assert (Hmid : Zpos mn * 2 ^ (en + 118) = nsec * 2 ^ 118).
  { rewrite Hpow, Hs in Hval. nia. }
  assert (Hvalue : Zpos (C * mn) * 2 ^ (-82 + en + scale)
                   = Zpos C * nsec * 2 ^ 118).
  { replace (-82 + en + scale) with (en + 118) by (unfold scale; lia).
    rewrite Pos2Z.inj_mul. rewrite <- Z.mul_assoc, Hmid. ring. }
  assert (Hnpos : 1 <= nsec).
  { destruct (Z.eq_dec nsec 0) as [->|]; [|lia]. lia. }
  assert (Hd1 : Zpos (digits2_pos (C * mn)) + (-82 + en) <= 1).
  { apply digits_from_value; [unfold scale; lia|]. rewrite Hvalue.
    replace (1 + scale) with (83 + 118) by (by unfold scale).
    rewrite (Z.pow_add_r 2 83 118) by lia.
    apply Z.mul_lt_mono_pos_r; [done|]. subst C.
    change (2 ^ 83) with 9671406556917033397649408. lia. }
  assert (Hd2 : -30 < Zpos (digits2_pos (C * mn)) + (-82 + en)).
  { apply digits_from_value_low; [unfold scale; lia|unfold scale; lia|].
    rewrite Hvalue.
    replace (-30 + scale) with (52 + 118) by (by unfold scale).
    rewrite (Z.pow_add_r 2 52 118) by lia.
    apply Z.mul_le_mono_nonneg_r; [lia|]. subst C.
    change (2 ^ 52) with 4503599627370496. lia. }
  assert (Hd3 : 53 <= Zpos (digits2_pos (C * mn))).
  { destruct (Z.le_gt_cases 53 (Zpos (digits2_pos (C * mn)))) as [|Hlt]; [done|].
    exfalso. pose proof (digits_bounds (C * mn)) as [_ Hup].
    assert (2 ^ Zpos (digits2_pos (C * mn)) <= 2 ^ 52)
      by (apply Z.pow_le_mono_r; lia).
    rewrite Pos2Z.inj_mul in Hup. subst C.
    change (2 ^ 52) with 4503599627370496 in *. nia. }
  destruct (binary_round_aux_sval false (C * mn) (-82 + en))
    as (m' & e' & Hrun & Hm' & He' & Herr); [lia|unfold scale; lia|lia|].
  rewrite Hrun. split.
  - right. exists m', e'. split; [done|]. split; [done|]. lia.
  - cbn [sval cond_Zopp]. rewrite Hvalue in Herr.
    etrans; [exact Herr|]. apply Z.pow_le_mono_r; [lia|]. unfold scale. lia.
Qed.

(** The sum of two floats that are zero or positive, rounded once. *)
Lemma float_add_plain x y K :
  plain_float x → plain_float y → K <= 1023 →
  sval x + sval y < 2 ^ (K + scale) →
  plain_float (float_add x y)
  ∧ 2 * Z.abs (sval (float_add x y) - (sval x + sval y))
    <= 2 ^ (K - 53 + scale).
Proof.
  intros Hx Hy HK Hsum.
  assert (Hpos : 0 <= 2 ^ (K - 53 + scale)) by (apply Z.pow_nonneg; lia).
  destruct Hx as [->|(mx & ex & -> & Hmx & Hex)];
    destruct Hy as [->|(my & ey & -> & Hmy & Hey)].
  - split; [by left|]. cbn. lia.
  - split; [right; by exists my, ey|].
    unfold float_add. cbn [SFadd sval cond_Zopp].
    replace (_ - _) with 0 by lia. cbn. lia.
  - split; [right; by exists mx, ex|].
    unfold float_add. cbn [SFadd sval cond_Zopp].
    replace (_ - _) with 0 by lia. cbn. lia.
  - unfold float_add, float_prec, float_emax. cbn [SFadd cond_Zopp].
    set (ez := Z.min ex ey).
    set (z := Zpos (fst (shl_align mx ex ez)) + Zpos (fst (shl_align my ey ez))).
    assert (Hz : z * 2 ^ (ez + scale)
                 = Zpos mx * 2 ^ (ex + scale) + Zpos my * 2 ^ (ey + scale)).
    { unfold z. rewrite Z.mul_add_distr_r.
      rewrite (aligned_value mx ex ez), (aligned_value my ey ez);
        unfold ez, scale; lia. }
    assert (Hzpos : 0 < z) by (unfold z; lia).
    cbn [sval cond_Zopp] in Hsum.
    destruct (binary_normalize_sval z ez K)
      as (m & e & Hrun & Hm & He & Hlow & Herr & _);
      [lia|unfold ez; lia|done| |].
    { rewrite Z.abs_eq by lia. by rewrite Hz. }
    rewrite Hrun. rewrite (proj2 (Z.ltb_ge z 0)) in * by lia.
    split.
    + right. exists m, e. split; [done|]. split; [done|]. split; [|lia].
      assert (-48 - 52 <= e); [|lia]. apply Hlow; [unfold scale; lia|].
      rewrite Z.abs_eq by lia. rewrite Hz.
      assert (2 ^ (52 + (ex + scale)) <= Zpos mx * 2 ^ (ex + scale)).
      { rewrite (Z.pow_add_r 2 52 (ex + scale)) by (unfold scale; lia).
        apply Z.mul_le_mono_nonneg_r; [apply Z.pow_nonneg; lia|lia]. }
      assert (2 ^ (-48 + scale) <= 2 ^ (52 + (ex + scale)))
        by (apply Z.pow_le_mono_r; unfold scale; lia).
      assert (0 <= 2 ^ (ey + scale)) by (apply Z.pow_nonneg; lia).
      nia.
    + cbn [sval cond_Zopp]. cbn [sval cond_Zopp] in Herr.
      by rewrite <- Hz.
Qed.

(** The float of a modification time is within [2^-19] of a second of the
    time itself, for every time from the epoch to the end of the 64-bit
    count of nanoseconds. *)
Lemma st_mtime_value st :
  epoch_ns (st_mtime_ns st) →
  plain_float (st_mtime st)
  ∧ Z.abs (1000000000 * sval (st_mtime st) - st_mtime_ns st * 2 ^ scale)
    <= 2 ^ 211.
Proof.
  intros Hep. unfold epoch_ns in Hep. unfold st_mtime.
  set (ns := st_mtime_ns st) in *.
  pose proof (Z.div_mod ns 1000000000 ltac:(lia)) as Hdm.
  pose proof (Z.mod_pos_bound ns 1000000000 ltac:(lia)) as Hmod.
  set (sec := ns / 1000000000) in *. set (nsec := ns mod 1000000000) in *.
  change (2 ^ 63) with 9223372036854775808 in Hep.
  assert (Hsec : 0 <= sec < 2 ^ 34).
  { change (2 ^ 34) with 17179869184. lia. }
  destruct (float_of_Z_exact sec) as [Hps Hvs].
  { change (2 ^ 53) with 9007199254740992.
    change (2 ^ 34) with 17179869184 in Hsec. lia. }
  destruct (float_mul_1e_9 nsec Hmod) as [Hpx Hvx].
  set (fs := float_of_Z sec) in *.
  set (fx := float_mul float_1e_9 (float_of_Z nsec)) in *.
  assert (Hscale : 2 ^ scale = 2 ^ 118 * 2 ^ 82) by (by unfold scale).
  assert (H82 : 2 ^ 82 = 4835703278458516698824704) by done.
  assert (H118 : 0 < 2 ^ 118) by (apply Z.pow_pos_nonneg; lia).
  assert (H148 : 2 ^ 148 = 2 ^ 118 * 1073741824) by reflexivity.
  assert (H182 : 2 ^ (35 - 53 + scale) = 2 ^ 118 * 2 ^ 64) by reflexivity.
  assert (H235 : 2 ^ (35 + scale) = 2 ^ 118 * 2 ^ 117) by reflexivity.
  assert (H211 : 2 ^ 211 = 2 ^ 118 * 2 ^ 93) by reflexivity.
  assert (H64 : 2 ^ 64 = 18446744073709551616) by done.
  assert (H93 : 2 ^ 93 = 9903520314283042199192993792) by done.
  assert (H117 : 2 ^ 117 = 166153499473114484112975882535043072) by done.
  assert (H34 : 2 ^ 34 = 17179869184) by done.
  destruct (float_add_plain fs fx 35 Hps Hpx ltac:(lia)) as [Hp Herr].
  { rewrite Hvs, H235, Hscale. nia. }
  split; [done|].
  rewrite H182 in Herr. rewrite H148 in Hvx. rewrite H211.
  rewrite Hvs in Herr. rewrite Hscale in *. rewrite H82, H64, H93 in *.
  set (P := 2 ^ 118) in *. clearbody P.
  set (S := sval (float_add fs fx)) in *. clearbody S.
  set (X := sval fx) in *. clearbody X.
  nia.
Qed.

(** The difference of two such floats, rounded once: zero when they are
    equal, a float with a full mantissa otherwise. *)
Lemma float_sub_plain x y K :
  plain_float x → plain_float y → K <= 1023 →
  sval x < 2 ^ (K + scale) → sval y < 2 ^ (K + scale) →
  (float_sub x y = S754_zero false ∧ sval x = sval y)
  ∨ ∃ s m e, float_sub x y = S754_finite s m e
      ∧ 2 ^ 52 <= Zpos m < 2 ^ 53 ∧ - scale <= e
      ∧ 2 * Z.abs (sval (float_sub x y) - (sval x - sval y))
        <= 2 ^ (K - 53 + scale).
Proof.
  intros Hx Hy HK Hbx Hby.
  assert (Hpos : 0 <= 2 ^ (K - 53 + scale)) by (apply Z.pow_nonneg; lia).
  pose proof (plain_float_sval_nonneg x Hx) as Hx0.
  pose proof (plain_float_sval_nonneg y Hy) as Hy0.
  destruct Hx as [->|(mx & ex & -> & Hmx & Hex)];
    destruct Hy as [->|(my & ey & -> & Hmy & Hey)].
  - by left.
  - right. exists true, my, ey. unfold float_sub. cbn [SFsub negb].
    split; [done|]. split; [done|]. split; [unfold scale; lia|].
    cbn [sval cond_Zopp]. replace (_ - _) with 0 by lia. cbn. lia.
  - right. exists false, mx, ex. unfold float_sub. cbn [SFsub].
    split; [done|]. split; [done|]. split; [unfold scale; lia|].
    cbn [sval cond_Zopp]. replace (_ - _) with 0 by lia. cbn. lia.
  - unfold float_sub, float_prec, float_emax. cbn [SFsub cond_Zopp].
    set (ez := Z.min ex ey).
    set (z := Zpos (fst (shl_align mx ex ez)) - Zpos (fst (shl_align my ey ez))).
    assert (Hz : z * 2 ^ (ez + scale)
                 = Zpos mx * 2 ^ (ex + scale) - Zpos my * 2 ^ (ey + scale)).
    { unfold z. rewrite Z.mul_sub_distr_r.
      rewrite (aligned_value mx ex ez), (aligned_value my ey ez);
        unfold ez, scale; lia. }
    cbn [sval cond_Zopp] in *.
    assert (Hez : 0 < 2 ^ (ez + scale))
      by (apply Z.pow_pos_nonneg; unfold ez, scale; lia).
    destruct (Z.eq_dec z 0) as [Hz0|Hz0].
    { left. rewrite Hz0 in *. split; [done|]. lia. }
    right.
    destruct (binary_normalize_sval z ez K)
      as (m & e & Hrun & Hm & He & _ & Herr & _);
      [done|unfold ez; lia|done| |].
    { rewrite <- (Z.abs_eq (2 ^ (ez + scale))) by lia.
      rewrite <- Z.abs_mul, Hz. lia. }
    exists (z <? 0), m, e. rewrite Hrun.
    split; [done|]. split; [done|]. split; [lia|].
    by rewrite <- Hz.
Qed.

(** The comparison with [1.0]. *)
Lemma one_lt_float m e :
  2 ^ 52 <= Zpos m < 2 ^ 53 → - scale <= e →
  SFltb (float_of_Z 1) (S754_finite false m e) = true
  ↔ 2 ^ scale < Zpos m * 2 ^ (e + scale).
Proof.
  intros Hm He. pose proof (eq_refl : scale = 200) as Hsc.
  change (float_of_Z 1) with (S754_finite false 4503599627370496 (-52)).
  unfold SFltb. cbn [SFcompare].
  change (2 ^ 52) with 4503599627370496 in Hm.
  change (2 ^ 53) with 9007199254740992 in Hm.
  assert (Hs : 2 ^ scale = 4503599627370496 * 2 ^ 148) by reflexivity.
  assert (H148 : 0 < 2 ^ 148) by (apply Z.pow_pos_nonneg; lia).
  destruct (Z.compare_spec (-52) e) as [<-|Hlt|Hgt].
  - change (-52 + scale) with 148. rewrite Hs.
    change (Pos.compare_cont Eq 4503599627370496 m)
      with (Pos.compare 4503599627370496 m).
    destruct (Pos.compare_spec 4503599627370496 m) as [<-|Hc|Hc].
    + split; [done|lia].
    + split; [|done]. intros _. apply Z.mul_lt_mono_pos_r; [done|].
      by apply Pos2Z.pos_lt_pos.
    + split; [done|]. intros Hv. apply Pos2Z.pos_lt_pos in Hc. nia.
  - split; [|done]. intros _.
    replace (e + scale) with (148 + (e + 52)) by lia.
    rewrite (Z.pow_add_r 2 148 (e + 52)) by lia. rewrite Hs.
    assert (2 <= 2 ^ (e + 52)).
    { change 2 with (2 ^ 1) at 1. apply Z.pow_le_mono_r; lia. }
    nia.
  - split; [done|]. intros Hv. exfalso.
    assert (Hsplit : 2 ^ 148 = 2 ^ (e + scale) * 2 ^ (-52 - e)).
    { rewrite <- (Z.pow_add_r 2 (e + scale) (-52 - e)) by lia.
      f_equal. lia. }
    assert (0 < 2 ^ (e + scale)) by (apply Z.pow_pos_nonneg; lia).
    assert (2 <= 2 ^ (-52 - e)).
    { change 2 with (2 ^ 1) at 1. apply Z.pow_le_mono_r; lia. }
    rewrite Hs, Hsplit in Hv. nia.
Qed.

(** The test of [files_differ] on the modification times, for times from
    the epoch to the end of the 64-bit count of nanoseconds: two times at
    most 0.999 s apart pass it, two times at least 1.001 s apart fail
    it. *)
Lemma mtime_gap_margin a b :
  epoch_ns (st_mtime_ns a) → epoch_ns (st_mtime_ns b) →
  (Z.abs (st_mtime_ns a - st_mtime_ns b) <= 999000000 →
   mtime_gap_exceeds_1s a b = false)
  ∧ (1001000000 <= Z.abs (st_mtime_ns a - st_mtime_ns b) →
     mtime_gap_exceeds_1s a b = true).
Proof.
  intros Ha Hb.
  destruct (st_mtime_value a Ha) as [Hpa Hva].
  destruct (st_mtime_value b Hb) as [Hpb Hvb].
  pose proof (plain_float_sval_nonneg _ Hpa) as Ha0.
  pose proof (plain_float_sval_nonneg _ Hpb) as Hb0.
  unfold epoch_ns in Ha, Hb. unfold mtime_gap_exceeds_1s.
  set (na := st_mtime_ns a) in *. set (nb := st_mtime_ns b) in *.
  set (fa := st_mtime a) in *. set (fb := st_mtime b) in *.
  change (2 ^ 63) with 9223372036854775808 in Ha, Hb.
  assert (HT : 0 < 2 ^ 181) by (apply Z.pow_pos_nonneg; lia).
  assert (Hscale : 2 ^ scale = 2 ^ 181 * 524288) by reflexivity.
  assert (H211 : 2 ^ 211 = 2 ^ 181 * 1073741824) by reflexivity.
  assert (H235 : 2 ^ (35 + scale) = 2 ^ 181 * 18014398509481984)
    by reflexivity.
  assert (H182 : 2 ^ (35 - 53 + scale) = 2 ^ 181 * 2) by reflexivity.
  rewrite Hscale, H211 in Hva, Hvb.
  set (T := 2 ^ 181) in *. clearbody T.
  assert (HAa : 0 <= na * T < 9223372036854775808 * T) by nia.
  assert (HAb : 0 <= nb * T < 9223372036854775808 * T) by nia.
  assert (Hdiff : Z.abs (na * T - nb * T) = Z.abs (na - nb) * T)
    by (apply abs_scale; lia).
  replace (na * (T * 524288)) with (na * T * 524288) in Hva by ring.
  replace (nb * (T * 524288)) with (nb * T * 524288) in Hvb by ring.
  set (A := na * T) in *. set (B := nb * T) in *.
  destruct (float_sub_plain fa fb 35 Hpa Hpb ltac:(lia))
    as [[Hzero Heq]|(s & m & e & Hrun & Hm & He & Herr)].
  { rewrite H235. clearbody A B. lia. }
  { rewrite H235. clearbody A B. lia. }
  - rewrite Hzero. cbn [SFabs].
    change (SFltb (float_of_Z 1) (S754_zero false)) with false.
    split; [done|]. intros Hfar. exfalso.
    assert (1001000000 * T <= Z.abs (A - B)) by (rewrite Hdiff; nia).
    clearbody A B. lia.
  - rewrite Hrun in *. cbn [SFabs].
    pose proof (one_lt_float m e Hm He) as Hcmp.
    rewrite H182 in Herr. rewrite Hscale in Hcmp.
    cbn [sval] in Herr.
    assert (Habs : Z.abs (cond_Zopp s (Zpos m * 2 ^ (e + scale)))
                   = Zpos m * 2 ^ (e + scale)).
    { assert (0 <= 2 ^ (e + scale)) by (apply Z.pow_nonneg; lia).
      destruct s; cbn [cond_Zopp]; lia. }
    set (R := cond_Zopp s (Zpos m * 2 ^ (e + scale))) in *.
    set (V := Zpos m * 2 ^ (e + scale)) in *.
    split.
    + intros Hnear.
      assert (Z.abs (A - B) <= 999000000 * T) by (rewrite Hdiff; nia).
      destruct (SFltb _ _) eqn:Hlt; [|done]. exfalso.
      apply proj1 in Hcmp. specialize (Hcmp eq_refl).
      clearbody A B R V. lia.
    + intros Hfar.
      assert (1001000000 * T <= Z.abs (A - B)) by (rewrite Hdiff; nia).
      apply Hcmp. clearbody A B R V. lia.
Qed.

End Rounding.

Section Retry.
Context (cfg : config).

Lemma retry_loop_all_fail func args op (attempts : list Z) w :
  (match op (replica_tree w) with
   | inl _ => True
   | inr _ => (length attempts ≤ length (faults w))%nat
              ∧ forallb id (take (length attempts) (faults w)) = true
   end) →
  retry_loop cfg attempts func args op w =
    (inr tt,
     mk_world (source_tree w) (replica_tree w) (hash_cache w)
       (drop (length attempts) (faults w))
       (trace w ++ concat (failing_round cfg func args <$> attempts) ++ [LogError func])).
Proof.
  revert w. induction attempts as [|a rest IH]; intros w H.
  - simpl. unfold log, emit. rewrite drop_0. done.
  - simpl retry_loop. unfold bind at 1. unfold attempt.
    destruct (op (replica_tree w)) as [e|r] eqn:Hop.
    + assert (∃ x, (match head (faults w) with
                     | Some true => (inr (Some OSError) : exn + option exn, set_faults (tail (faults w)) (emit (Call func args) w))
                     | _ => (inr (Some e), set_faults (tail (faults w)) (emit (Call func args) w))
                     end) = (inr (Some x), set_faults (tail (faults w)) (emit (Call func args) w))) as [x Hx].
      { destruct (head (faults w)) as [[]|]; eauto. }
      rewrite Hx. unfold bind, log. simpl.
      rewrite IH.
      * simpl. f_equal. f_equal.
        -- destruct (faults w); simpl; [by rewrite drop_nil|done].
        -- rewrite <- !app_assoc. done.
      * simpl. rewrite Hop. done.
    + destruct H as [Hlen Hall]. simpl in Hlen, Hall.
      destruct (faults w) as [|b fs] eqn:Hf; simpl in *; [lia|].
      apply andb_prop in Hall as [Hb Hall]. destruct b; [|done].
      unfold bind, log. simpl. rewrite IH.
      * simpl. f_equal. f_equal. rewrite <- !app_assoc. done.
      * simpl. rewrite Hop. split; [lia|done].
Qed.

End Retry.

Lemma calls_rounds cfg func args (attempts : list Z) :
  length (calls (concat (failing_round cfg func args <$> attempts)
                   ++ [LogError func]))
  = length attempts.
Proof.
  induction attempts as [|a rest IH]; [done|].
  simpl. by rewrite <- IH.
Qed.

(** Claim C7.  An operation that fails at every attempt is called exactly
    [max_retries] times by [_retry_operation]: the events of the call are
    [max_retries] rounds, each one call of the operation, one warning and a
    pause of one second, followed by the log of the permanent failure and
    by nothing else; the call returns normally and the replica is as it
    was. *)
Theorem retry_operation_bound cfg func args op w :
  always_fails cfg op w = true →
  ∃ w',
    _retry_operation cfg func args op w = (inr tt, w')
    ∧ replica_tree w' = replica_tree w
    ∧ new_events w w'
      = concat (failing_round cfg func args <$> seqZ 0 (max_retries cfg))
        ++ [LogError func]
    ∧ length (calls (new_events w w'))
      = Z.to_nat (max_retries cfg).
Proof.
  intros Hfail. unfold _retry_operation.
  rewrite retry_loop_all_fail.
  - eexists. split; [done|]. split; [done|].
    unfold new_events. simpl. rewrite drop_app_length.
    split; [done|]. by rewrite calls_rounds, length_seqZ.
  - unfold always_fails in Hfail. rewrite length_seqZ.
    destruct (op (replica_tree w)); [done|].
    apply andb_prop in Hfail as [H1 H2].
    by apply bool_decide_eq_true in H1.
Qed.

Lemma retry_operation_bound_witness :
  ∃ w',
    _retry_operation demo_config "remove" ["/rep/gone"]
      (update_at ["gone"] remove_edit)
      (fresh_world None (Some (Dir dir_stat0 []))) = (inr tt, w')
    ∧ length (calls (new_events (fresh_world None (Some (Dir dir_stat0 []))) w'))
      = 3%nat.
Proof.
  destruct (retry_operation_bound demo_config "remove" ["/rep/gone"]
              (update_at ["gone"] remove_edit)
              (fresh_world None (Some (Dir dir_stat0 []))))
    as (w' & H1 & _ & _ & H4); [reflexivity|].
  exists w'. split; [exact H1|exact H4].
Defined.

(** Claim C3.  Under the directory rule ["cache/"] the path ["cached.txt"]
    is ignored: the directory branch of [match_pattern] tests the path
    against the rule without its final separator, so a sibling that merely
    begins with the characters of the directory name matches too. *)
Theorem dir_rule_ignores_sibling_with_same_prefix :
  should_ignore ["cache/"] "cached.txt" = true
  ∧ match_pattern "cached.txt" "cache/" = true.
Proof. split; reflexivity. Qed.

(** Claim C5, as claimed: scanning a root that does not exist raises
    nothing; [get_all_items] returns the two empty sets and leaves the
    world as it was. *)
Lemma get_all_items_missing_root_is_not_an_error :
  let w := fresh_world None (Some (Dir dir_stat0 [])) in
  get_all_items demo_config (InSource "") w = (inr (∅, ∅), w)
  ∧ ¬ ∃ e, (get_all_items demo_config (InSource "") w).1 = inl e.
Proof. split; [reflexivity|]. intros [e He]. discriminate He. Qed.

(** Claim C5, amended.  When the root of a scan is not a directory that
    can be listed (it does not exist, or it is a file), [get_all_items]
    raises nothing: it returns an empty set of files and an empty set of
    directories, and the world is as it was. *)
Theorem get_all_items_unreadable_root cfg root w :
  is_dir (root_of root w) = false →
  get_all_items cfg root w = (inr (∅, ∅), w).
Proof.
  intros H. unfold get_all_items.
  destruct (root_of root w) as [[]|]; done.
Qed.

Lemma get_all_items_unreadable_root_witness :
  get_all_items demo_config (InReplica "")
    (fresh_world (Some (Dir dir_stat0 [])) None)
  = (inr (∅, ∅), fresh_world (Some (Dir dir_stat0 [])) None).
Proof. apply get_all_items_unreadable_root. reflexivity. Defined.

(** Claim C4.  With the source holding a newer [a.txt] and the replica an
    older [a.txt] and a stale [b.txt], one pass of [synchronize] removes
    [b.txt] before it copies the update of [a.txt]: the update loop runs
    after the remove loop. *)
Theorem synchronize_updates_after_removing :
  calls (trace (synchronize demo_platform demo_config
                  (fresh_world order_source order_replica)).2)
  = [Call "remove" ["/rep/b.txt"];
     Call "copy2" ["/src/a.txt"; "/rep/a.txt"]].
Proof. vm_compute. reflexivity. Qed.

Section Oracle.
Context (P : platform) (cfg : config).

Lemma files_differ_metadata_eq src rep w sn :
  use_md5 cfg = false → node_at src w = Some sn →
  files_differ P cfg src rep w = (inr (metadata_differ sn (node_at rep w)), w).
Proof.
  intros Hmode Hsrc. unfold files_differ, bind, os_path_exists, os_stat.
  rewrite Hmode. destruct (node_at rep w) as [rn|] eqn:Hrep; simpl; [|done].
  rewrite Hsrc, Hrep.
  destruct (bool_decide (st_size (stat_of sn) = st_size (stat_of rn))); simpl;
    [|done].
  by destruct (mtime_gap_exceeds_1s (stat_of sn) (stat_of rn)).
Qed.

Lemma float_sub_diag x :
  SFltb (float_of_Z 1) (SFabs (float_sub x x)) = false.
Proof.
  destruct x as [[]|[]| |[] m e]; try reflexivity;
    unfold float_sub, SFsub; cbn [cond_Zopp Z.opp];
    rewrite Z.sub_diag; reflexivity.
Qed.

(** A file is never a second away from itself. *)
Lemma mtime_gap_same st : mtime_gap_exceeds_1s st st = false.
Proof. apply float_sub_diag. Qed.

(** Claim C6, amended.  In metadata mode [files_differ] on an existing
    source file returns without raising and leaves the world as it was; its
    answer is [true] exactly when the replica path does not exist, or the
    two sizes differ, or the two [st_mtime] floats, subtracted in double
    precision, are more than 1.0 apart.  For modification times from the
    epoch to the end of the 64-bit count of nanoseconds, two files of equal
    size whose modification times are 0.5 s apart do not differ; 2 s apart
    they do. *)
Theorem files_differ_metadata_mode src rep w sn :
  use_md5 cfg = false →
  node_at src w = Some sn →
  ∃ b, files_differ P cfg src rep w = (inr b, w)
    ∧ (b = true ↔
         node_at rep w = None
         ∨ ∃ rn, node_at rep w = Some rn
             ∧ (st_size (stat_of sn) ≠ st_size (stat_of rn)
                ∨ SFltb (float_of_Z 1)
                    (SFabs (float_sub (st_mtime (stat_of sn))
                                      (st_mtime (stat_of rn)))) = true))
    ∧ (∀ rn, node_at rep w = Some rn →
         st_size (stat_of sn) = st_size (stat_of rn) →
         epoch_ns (st_mtime_ns (stat_of sn)) →
         epoch_ns (st_mtime_ns (stat_of rn)) →
         (Z.abs (st_mtime_ns (stat_of sn) - st_mtime_ns (stat_of rn))
          = 500000000%Z → b = false)
         ∧ (Z.abs (st_mtime_ns (stat_of sn) - st_mtime_ns (stat_of rn))
            = 2000000000%Z → b = true)).
Proof.
  intros Hmode Hsrc. eexists. split; [by apply files_differ_metadata_eq|].
  unfold metadata_differ. split.
  - unfold mtime_gap_exceeds_1s.
    destruct (node_at rep w) as [rn|]; [|naive_solver].
    rewrite orb_true_iff, negb_true_iff, bool_decide_eq_false.
    split.
    + intros H. right. exists rn. done.
    + intros [?|(rn' & [= <-] & H)]; done.
  - intros rn -> Hsize Hs Hr. rewrite Hsize.
    rewrite bool_decide_eq_true_2 by done. cbn [negb orb].
    destruct (mtime_gap_margin (stat_of sn) (stat_of rn) Hs Hr)
      as [Hnear Hfar].
    split; intros Hgap; [apply Hnear|apply Hfar]; rewrite Hgap; lia.
Qed.

End Oracle.

Lemma files_differ_metadata_mode_witness :
  let w := fresh_world
             (Some (Dir dir_stat0
                      [("f", File (bytes "Hello") 1700000002000000000);
                       ("g", File (bytes "Hello") 1700000000500000000)]))
             (Some (Dir dir_stat0
                      [("f", File (bytes "World") 1700000000000000000);
                       ("g", File (bytes "World") 1700000000000000000)])) in
  files_differ demo_platform demo_config (InSource "f") (InReplica "f") w
  = (inr true, w)
  ∧ files_differ demo_platform demo_config (InSource "g") (InReplica "g") w
    = (inr false, w).
Proof.
  intros w. split.
  - destruct (files_differ_metadata_mode demo_platform demo_config
                (InSource "f") (InReplica "f") w
                (File (bytes "Hello") 1700000002000000000))
      as (b & Hrun & _ & Hgap); [reflexivity|reflexivity|].
    destruct (Hgap (File (bytes "World") 1700000000000000000))
      as [_ Htwo]; [reflexivity|reflexivity|vm_compute; by split..|].
    rewrite Hrun, Htwo; reflexivity.
  - destruct (files_differ_metadata_mode demo_platform demo_config
                (InSource "g") (InReplica "g") w
                (File (bytes "Hello") 1700000000500000000))
      as (b & Hrun & _ & Hgap); [reflexivity|reflexivity|].
    destruct (Hgap (File (bytes "World") 1700000000000000000))
      as [Hhalf _]; [reflexivity|reflexivity|vm_compute; by split..|].
    rewrite Hrun, Hhalf; reflexivity.
Defined.

Lemma files_differ_rounds_the_gap :
  let stamped a b :=
    fresh_world (Some (Dir dir_stat0 [("f", File (bytes "Hello") a)]))
                (Some (Dir dir_stat0 [("f", File (bytes "World") b)])) in
  let run a b :=
    files_differ demo_platform demo_config (InSource "f") (InReplica "f")
      (stamped a b) in
  ((1000000000 < Z.abs (1700000001000000001 - 1700000000000000000))%Z
   ∧ run 1700000001000000001%Z 1700000000000000000%Z
     = (inr false, stamped 1700000001000000001%Z 1700000000000000000%Z))
  ∧ ((Z.abs (1073741824000000120 - 1073741823000000120) = 1000000000)%Z
     ∧ run 1073741824000000120%Z 1073741823000000120%Z
       = (inr true, stamped 1073741824000000120%Z 1073741823000000120%Z))
  ∧ ((Z.abs (9007199254740995499999999 - 9007199254740994999999999)
      = 500000000)%Z
     ∧ run 9007199254740995499999999%Z 9007199254740994999999999%Z
       = (inr true,
          stamped 9007199254740995499999999%Z 9007199254740994999999999%Z))
  ∧ ((Z.abs (18014398509481986000000000 - 18014398509481984000000000)
      = 2000000000)%Z
     ∧ run 18014398509481986000000000%Z 18014398509481984000000000%Z
       = (inr false,
          stamped 18014398509481986000000000%Z 18014398509481984000000000%Z)).
Proof. repeat split; vm_compute; reflexivity. Qed.

Lemma app_pivot_inj {A} (c : A) (l1 l2 r1 r2 : list A) :
  c ∉ l1 → c ∉ l2 → l1 ++ c :: r1 = l2 ++ c :: r2 → l1 = l2 ∧ r1 = r2.
Proof.
  revert l2. induction l1 as [|x l1 IH]; intros [|y l2] H1 H2 Heq;
    simplify_eq/=.
  - done.
  - exfalso. apply H2. by left.
  - exfalso. apply H1. by left.
  - destruct (IH l2) as [-> ->]; [|..|done|done].
    + intros ?. apply H1. by right.
    + intros ?. apply H2. by right.
Qed.

Lemma pretty_N_char_not_dash x : pretty_N_char x ≠ "-"%char.
Proof. unfold pretty_N_char. by repeat case_match. Qed.

Lemma pretty_N_go_no_dash x s :
  "-"%char ∉ chars s → "-"%char ∉ chars (pretty_N_go x s).
Proof.
  revert s. induction (N.lt_wf_0 x) as [x _ IH]; intros s Hs.
  assert (x = 0 ∨ 0 < x)%N as [->|?] by lia.
  - by rewrite pretty_N_go_0.
  - rewrite pretty_N_go_step by done. apply IH.
    { by apply N.div_lt. }
    simpl. intros [Hc|Hc]%elem_of_cons; [|done].
    by eapply pretty_N_char_not_dash.
Qed.

Lemma pretty_Z_nonneg_no_dash (z : Z) :
  (0 ≤ z)%Z → "-"%char ∉ chars (pretty z).
Proof.
  intros Hz. destruct z as [|p|p]; [| |lia].
  - simpl. intros [?|?%elem_of_nil]%elem_of_cons; done.
  - unfold pretty, pretty_Z, pretty, pretty_positive, pretty, pretty_N.
    case_decide; [done|]. apply pretty_N_go_no_dash. apply not_elem_of_nil.
Qed.

Section Cache.
Context (P : platform) (cfg : config).

Lemma cache_key_identity_inj path st st' :
  (0 ≤ st_size st)%Z → (0 ≤ st_size st')%Z →
  cache_key path st = cache_key path st' →
  st_size st = st_size st' ∧ int_mtime st = int_mtime st'.
Proof.
  intros H1 H2 Hkey. unfold cache_key in Hkey.
  apply (inj (String.app path)) in Hkey.
  apply (inj (String.app "-")) in Hkey.
  apply (f_equal chars) in Hkey. rewrite !chars_app in Hkey. simpl in Hkey.
  apply app_pivot_inj in Hkey as [Hs Hm];
    [|by apply pretty_Z_nonneg_no_dash..].
  apply (f_equal str) in Hs, Hm. unfold str, chars in Hs, Hm.
  rewrite !string_of_list_ascii_of_string in Hs, Hm.
  split; by apply (inj pretty).
Qed.

Lemma md5_hit file_path w n cached :
  use_hash_cache cfg = true →
  node_at file_path w = Some n →
  hash_cache w !! cache_key (abs_path cfg file_path) (stat_of n) = Some cached →
  md5 P cfg file_path w = (inr cached, w).
Proof.
  intros Hon Hn Hc. unfold md5, bind, os_path_exists, os_stat.
  rewrite Hn. simpl. rewrite Hn, Hon, Hc. done.
Qed.

Lemma md5_miss file_path w content mtime :
  node_at file_path w = Some (File content mtime) →
  (if use_hash_cache cfg
   then hash_cache w !! cache_key (abs_path cfg file_path)
                          (stat_of (File content mtime))
   else None) = None →
  md5 P cfg file_path w =
    (inr (md5_hexdigest P content),
     let w1 := emit (ReadBytes (abs_path cfg file_path)) w in
     if use_hash_cache cfg
     then set_cache (<[cache_key (abs_path cfg file_path)
                         (stat_of (File content mtime))
                       := md5_hexdigest P content]> (hash_cache w)) w1
     else w1).
Proof.
  intros Hn Hc. unfold md5, bind, os_path_exists, os_stat.
  rewrite Hn. cbn [is_present negb]. rewrite Hn, Hc.
  unfold read_bytes. rewrite Hn. unfold when, ret.
  by destruct (use_hash_cache cfg).
Qed.

(** Claim C8, amended.  With the hash cache enabled: when the cache holds
    an entry under the key of the file's path, size and [int(st_mtime)],
    [md5] returns the stored digest and neither reads the file nor changes
    the world; when it holds none, [md5] reads the file once, returns the
    digest of its contents and stores it under that key; and when the size
    or [int(st_mtime)] of the file is not that of the state for which an
    entry was stored, and the rest of the cache holds nothing under the
    file's key, the lookup misses: [md5] reads the file, returns the digest
    of its contents and stores it under the new key. *)
Theorem md5_cache_hit_and_miss file_path w :
  use_hash_cache cfg = true →
  (∀ n cached,
     node_at file_path w = Some n →
     hash_cache w !! cache_key (abs_path cfg file_path) (stat_of n)
       = Some cached →
     md5 P cfg file_path w = (inr cached, w))
  ∧ (∀ content mtime,
       node_at file_path w = Some (File content mtime) →
       hash_cache w !! cache_key (abs_path cfg file_path)
                         (stat_of (File content mtime)) = None →
       md5 P cfg file_path w =
         (inr (md5_hexdigest P content),
          set_cache (<[cache_key (abs_path cfg file_path)
                         (stat_of (File content mtime))
                       := md5_hexdigest P content]> (hash_cache w))
            (emit (ReadBytes (abs_path cfg file_path)) w)))
  ∧ (∀ content mtime old_content old_mtime digest rest,
       node_at file_path w = Some (File content mtime) →
       (length content ≠ length old_content
        ∨ int_of_float (st_mtime (stat_of (File content mtime)))
          ≠ int_of_float (st_mtime (stat_of (File old_content old_mtime)))) →
       hash_cache w
       = <[cache_key (abs_path cfg file_path)
             (stat_of (File old_content old_mtime)) := digest]> rest →
       rest !! cache_key (abs_path cfg file_path)
                 (stat_of (File content mtime)) = None →
       md5 P cfg file_path w =
         (inr (md5_hexdigest P content),
          set_cache (<[cache_key (abs_path cfg file_path)
                         (stat_of (File content mtime))
                       := md5_hexdigest P content]> (hash_cache w))
            (emit (ReadBytes (abs_path cfg file_path)) w))).
Proof.
  intros Hon. split; [|split].
  - intros n cached. by apply md5_hit.
  - intros content mtime Hn Hc.
    rewrite (md5_miss _ _ _ _ Hn); rewrite Hon; done.
  - intros content mtime old_content old_mtime digest rest Hn Hchanged Hc Hrest.
    rewrite (md5_miss _ _ _ _ Hn); rewrite Hon; [done|].
    rewrite Hc, lookup_insert_ne; [done|].
    intros Hkey.
    apply cache_key_identity_inj in Hkey as [Hs Hm]; simpl; [|lia..].
    simpl in Hs. destruct Hchanged as [Hd|Hd]; [lia|]. by apply Hd.
Qed.

End Cache.

Lemma md5_cache_hit_and_miss_witness :
  let r := Some (Dir dir_stat0 [("f", File (bytes "Hello") 1700000000999999999)]) in
  let hit := mk_world None r {[ "/rep/f-5-1700000001" := "stored" ]} [] [] in
  let changed := mk_world None r {[ "/rep/f-5-1700000000" := "stored" ]} [] [] in
  md5 demo_platform cache_config (InReplica "f") hit = (inr "stored", hit)
  ∧ md5 demo_platform cache_config (InReplica "f") changed
    = (inr "Hello",
       set_cache (<[ "/rep/f-5-1700000001" := "Hello" ]> (hash_cache changed))
         (emit (ReadBytes "/rep/f") changed)).
Proof.
  intros r hit changed. split.
  - destruct (md5_cache_hit_and_miss demo_platform cache_config
                (InReplica "f") hit) as (Hhit & _ & _); [reflexivity|].
    apply (Hhit (File (bytes "Hello") 1700000000999999999)); reflexivity.
  - destruct (md5_cache_hit_and_miss demo_platform cache_config
                (InReplica "f") changed) as (_ & _ & Hchanged); [reflexivity|].
    apply (Hchanged (bytes "Hello") 1700000000999999999%Z
             (bytes "Hello") 1700000000000000000%Z "stored" ∅).
    + reflexivity.
    + right. vm_compute. discriminate.
    + reflexivity.
    + reflexivity.
Defined.

(** C8: the key holds [int(stat.st_mtime)], the float truncated, not the
    whole seconds of the modification time.  A file stamped one nanosecond
    before the second 1700000001 has a float time of 1700000001.0: the
    entry stored under its size and its whole seconds is not found, and the
    file is read. *)
Lemma md5_key_is_not_the_truncated_mtime :
  let w := mk_world None
             (Some (Dir dir_stat0
                      [("f", File (bytes "Hello") 1700000000999999999)]))
             {[ "/rep/f-5-1700000000" := "stored" ]} [] [] in
  (1700000000999999999 `quot` 1000000000 = 1700000000)%Z
  ∧ (md5 demo_platform cache_config (InReplica "f") w).1 = inr "Hello"
  ∧ trace (md5 demo_platform cache_config (InReplica "f") w).2
    = [ReadBytes "/rep/f"]
  ∧ hash_cache (md5 demo_platform cache_config (InReplica "f") w).2
    = {[ "/rep/f-5-1700000001" := "Hello"; "/rep/f-5-1700000000" := "stored" ]}.
Proof. repeat split; vm_compute; reflexivity. Qed.

(** * The methods, step by step *)

Lemma bind_ok {A B} (m : M A) (k : A → M B) w a w' :
  m w = (inr a, w') → bind m k w = k a w'.
Proof. intros H. unfold bind. by rewrite H. Qed.

Lemma bind_err {A B} (m : M A) (k : A → M B) w e w' :
  m w = (inl e, w') → bind m k w = (inl e, w').
Proof. intros H. unfold bind. by rewrite H. Qed.

Lemma infos_app a b : infos (a ++ b) = infos a ++ infos b.
Proof. apply List.filter_app. Qed.

Lemma calls_app a b : calls (a ++ b) = calls a ++ calls b.
Proof. apply List.filter_app. Qed.

Lemma after_id w : after w (replica_tree w) (hash_cache w) (faults w) [] = w.
Proof. unfold after. rewrite app_nil_r. by destruct w. Qed.

Lemma after_after w r c f evs r' c' f' evs' :
  after (after w r c f evs) r' c' f' evs' = after w r' c' f' (evs ++ evs').
Proof. unfold after. simpl. by rewrite app_assoc. Qed.

Lemma node_at_replica cs w :
  valid_path cs →
  node_at (InReplica (render cs)) w = resolve cs (replica_tree w).
Proof. intros H. unfold node_at. simpl. by rewrite split_path_render. Qed.

Lemma node_at_source cs w :
  valid_path cs →
  node_at (InSource (render cs)) w = resolve cs (source_tree w).
Proof. intros H. unfold node_at. simpl. by rewrite split_path_render. Qed.

Section Steps.
Context (P : platform) (cfg : config).

Lemma md5_run l w :
  md5 P cfg l w =
    let '(r, c, evs) := md5_core P cfg l (node_at l w) (hash_cache w) in
    (r, after w (replica_tree w) c (faults w) evs).
Proof.
  unfold md5, md5_core, bind, os_path_exists, os_stat.
  destruct (node_at l w) as [nd|] eqn:Hn; cbn [is_present negb].
  - rewrite Hn.
    destruct (if use_hash_cache cfg then _ else None) as [cached|] eqn:Hc.
    + by rewrite after_id.
    + unfold read_bytes. rewrite Hn. destruct nd as [content mtime|st es].
      * unfold when, ret. destruct (use_hash_cache cfg); done.
      * by rewrite after_id.
  - unfold ret. by rewrite after_id.
Qed.

Lemma files_differ_run src rep w :
  files_differ P cfg src rep w =
    let '(r, c, evs) :=
      files_differ_core P cfg src rep (node_at src w) (node_at rep w)
        (hash_cache w) in
    (r, after w (replica_tree w) c (faults w) evs).
Proof.
  unfold files_differ, files_differ_core.
  unfold bind at 1. unfold os_path_exists at 1.
  destruct (node_at rep w) as [rn|] eqn:Hrep; cbn [is_present negb].
  2:{ unfold ret. by rewrite after_id. }
  destruct (use_md5 cfg).
  - unfold bind at 1. rewrite md5_run.
    destruct (md5_core P cfg src (node_at src w) (hash_cache w))
      as [[[e|h1] c1] ev1]; [done|].
    unfold bind at 1. rewrite md5_run.
    change (node_at rep (after w (replica_tree w) c1 (faults w) ev1))
      with (node_at rep w). rewrite Hrep.
    change (hash_cache (after w (replica_tree w) c1 (faults w) ev1)) with c1.
    destruct (md5_core P cfg rep (Some rn) c1) as [[[e|h2] c2] ev2];
      rewrite after_after; done.
  - unfold bind, os_stat. destruct (node_at src w) as [sn|] eqn:Hsrc.
    + rewrite Hrep. unfold metadata_differ.
      destruct (bool_decide _); simpl; [|by rewrite after_id].
      destruct (mtime_gap_exceeds_1s _ _); by rewrite after_id.
    + by rewrite after_id.
Qed.

Lemma files_differ_core_files src rep c m c' m' cache :
  ∃ b cache' evs,
    files_differ_core P cfg src rep (Some (File c m)) (Some (File c' m')) cache
    = (inr b, cache', evs)
    ∧ infos evs = [] ∧ calls evs = [].
Proof.
  unfold files_differ_core.
  assert (Hmd5 : ∀ l content mtime ch, ∃ h ch' evs,
    md5_core P cfg l (Some (File content mtime)) ch = (inr h, ch', evs)
    ∧ infos evs = [] ∧ calls evs = []).
  { intros l content mtime ch. unfold md5_core.
    destruct (if use_hash_cache cfg then _ else None); by repeat eexists. }
  destruct (use_md5 cfg); [|by repeat eexists].
  destruct (Hmd5 src c m cache) as (h1 & c1 & ev1 & -> & Hi1 & Hc1).
  destruct (Hmd5 rep c' m' c1) as (h2 & c2 & ev2 & -> & Hi2 & Hc2).
  repeat eexists.
  - by rewrite infos_app, Hi1, Hi2.
  - by rewrite calls_app, Hc1, Hc2.
Qed.

(** ** Retried operations *)

Lemma retry_ok func args op w r' :
  faults w = [] → (0 < max_retries cfg)%Z →
  op (replica_tree w) = inr r' →
  _retry_operation cfg func args op w
  = (inr tt, after w r' (hash_cache w) [] [Call func args]).
Proof.
  intros Hf Hn Hop. unfold _retry_operation.
  rewrite seqZ_cons by done. cbn [retry_loop].
  unfold bind, attempt. rewrite Hf, Hop. done.
Qed.

Lemma infos_rounds func args (attempts : list Z) :
  infos (concat (failing_round cfg func args <$> attempts) ++ [LogError func])
  = [].
Proof. induction attempts as [|a rest IH]; [done|]. simpl. exact IH. Qed.

Lemma retry_fail func args op w e :
  faults w = [] → op (replica_tree w) = inl e →
  ∃ evs, _retry_operation cfg func args op w
         = (inr tt, after w (replica_tree w) (hash_cache w) [] evs)
       ∧ infos evs = [].
Proof.
  intros Hf Hop. unfold _retry_operation.
  rewrite retry_loop_all_fail by by rewrite Hop.
  eexists. split.
  - unfold after. rewrite Hf, drop_nil. done.
  - apply infos_rounds.
Qed.

(** ** [ensure_dir_exists], [copy_item], [remove_item] in a live pass *)

Lemma ensure_dir_exists_live q w :
  dry_run cfg = false → valid_path q →
  wf_opt (replica_tree w) → is_dir (replica_tree w) = true →
  (∀ q', q' `prefix_of` q →
     entry q' (replica_tree w) = None ∨ entry q' (replica_tree w) = Some KDir) →
  ∃ r' evs,
    ensure_dir_exists P cfg (InReplica (render q)) w
    = (inr tt, after w r' (hash_cache w) (faults w) evs)
    ∧ infos evs = [] ∧ dir_made q (replica_tree w) r'.
Proof.
  intros Hlive Hq Hwf Hroot Hchain. unfold ensure_dir_exists.
  unfold bind at 1, os_path_exists at 1. rewrite node_at_replica by done.
  rewrite Hlive. cbn [negb]. rewrite andb_true_r.
  destruct (resolve q (replica_tree w)) as [n|] eqn:Hres; cbn [is_present negb when].
  - exists (replica_tree w), []. split; [by rewrite after_id|].
    split; [done|]. split; [done|]. split; [done|].
    intros q'. case_bool_decide as Hpre; [|done].
    apply (entry_prefix_dir q' q); [done|].
    apply entry_is_dir. destruct (Hchain q) as [Hn|Hd]; [done| |done].
    apply entry_None_resolve in Hn. congruence.
  - destruct (os_makedirs_spec (mkdir_stat P) q (replica_tree w))
      as (r' & Hmk & Hwf' & Hroot' & Hent); try done.
    { by apply entry_None_resolve. }
    exists r', [Call "makedirs" [abs_path cfg (InReplica (render q))]].
    unfold mutate. cbn [rel_of]. rewrite split_path_render by done.
    cbn [emit replica_tree]. rewrite Hmk. done.
Qed.

Lemma copy_item_dir_live q w :
  dry_run cfg = false → valid_path q →
  is_dir (resolve q (source_tree w)) = true →
  wf_opt (replica_tree w) → is_dir (replica_tree w) = true →
  (∀ q', q' `prefix_of` q →
     entry q' (replica_tree w) = None ∨ entry q' (replica_tree w) = Some KDir) →
  ∃ r' evs,
    copy_item P cfg (render q) w
    = (inr tt, after w r' (hash_cache w) (faults w) evs)
    ∧ infos evs = [LogInfo ("Directory created/updated: "
                            +:+ abs_path cfg (InReplica (render q)))]
    ∧ dir_made q (replica_tree w) r'.
Proof.
  intros Hlive Hq Hsrc Hwf Hroot Hchain. unfold copy_item.
  unfold bind at 1, os_path_isdir at 1. rewrite node_at_source, Hsrc by done.
  destruct (ensure_dir_exists_live q w) as (r' & evs & Hrun & Hinf & Hmade);
    try done.
  rewrite (bind_ok _ _ _ _ _ Hrun). unfold log, emit, after. simpl.
  eexists r', (evs ++ [_]). rewrite app_assoc. split; [done|].
  split; [|done]. by rewrite infos_app, Hinf.
Qed.

Lemma copy_item_file_live q c m w :
  dry_run cfg = false → faults w = [] → (0 < max_retries cfg)%Z →
  valid_path q →
  resolve q (source_tree w) = Some (File c m) →
  wf_opt (replica_tree w) → is_dir (replica_tree w) = true →
  (∀ q', q' `prefix_of` q → q' ≠ q →
     entry q' (replica_tree w) = None ∨ entry q' (replica_tree w) = Some KDir) →
  is_dir (resolve q (replica_tree w)) = false →
  ∃ r' evs,
    copy_item P cfg (render q) w
    = (inr tt, after w r' (hash_cache w) [] evs)
    ∧ infos evs = [LogInfo ("File copied/updated: "
                            +:+ abs_path cfg (InReplica (render q)))]
    ∧ file_copied q c m (replica_tree w) r'.
Proof.
  intros Hlive Hf Hn Hq Hsrc Hwf Hroot Hchain Hnd. unfold copy_item.
  unfold bind at 1, os_path_isdir at 1. rewrite node_at_source, Hsrc by done.
  cbn [is_dir].
  destruct (decide (q = [])) as [->|Hne].
  { simpl in Hnd. congruence. }
  destruct (exists_last Hne) as (parent & name & ->).
  apply Forall_app in Hq as Hq'. destruct Hq' as [Hparent [Hname _]%Forall_cons].
  cbn [dirname_loc]. rewrite os_path_dirname_render by done.
  destruct (ensure_dir_exists_live parent w) as (r1 & ev1 & Hrun & Hinf & Hmade);
    try done.
  { intros q' Hq'. apply Hchain; [by apply prefix_app_r|].
    intros ->. by apply (prefix_snoc_not parent name). }
  rewrite (bind_ok _ _ _ _ _ Hrun).
  destruct Hmade as (Hwf1 & Hroot1 & Hent1).
  assert (entry (parent ++ [name]) r1 = entry (parent ++ [name]) (replica_tree w))
    as Hsame.
  { rewrite Hent1. rewrite bool_decide_eq_false_2; [done|].
    apply prefix_snoc_not. }
  assert (is_dir (resolve (parent ++ [name]) r1) = false) as Hnd1.
  { apply not_true_is_false. intros Hd%entry_is_dir.
    rewrite Hsame in Hd. apply entry_is_dir in Hd. congruence. }
  destruct (write_ok parent name c m r1) as [r' Hw]; [|done|].
  { apply entry_is_dir. rewrite Hent1. by rewrite bool_decide_eq_true_2. }
  unfold bind at 1. rewrite Hlive. cbn [negb when].
  rewrite (retry_ok _ _ _ _ r').
  2:{ by rewrite Hf. }
  2:{ done. }
  2:{ cbn [source_tree replica_tree after]. unfold shutil_copy2.
      rewrite split_path_render by done. rewrite Hnd1, Hsrc. done. }
  unfold log, emit, after. simpl.
  eexists r', (ev1 ++ [_] ++ [_]). rewrite <- !app_assoc. split; [done|].
  split; [by rewrite !infos_app, Hinf|].
  split; [exact (write_wf _ _ _ _ _ Hwf1 Hq Hw)|].
  pose proof (write_entry _ _ _ _ _ Hw) as Hent'.
  split.
  { apply entry_nil_dir. rewrite Hent'.
    rewrite bool_decide_eq_false_2 by by destruct parent.
    rewrite bool_decide_eq_false_2.
    - by apply entry_nil_dir.
    - intros ?%prefix_nil_inv. by destruct parent. }
  intros q'. rewrite Hent'. case_bool_decide as Heq; [done|].
  case_bool_decide as Hunder.
  - rewrite bool_decide_eq_false_2.
    + destruct Hunder as [t ->]. symmetry.
      apply entry_None_resolve. rewrite resolve_app.
      destruct (resolve (parent ++ [name]) (replica_tree w)) as [[]|] eqn:Hr;
        [|done|by rewrite resolve_None].
      apply resolve_File. intros ->. by rewrite app_nil_r in Heq.
    + intros Hpre. apply Heq. by apply (anti_symm prefix).
  - rewrite Hent1. case_bool_decide as Hp1; case_bool_decide as Hp2; try done.
    + exfalso. apply Hp2. by apply prefix_app_r.
    + exfalso. apply Hp1. by apply prefix_strict_snoc in Hp2.
Qed.

Lemma unlink_ok q f o :
  is_present (resolve q o) = true →
  f = (if is_dir (resolve q o) then rmtree_edit else remove_edit) →
  ∃ o', update_at q f o = inr o'.
Proof.
  intros Hp ->. destruct (decide (q = [])) as [->|Hne].
  - simpl in *. destruct o as [[]|]; [by exists None..|done].
  - destruct (exists_last Hne) as (parent & name & ->).
    apply (update_at_ok parent name _ o None).
    + apply entry_is_dir. apply (entry_parent_dir parent [name]); [done|].
      by apply entry_is_present.
    + destruct (resolve (parent ++ [name]) o) as [[]|]; done.
Qed.

Lemma remove_item_live q w :
  dry_run cfg = false → faults w = [] → (0 < max_retries cfg)%Z →
  valid_path q → wf_opt (replica_tree w) →
  ∃ r' evs,
    remove_item cfg (render q) w
    = (inr tt, after w r' (hash_cache w) [] evs)
    ∧ infos evs = [LogInfo ("Removed: " +:+ abs_path cfg (InReplica (render q)))]
    ∧ unlinked q (replica_tree w) r'.
Proof.
  intros Hlive Hf Hn Hq Hwf. unfold remove_item.
  rewrite Hlive. cbn [negb when].
  set (f := if is_dir (resolve q (replica_tree w))
            then rmtree_edit else remove_edit).
  set (name := if is_dir (resolve q (replica_tree w))
               then "rmtree" else "remove").
  match goal with
  | |- context [bind ?inner _ w] =>
      assert (inner w
              = _retry_operation cfg name [abs_path cfg (InReplica (render q))]
                  (update_at q f) w) as Hinner
  end.
  { unfold bind, os_path_isdir. rewrite node_at_replica by done.
    rewrite split_path_render by done. unfold f, name.
    by destruct (is_dir _). }
  unfold bind at 1. rewrite Hinner. clear Hinner.
  assert (Hf' : f = remove_edit ∨ f = rmtree_edit).
  { unfold f. destruct (is_dir _); auto. }
  destruct (update_at q f (replica_tree w)) as [e|r'] eqn:Hup.
  - destruct (retry_fail name [abs_path cfg (InReplica (render q))]
                (update_at q f) w e) as (evs & Hrun & Hinf); [done..|].
    rewrite Hrun. unfold log, emit, after. simpl.
    eexists (replica_tree w), (evs ++ [_]). rewrite app_assoc.
    split; [done|]. split; [by rewrite infos_app, Hinf|].
    split; [done|]. intros q'. case_bool_decide as Hpre; [|done].
    destruct Hpre as [t ->]. apply entry_app_None.
    apply entry_None_resolve.
    destruct (is_present (resolve q (replica_tree w))) eqn:Hpres.
    + destruct (unlink_ok q f (replica_tree w)) as [o' Ho']; [done..|].
      congruence.
    + by destruct (resolve q (replica_tree w)).
  - rewrite (retry_ok _ _ _ _ _ Hf Hn Hup).
    unfold log, emit, after. simpl.
    eexists r', ([_] ++ [_]). rewrite <- app_assoc.
    split; [done|]. split; [done|].
    split; [exact (unlink_wf _ _ _ _ Hf' Hwf Hq Hup)|].
    exact (unlink_entry _ _ _ _ Hf' Hup).
Qed.

End Steps.

(** * The three loops of a live pass *)

Lemma for_each_inv {A} (Inv : list A → world → Prop) (body : A → M unit)
    (items : list A) :
  (∀ done x rest w, items = done ++ x :: rest → Inv done w →
     ∃ w', body x w = (inr tt, w') ∧ Inv (done ++ [x]) w') →
  ∀ w, Inv [] w → ∃ w', for_each items body w = (inr tt, w') ∧ Inv items w'.
Proof.
  intros Hstep.
  assert (∀ rest done w, items = done ++ rest → Inv done w →
    ∃ w', for_each rest body w = (inr tt, w') ∧ Inv (done ++ rest) w') as H.
  { induction rest as [|x rest IH]; intros done w Heq Hinv.
    - exists w. rewrite app_nil_r. done.
    - destruct (Hstep done x rest w Heq Hinv) as (w1 & Hrun & Hinv1).
      destruct (IH (done ++ [x]) w1) as (w' & Hrun' & Hinv').
      { by rewrite <- app_assoc. }
      { done. }
      exists w'. split.
      + simpl. by rewrite (bind_ok _ _ _ _ _ Hrun).
      + by rewrite <- app_assoc in Hinv'. }
  intros w Hinv. by apply (H items [] w).
Qed.

Lemma visible_prefix cfg q q' :
  visible cfg q → q' `prefix_of` q → visible cfg q'.
Proof. intros Hv Hp q'' Hq'' Hne. apply Hv; [by etrans|done]. Qed.

Lemma valid_prefix q q' : valid_path q → q' `prefix_of` q → valid_path q'.
Proof. intros Hv [t ->]. by apply Forall_app in Hv as [? _]. Qed.

Lemma entry_prefix_present q q' o :
  entry q o ≠ None → q' `prefix_of` q → entry q' o ≠ None.
Proof.
  intros Hp [t ->] Hn. apply Hp. by apply entry_app_None.
Qed.

Lemma entry_strict_prefix_dir q q' o :
  entry q o ≠ None → q' `prefix_of` q → q' ≠ q → entry q' o = Some KDir.
Proof.
  intros Hp [t ->] Hne. apply (entry_parent_dir q' t); [|done].
  intros ->. by rewrite app_nil_r in Hne.
Qed.

Lemma entry_file_resolve q o o' c m :
  entry q o = Some (KFile c m) → entry q o' = entry q o →
  resolve q o' = Some (File c m).
Proof.
  unfold entry. intros H1 H2. rewrite H1 in H2.
  destruct (resolve q o') as [[]|]; simpl in H2; by simplify_eq.
Qed.

Section Pass.
Context (P : platform) (cfg : config) (s r0 : option node).
Hypothesis Hs : wf_root s = true.
Hypothesis Hr0 : wf_root r0 = true.
Hypothesis Hlive : dry_run cfg = false.
Hypothesis Hretries : (0 < max_retries cfg)%Z.
Hypothesis Hnc : ∀ q, visible cfg q → entry q s ≠ None → entry q r0 ≠ None →
  (entry q s = Some KDir ↔ entry q r0 = Some KDir).

Lemma root_s : entry [] s = Some KDir.
Proof. apply entry_nil_dir. by apply wf_root_spec in Hs as [? _]. Qed.

Lemma root_r0 : entry [] r0 = Some KDir.
Proof. apply entry_nil_dir. by apply wf_root_spec in Hr0 as [? _]. Qed.

(** [copy_item] on an item whose place in the replica is free or holds an
    entry of the same type. *)
Lemma copy_item_live q w :
  faults w = [] → source_tree w = s → valid_path q → q ≠ [] →
  entry q s ≠ None →
  wf_opt (replica_tree w) → is_dir (replica_tree w) = true →
  (∀ q', q' `prefix_of` q → q' ≠ q →
     entry q' (replica_tree w) = None ∨ entry q' (replica_tree w) = Some KDir) →
  (entry q s = Some KDir →
     entry q (replica_tree w) = None ∨ entry q (replica_tree w) = Some KDir) →
  (entry q s ≠ Some KDir → entry q (replica_tree w) ≠ Some KDir) →
  ∃ r' evs,
    copy_item P cfg (render q) w = (inr tt, after w r' (hash_cache w) [] evs)
    ∧ infos evs = [copy_msg cfg s (render q)]
    ∧ wf_opt r' ∧ is_dir r' = true
    ∧ ∀ q', entry q' r' =
            if bool_decide (q' = q) then entry q s
            else if bool_decide (q' `prefix_of` q) then Some KDir
            else entry q' (replica_tree w).
Proof.
  intros Hf Hsrc Hq Hne Hpres Hwf Hroot Hchain Hd Hnd.
  unfold copy_msg. rewrite split_path_render by done.
  destruct (resolve q s) as [[c m|st es]|] eqn:Hres.
  - (* a regular file *)
    destruct (copy_item_file_live P cfg q c m w)
      as (r' & evs & Hrun & Hinf & Hwf' & Hroot' & Hent); try done.
    { by rewrite Hsrc. }
    { apply not_true_is_false. intros Hdir%entry_is_dir.
      apply Hnd; [|done]. unfold entry. by rewrite Hres. }
    exists r', evs. split. { exact Hrun. } split; [exact Hinf|]. split; [done|].
    split; [done|]. intros q'. rewrite Hent. unfold entry at 2.
    by rewrite Hres.
  - (* a directory *)
    destruct (copy_item_dir_live P cfg q w)
      as (r' & evs & Hrun & Hinf & Hwf' & Hroot' & Hent); try done.
    { by rewrite Hsrc, Hres. }
    { intros q' Hq'. destruct (decide (q' = q)) as [->|Hneq].
      - apply Hd. unfold entry. by rewrite Hres.
      - by apply Hchain. }
    exists r', evs. rewrite Hf in Hrun. split; [done|]. split; [exact Hinf|].
    split; [done|]. split; [done|]. intros q'. rewrite Hent.
    destruct (decide (q' = q)) as [->|Heq].
    + rewrite !bool_decide_eq_true_2 by done. unfold entry. by rewrite Hres.
    + by rewrite (bool_decide_eq_false_2 (q' = q)).
  - exfalso. apply Hpres. unfold entry. by rewrite Hres.
Qed.

Lemma source_prefix_facts q q' :
  valid_path q → visible cfg q → entry q s ≠ None →
  q' `prefix_of` q → q' ≠ q →
  valid_path q' ∧ visible cfg q' ∧ entry q' s = Some KDir.
Proof.
  intros Hv Hvis Hp Hpre Hne. split; [by eapply valid_prefix|].
  split; [by eapply visible_prefix|]. by eapply entry_strict_prefix_dir.
Qed.

(** An ancestor of a source entry is a directory of the replica, as it
    was before the pass, or is one of the paths to add. *)
Lemma ancestor_in_replica q' :
  q' ≠ [] → valid_path q' → visible cfg q' → entry q' s = Some KDir →
  to_add_path cfg s r0 q' ∨ entry q' r0 = Some KDir.
Proof.
  intros Hne Hv Hvis Hd.
  destruct (entry q' r0) as [k|] eqn:Hr.
  - right. rewrite <- Hr. apply Hnc; [done|congruence|congruence|done].
  - left. repeat split; try done. congruence.
Qed.

Lemma add_step items :
  (∀ p, p ∈ items → ∃ q, p = render q ∧ to_add_path cfg s r0 q) →
  ∀ t0 c0 done x rest w,
    items = done ++ x :: rest →
    add_inv cfg s r0 t0 c0 done w →
    ∃ w', copy_item P cfg x w = (inr tt, w')
          ∧ add_inv cfg s r0 t0 c0 (done ++ [x]) w'.
Proof.
  intros Hitems t0 c0 done x rest w Heq Hinv.
  destruct (Hitems x) as (q & -> & Hq).
  { rewrite Heq. apply elem_of_app. right. by left. }
  pose proof Hq as (Hne & Hval & Hvis & Hps & Hnone).
  destruct Hinv as ((Hsrc & Hf & Hwf & Hroot & evs0 & Ht & Hi) & Hc
                    & Hadd & Hfr & Hdone).
  assert (Hanc : ∀ q', q' `prefix_of` q → q' ≠ q →
            entry q' (replica_tree w) = None
            ∨ entry q' (replica_tree w) = Some KDir).
  { intros q' Hpre Hneq. destruct (decide (q' = [])) as [->|Hne'].
    { right. by apply entry_nil_dir. }
    destruct (source_prefix_facts q q') as (Hv' & Hvis' & Hd'); try done.
    destruct (ancestor_in_replica q') as [Ha|Hr]; try done.
    - destruct (Hadd q' Ha) as [?|Heq']; [by left|right].
      by rewrite Heq'.
    - right. rewrite Hfr; [done|]. intros (_ & _ & _ & _ & Hn).
      rewrite Hn in Hr. done. }
  destruct (copy_item_live q w)
    as (r' & evs & Hrun & Hinf & Hwf' & Hroot' & Hent); try done.
  { intros Hd. destruct (Hadd q Hq) as [?|Heq']; [by left|right].
    by rewrite Heq'. }
  { intros Hnd. destruct (Hadd q Hq) as [Hn|Heq']; rewrite ?Hn, ?Heq'; done. }
  eexists. split; [exact Hrun|].
  split; [|split; [|split; [|split]]].
  - split; [done|]. split; [done|]. split; [done|]. split; [done|].
    exists (evs0 ++ evs). simpl. rewrite Ht, <- app_assoc. split; [done|].
    by rewrite infos_app, Hi, Hinf, fmap_app.
  - done.
  - intros q' Hq'. simpl. rewrite Hent.
    destruct (decide (q' = q)) as [->|Hneq].
    { rewrite bool_decide_eq_true_2 by done. by right. }
    rewrite (bool_decide_eq_false_2 (q' = q)) by done.
    case_bool_decide as Hpre; [|by apply Hadd].
    right. symmetry. by eapply entry_strict_prefix_dir.
  - intros q' Hq'. simpl. rewrite Hent.
    destruct (decide (q' = q)) as [->|Hneq]; [done|].
    rewrite (bool_decide_eq_false_2 (q' = q)) by done.
    case_bool_decide as Hpre; [|by apply Hfr].
    destruct (decide (q' = [])) as [->|Hne']; [by rewrite root_r0|].
    destruct (source_prefix_facts q q') as (Hv' & Hvis' & Hd'); try done.
    by destruct (ancestor_in_replica q') as [Ha|Hr].
  - intros q' Hq' Hin. simpl. rewrite Hent.
    destruct (decide (q' = q)) as [->|Hneq].
    { by rewrite bool_decide_eq_true_2. }
    rewrite (bool_decide_eq_false_2 (q' = q)) by done.
    apply elem_of_app in Hin as [Hin|Hin%list_elem_of_singleton].
    + case_bool_decide as Hpre; [|by apply Hdone].
      symmetry. by eapply entry_strict_prefix_dir.
    + exfalso. apply Hneq. apply render_inj; [|done..].
      by destruct Hq' as (_ & ? & _).
Qed.

Lemma add_loop_live items t0 c0 w :
  (∀ p, p ∈ items → ∃ q, p = render q ∧ to_add_path cfg s r0 q) →
  add_inv cfg s r0 t0 c0 [] w →
  ∃ w', for_each items (copy_item P cfg) w = (inr tt, w')
        ∧ add_inv cfg s r0 t0 c0 items w'.
Proof.
  intros Hitems Hinv.
  apply (for_each_inv (add_inv cfg s r0 t0 c0)); [|done].
  intros done x rest w0. by apply add_step.
Qed.

Lemma remove_step items r1 :
  (∀ p, p ∈ items → ∃ q, p = render q ∧ to_remove_path cfg s r0 q) →
  ∀ t0 c0 done x rest w,
    items = done ++ x :: rest →
    remove_inv cfg s r0 r1 t0 c0 done w →
    ∃ w', remove_item cfg x w = (inr tt, w')
          ∧ remove_inv cfg s r0 r1 t0 c0 (done ++ [x]) w'.
Proof.
  intros Hitems t0 c0 done x rest w Heq Hinv.
  destruct (Hitems x) as (q & -> & Hq).
  { rewrite Heq. apply elem_of_app. right. by left. }
  pose proof Hq as (Hne & Hval & Hvis & Hpr & Hnone).
  destruct Hinv as ((Hsrc & Hf & Hwf & Hroot & evs0 & Ht & Hi) & Hc
                    & Hrel & Hdone).
  destruct (remove_item_live cfg q w)
    as (r' & evs & Hrun & Hinf & Hwf' & Hent); try done.
  eexists. split; [exact Hrun|].
  split; [|split; [|split]].
  - split; [done|]. split; [done|]. split; [done|]. split.
    { apply entry_nil_dir. simpl. rewrite Hent.
      rewrite bool_decide_eq_false_2; [by apply entry_nil_dir|].
      by intros ?%prefix_nil_inv. }
    exists (evs0 ++ evs). simpl. rewrite Ht, <- app_assoc. split; [done|].
    by rewrite infos_app, Hi, Hinf, fmap_app.
  - done.
  - intros q'. simpl. rewrite Hent. case_bool_decide as Hpre; [|apply Hrel].
    right. split; [done|]. by exists q.
  - intros q0 Hq0 Hin. simpl. rewrite Hent.
    case_bool_decide as Hpre; [done|].
    apply elem_of_app in Hin as [Hin|Hin%list_elem_of_singleton].
    + by apply Hdone.
    + exfalso. apply Hpre.
      assert (q0 = q) as ->; [|done].
      apply render_inj; [|done..]. by destruct Hq0 as (_ & ? & _).
Qed.

Lemma remove_loop_live items r1 t0 c0 w :
  (∀ p, p ∈ items → ∃ q, p = render q ∧ to_remove_path cfg s r0 q) →
  remove_inv cfg s r0 r1 t0 c0 [] w →
  ∃ w', for_each items (remove_item cfg) w = (inr tt, w')
        ∧ remove_inv cfg s r0 r1 t0 c0 items w'.
Proof.
  intros Hitems Hinv.
  apply (for_each_inv (remove_inv cfg s r0 r1 t0 c0)); [|done].
  intros done x rest w0. by apply remove_step.
Qed.

Lemma update_outcome_snoc items x c0 :
  update_outcome P cfg s r0 (items ++ [x]) c0
  = update_step P cfg s r0 (update_outcome P cfg s r0 items c0) x.
Proof. unfold update_outcome. by rewrite foldl_app. Qed.

Lemma update_step_items items r2 :
  NoDup items →
  (∀ p, p ∈ items → ∃ q, p = render q ∧ in_both_path cfg s r0 q) →
  (∀ q, in_both_path cfg s r0 q → entry q r2 = entry q r0) →
  (∀ q, visible cfg q → entry q s = Some KDir → entry q r2 = Some KDir) →
  ∀ t0 c0 done x rest w,
    items = done ++ x :: rest →
    update_inv P cfg s r0 r2 t0 c0 done w →
    ∃ w', update_item P cfg x w = (inr tt, w')
          ∧ update_inv P cfg s r0 r2 t0 c0 (done ++ [x]) w'.
Proof.
  intros Hnodup Hitems Hboth Hdirs t0 c0 done x rest w Heq Hinv.
  destruct (Hitems x) as (q & -> & Hq).
  { rewrite Heq. apply elem_of_app. right. by left. }
  pose proof Hq as (Hne & Hval & Hvis & Hps & Hpr).
  assert (render q ∉ done) as Hfresh.
  { rewrite Heq in Hnodup. apply NoDup_app in Hnodup as (_ & Hdisj & _).
    intros Hin. apply (Hdisj _ Hin). by left. }
  destruct Hinv as ((Hsrc & Hf & Hwf & Hroot & evs0 & Ht & Hi) & Hc
                    & Hrel & Hdone).
  assert (entry q (replica_tree w) = entry q r0) as Hcur.
  { destruct (Hrel q) as [->|(_ & Hin & _)]; [by apply Hboth|done]. }
  unfold update_inv. rewrite update_outcome_snoc.
  set (acc := update_outcome P cfg s r0 done c0) in *.
  unfold update_item. unfold bind at 1, os_path_isfile at 1.
  rewrite node_at_source, Hsrc by done.
  unfold update_step. rewrite split_path_render by done.
  destruct (resolve q s) as [[c m|st es]|] eqn:Hres; cbn [is_file].
  2:{ (* a directory of the source: nothing to do *)
      exists w. split; [done|]. split; [|split; [|split]].
      - split; [done|]. split; [done|]. split; [done|]. split; [done|].
        by exists evs0.
      - done.
      - intros q'. destruct (Hrel q') as [?|(? & Hin & ?)]; [by left|right].
        split; [done|]. split; [|done]. apply elem_of_app. by left.
      - intros q' Hq' Hin Hfile.
        apply elem_of_app in Hin as [Hin|Hin%list_elem_of_singleton].
        + by apply Hdone.
        + assert (q' = q) as ->.
          { apply render_inj; [|done..]. by destruct Hq' as (_ & ? & _). }
          by rewrite Hres in Hfile. }
  2:{ exfalso. apply Hps. unfold entry. by rewrite Hres. }
  (* a regular file of the source *)
  assert (entry q s = Some (KFile c m)) as Hks by (unfold entry; by rewrite Hres).
  assert (∃ c' m', entry q r0 = Some (KFile c' m')) as (c' & m' & Hkr).
  { destruct (entry q r0) as [[c' m'|]|] eqn:Hk; [by eauto| |done].
    exfalso. assert (entry q s = Some KDir); [|congruence].
    apply Hnc; [done|congruence|congruence|done]. }
  assert (resolve q r0 = Some (File c' m')) as Hr0res
    by by apply (entry_file_resolve q r0 r0 c' m').
  assert (resolve q (replica_tree w) = Some (File c' m')) as Hrres
    by by apply (entry_file_resolve q r0 _ c' m').
  assert (resolve q r2 = Some (File c' m')) as Hr2res.
  { apply (entry_file_resolve q r0 _ c' m'); [done|]. by apply Hboth. }
  rewrite Hr0res.
  unfold bind at 1. rewrite files_differ_run.
  rewrite node_at_source, node_at_replica, Hsrc, Hres, Hrres, Hc by done.
  destruct (files_differ_core_files P cfg (InSource (render q))
              (InReplica (render q)) c m c' m' acc.2)
    as (b & cache' & evs & Hcore & Hinf & _).
  rewrite Hcore.
  set (w1 := after w (replica_tree w) cache' (faults w) evs).
  destruct b; cbn [when].
  - (* differing files: the copy *)
    destruct (copy_item_live q w1 Hf Hsrc Hval Hne Hps Hwf Hroot)
      as (r' & evs' & Hrun & Hinf' & Hwf' & Hroot' & Hent).
    { intros q' Hpre Hneq. right. change (replica_tree w1) with (replica_tree w).
      destruct (decide (q' = [])) as [->|Hne']; [by apply entry_nil_dir|].
      destruct (source_prefix_facts q q') as (Hv' & Hvis' & Hd'); try done.
      destruct (Hrel q') as [->|(_ & _ & ->)]; [by apply Hdirs|done]. }
    { rewrite Hks. done. }
    { intros _. change (replica_tree w1) with (replica_tree w).
      rewrite Hcur, Hkr. done. }
    eexists. split; [exact Hrun|].
    split; [|split; [|split]].
    + split; [done|]. split; [done|]. split; [done|]. split; [done|].
      exists (evs0 ++ evs ++ evs'). simpl. rewrite Ht, <- !app_assoc.
      split; [done|]. by rewrite !infos_app, Hi, Hinf, Hinf'.
    + done.
    + intros q'. simpl. rewrite Hent.
      destruct (decide (q' = q)) as [->|Hneq].
      { rewrite bool_decide_eq_true_2 by done. right.
        split; [done|]. split; [|done]. apply elem_of_app. right. by left. }
      rewrite (bool_decide_eq_false_2 (q' = q)) by done.
      case_bool_decide as Hpre.
      * left. symmetry.
        destruct (decide (q' = [])) as [->|Hne'].
        { apply Hdirs; [|apply root_s]. intros q'' ->%prefix_nil_inv. done. }
        destruct (source_prefix_facts q q') as (Hv' & Hvis' & Hd'); try done.
        by apply Hdirs.
      * destruct (Hrel q') as [?|(? & Hin & ?)]; [by left|right].
        split; [done|]. split; [|done]. apply elem_of_app. by left.
    + intros q' Hq' Hin Hfile. simpl. rewrite Hent.
      destruct (decide (q' = q)) as [->|Hneq].
      { rewrite bool_decide_eq_true_2 by done. by left. }
      rewrite (bool_decide_eq_false_2 (q' = q)) by done.
      apply elem_of_app in Hin as [Hin|Hin%list_elem_of_singleton].
      * case_bool_decide as Hpre; [|by apply Hdone].
        exfalso.
        assert (entry q' s = Some KDir) as Hd
          by by eapply entry_strict_prefix_dir.
        apply entry_is_dir in Hd. by destruct (resolve q' s) as [[]|].
      * exfalso. apply Hneq. apply render_inj; [|done..].
        by destruct Hq' as (_ & ? & _).
  - (* equal files: left alone *)
    exists w1. split; [done|].
    split; [|split; [|split]].
    + split; [done|]. split; [done|]. split; [done|]. split; [done|].
      exists (evs0 ++ evs). simpl. rewrite Ht, <- !app_assoc.
      split; [done|]. by rewrite !infos_app, Hi, Hinf, app_nil_r.
    + done.
    + intros q'. simpl.
      destruct (Hrel q') as [?|(? & Hin & ?)]; [by left|right].
      split; [done|]. split; [|done]. apply elem_of_app. by left.
    + intros q' Hq' Hin Hfile. simpl.
      apply elem_of_app in Hin as [Hin|Hin%list_elem_of_singleton].
      * by apply Hdone.
      * assert (q' = q) as ->.
        { apply render_inj; [|done..]. by destruct Hq' as (_ & ? & _). }
        right. split.
        { rewrite Hcur. symmetry. by apply Hboth. }
        exists acc.2. by rewrite Hres, Hr2res, Hcore.
Qed.

Lemma update_loop_live items r2 t0 c0 w :
  NoDup items →
  (∀ p, p ∈ items → ∃ q, p = render q ∧ in_both_path cfg s r0 q) →
  (∀ q, in_both_path cfg s r0 q → entry q r2 = entry q r0) →
  (∀ q, visible cfg q → entry q s = Some KDir → entry q r2 = Some KDir) →
  update_inv P cfg s r0 r2 t0 c0 [] w →
  ∃ w', for_each items (update_item P cfg) w = (inr tt, w')
        ∧ update_inv P cfg s r0 r2 t0 c0 items w'.
Proof.
  intros Hnd Hitems Hboth Hdirs Hinv.
  apply (for_each_inv (update_inv P cfg s r0 r2 t0 c0)); [|done].
  intros done x rest w0. by apply update_step_items.
Qed.

(** ** The plan, path by path *)

Lemma scan_all_iff o p :
  wf_root o = true →
  p ∈ (scan_tree cfg o).1 ∪ (scan_tree cfg o).2 ↔
  ∃ q, q ≠ [] ∧ valid_path q ∧ p = render q
       ∧ entry q o ≠ None ∧ visible cfg q.
Proof.
  intros Hwf. split.
  - rewrite elem_of_union, scan_tree_files, scan_tree_dirs by done.
    intros [(q & ? & ? & ? & Hk & ?)|(q & ? & ? & ? & Hk & ?)];
      exists q; repeat split; try done;
      apply entry_is_present; by destruct (resolve q o) as [[]|].
  - intros (q & ? & ? & -> & ? & ?). by apply scan_tree_all.
Qed.

Lemma in_to_add p :
  p ∈ to_add (pass_plan cfg s r0) ↔ ∃ q, p = render q ∧ to_add_path cfg s r0 q.
Proof.
  unfold pass_plan, make_plan. cbn [to_add].
  rewrite elem_of_difference, !scan_all_iff by done. split.
  - intros [(q & Hne & Hv & -> & Hp & Hvis) Hnot]. exists q.
    split; [done|]. repeat split; try done.
    destruct (entry q r0) eqn:Hr; [|done].
    exfalso. apply Hnot. exists q. repeat split; try done. congruence.
  - intros (q & -> & Hne & Hv & Hvis & Hp & Hn). split.
    + by exists q.
    + intros (q' & _ & Hv' & Heq & Hp' & _).
      apply render_inj in Heq; [|done..]. subst q'. done.
Qed.

Lemma in_to_remove p :
  p ∈ to_remove (pass_plan cfg s r0) ↔ ∃ q, p = render q ∧ to_remove_path cfg s r0 q.
Proof.
  unfold pass_plan, make_plan. cbn [to_remove].
  rewrite elem_of_difference, !scan_all_iff by done. split.
  - intros [(q & Hne & Hv & -> & Hp & Hvis) Hnot]. exists q.
    split; [done|]. repeat split; try done.
    destruct (entry q s) eqn:Hr; [|done].
    exfalso. apply Hnot. exists q. repeat split; try done. congruence.
  - intros (q & -> & Hne & Hv & Hvis & Hp & Hn). split.
    + by exists q.
    + intros (q' & _ & Hv' & Heq & Hp' & _).
      apply render_inj in Heq; [|done..]. subst q'. done.
Qed.

Lemma in_in_both p :
  p ∈ in_both (pass_plan cfg s r0) ↔ ∃ q, p = render q ∧ in_both_path cfg s r0 q.
Proof.
  unfold pass_plan, make_plan. cbn [in_both].
  rewrite elem_of_intersection, !scan_all_iff by done. split.
  - intros [(q & Hne & Hv & -> & Hp & Hvis) (q' & _ & Hv' & Heq & Hp' & _)].
    apply render_inj in Heq; [|done..]. subst q'. by exists q.
  - intros (q & -> & Hne & Hv & Hvis & Hp & Hp'). split; by exists q.
Qed.

Lemma iter_elem X p :
  iteration_faithful P → p ∈ set_iter P X ↔ p ∈ X.
Proof. intros Hit. by rewrite (Hit X), elem_of_elements. Qed.

Lemma iter_NoDup X : iteration_faithful P → NoDup (set_iter P X).
Proof. intros Hit. rewrite (Hit X). apply NoDup_elements. Qed.

Lemma invalid_absent q o : wf_opt o → ¬ valid_path q → entry q o = None.
Proof.
  intros Hwf Hnv. destruct (entry q o) eqn:He; [|done].
  exfalso. apply Hnv. apply (wf_present_valid q o); [done|].
  apply entry_is_present. congruence.
Qed.

(** ** One live pass *)

Lemma live_pass w :
  iteration_faithful P →
  source_tree w = s → replica_tree w = r0 → faults w = [] →
  ∃ w1 w2 w3,
    add_loop P cfg (pass_plan cfg s r0) w = (inr tt, w1)
    ∧ remove_loop P cfg (pass_plan cfg s r0) w1 = (inr tt, w2)
    ∧ update_loop P cfg (pass_plan cfg s r0) w2 = (inr tt, w3)
    ∧ live_pass_post P cfg s r0 w w2 w3.
Proof.
  intros Hit Hsrc Hrep Hf.
  pose proof (proj1 (wf_root_spec _) Hs) as [Hsdir Hswf].
  pose proof (proj1 (wf_root_spec _) Hr0) as [Hrdir Hrwf].
  (* the additions *)
  destruct (add_loop_live (set_iter P (to_add (pass_plan cfg s r0)))
              (trace w) (hash_cache w) w) as (w1 & Hrun1 & Hinv1).
  { intros p Hp. apply in_to_add. by apply iter_elem in Hp. }
  { split; [|split; [done|split; [|split]]].
    - split; [done|]. split; [done|]. rewrite Hrep. split; [done|].
      split; [done|]. exists []. by rewrite app_nil_r.
    - intros q (_ & _ & _ & _ & Hn). left. by rewrite Hrep.
    - intros q _. by rewrite Hrep.
    - intros q _ Hin. by apply elem_of_nil in Hin. }
  destruct Hinv1 as ((Hsrc1 & Hf1 & Hwf1 & Hroot1 & e1 & Ht1 & Hi1) & Hc1
                     & Hadd1 & Hfr1 & Hdone1).
  set (r1 := replica_tree w1) in *.
  assert (G1 : ∀ q, to_add_path cfg s r0 q → entry q r1 = entry q s).
  { intros q Hq. apply Hdone1; [done|]. apply iter_elem; [done|].
    apply in_to_add. by exists q. }
  (* the removals *)
  destruct (remove_loop_live (set_iter P (to_remove (pass_plan cfg s r0)))
              r1 (trace w1) (hash_cache w) w1) as (w2 & Hrun2 & Hinv2).
  { intros p Hp. apply in_to_remove. by apply iter_elem in Hp. }
  { split; [|split; [done|split]].
    - split; [done|]. split; [done|]. split; [done|]. split; [done|].
      exists []. by rewrite app_nil_r.
    - intros q. by left.
    - intros q _ Hin. by apply elem_of_nil in Hin. }
  destruct Hinv2 as ((Hsrc2 & Hf2 & Hwf2 & Hroot2 & e2 & Ht2 & Hi2) & Hc2
                     & Hrel2 & Hdone2).
  set (r2 := replica_tree w2) in *.
  assert (G3 : ∀ q, entry q s ≠ None → entry q r2 = entry q r1).
  { intros q Hp. destruct (Hrel2 q) as [?|(_ & q0 & Hpre & Hq0)]; [done|].
    exfalso. destruct Hq0 as (_ & _ & _ & _ & Hn).
    by apply (entry_prefix_present q q0 s Hp Hpre). }
  assert (G4 : ∀ q, to_remove_path cfg s r0 q → entry q r2 = None).
  { intros q Hq. apply Hdone2; [done|]. apply iter_elem; [done|].
    apply in_to_remove. by exists q. }
  assert (G5 : ∀ q, q ≠ [] → visible cfg q → entry q s = None →
            entry q r2 = None).
  { intros q Hne Hvis Hn.
    destruct (decide (valid_path q)) as [Hv|Hnv]; [|by apply invalid_absent].
    destruct (entry q r0) eqn:Hq0.
    - apply G4. repeat split; try done. congruence.
    - destruct (Hrel2 q) as [->|[? _]]; [|done].
      rewrite Hfr1; [done|]. intros (_ & _ & _ & Hp & _). done. }
  assert (G6 : ∀ q, in_both_path cfg s r0 q → entry q r2 = entry q r0).
  { intros q (Hne & Hv & Hvis & Hp & Hp'). rewrite G3 by done.
    apply Hfr1. intros (_ & _ & _ & _ & Hn). done. }
  assert (G7 : ∀ q, visible cfg q → entry q s = Some KDir →
            entry q r2 = Some KDir).
  { intros q Hvis Hd. rewrite G3 by congruence.
    destruct (decide (q = [])) as [->|Hne].
    { rewrite Hfr1; [apply root_r0|]. by intros (? & _). }
    assert (valid_path q) as Hv.
    { apply (wf_present_valid q s); [done|]. apply entry_is_present. congruence. }
    destruct (ancestor_in_replica q) as [Ha|Hr]; try done.
    - by rewrite G1.
    - rewrite Hfr1; [done|]. intros (_ & _ & _ & _ & Hn). congruence. }
  (* the updates *)
  destruct (update_loop_live (set_iter P (in_both (pass_plan cfg s r0)))
              r2 (trace w2) (hash_cache w) w2) as (w3 & Hrun3 & Hinv3);
    try done.
  { by apply iter_NoDup. }
  { intros p Hp. apply in_in_both. by apply iter_elem in Hp. }
  { split; [|split; [done|split]].
    - split; [done|]. split; [done|]. split; [done|]. split; [done|].
      exists []. by rewrite app_nil_r.
    - intros q. by left.
    - intros q _ Hin. by apply elem_of_nil in Hin. }
  destruct Hinv3 as ((Hsrc3 & Hf3 & Hwf3 & Hroot3 & e3 & Ht3 & Hi3) & Hc3
                     & Hrel3 & Hdone3).
  set (r3 := replica_tree w3) in *.
  exists w1, w2, w3. split; [done|]. split; [done|]. split; [done|].
  unfold live_pass_post. fold r2 r3.
  split; [done|]. split; [done|].
  split. { apply wf_root_spec. done. }
  split; [done|].
  split.
  { intros q Hne Hvis Hn. split; [by apply G5|].
    destruct (Hrel3 q) as [->|((_ & _ & _ & Hp & _) & _)]; [by apply G5|done]. }
  assert (R4 : ∀ q, visible cfg q → entry q s ≠ None →
            entry q r2 ≠ None ∧ (entry q r2 = Some KDir ↔ entry q s = Some KDir)).
  { intros q Hvis Hp. rewrite G3 by done.
    destruct (decide (q = [])) as [->|Hne].
    { rewrite Hfr1 by (by intros (? & _)). rewrite root_r0, root_s. done. }
    assert (valid_path q) as Hv.
    { apply (wf_present_valid q s); [done|]. by apply entry_is_present. }
    destruct (entry q r0) eqn:Hq0.
    - rewrite Hfr1 by (intros (_ & _ & _ & _ & Hn); congruence).
      rewrite Hq0. split; [done|]. rewrite <- Hq0. symmetry.
      apply Hnc; [done..|congruence].
    - rewrite G1 by done. done. }
  split.
  { intros q Hvis Hp.
    destruct (Hrel3 q) as [->|(_ & _ & ->)]; [by apply R4|done]. }
  split.
  { intros q Hne Hvis Hfile.
    assert (entry q s ≠ None) as Hp.
    { apply entry_is_present. by destruct (resolve q s). }
    assert (valid_path q) as Hv.
    { apply (wf_present_valid q s); [done|]. by apply entry_is_present. }
    destruct (entry q r0) eqn:Hq0.
    - assert (in_both_path cfg s r0 q) as Hb.
      { repeat split; try done. congruence. }
      destruct (Hdone3 q Hb) as [?|[Hsame (c & Hcore)]]; [|done|by left|right].
      { apply iter_elem; [done|]. apply in_in_both. by exists q. }
      exists c. rewrite <- Hcore. f_equal. f_equal. f_equal.
      apply entry_is_file in Hfile as (cs & ms & Hks).
      destruct (entry q r2) as [[c2 m2|]|] eqn:Hk2.
      + rewrite (entry_file_resolve q r2 r3 c2 m2 Hk2) by by rewrite Hk2.
        by rewrite (entry_file_resolve q r2 r2 c2 m2 Hk2).
      + exfalso. apply (R4 q Hvis Hp) in Hk2. congruence.
      + exfalso. by apply (R4 q Hvis Hp).
    - left. destruct (Hrel3 q) as [->|(_ & _ & ->)]; [|done].
      rewrite G3 by done. apply G1. by repeat split. }
  split.
  { exists (e1 ++ e2 ++ e3). rewrite Ht3, Ht2, Ht1, <- !app_assoc.
    split; [done|]. by rewrite !infos_app, Hi1, Hi2, Hi3. }
  done.
Qed.

End Pass.

(** * The pass as a whole *)

Lemma clean_start_spec cfg w :
  clean_start cfg w = true ↔
  wf_root (source_tree w) = true ∧ wf_root (replica_tree w) = true
  ∧ no_type_conflict cfg w = true ∧ dry_run cfg = false
  ∧ faults w = [] ∧ (0 < max_retries cfg)%Z.
Proof.
  unfold clean_start.
  rewrite !andb_true_iff, !bool_decide_eq_true, negb_true_iff. tauto.
Qed.

Lemma no_type_conflict_paths cfg w q :
  wf_root (source_tree w) = true → wf_root (replica_tree w) = true →
  no_type_conflict cfg w = true →
  visible cfg q →
  entry q (source_tree w) ≠ None → entry q (replica_tree w) ≠ None →
  (entry q (source_tree w) = Some KDir ↔ entry q (replica_tree w) = Some KDir).
Proof.
  intros Hs Hr Hnc Hvis Hps Hpr.
  apply bool_decide_eq_true in Hnc as [Hfd Hdf].
  pose proof (proj1 (wf_root_spec _) Hs) as [Hsdir Hswf].
  pose proof (proj1 (wf_root_spec _) Hr) as [Hrdir Hrwf].
  destruct (decide (q = [])) as [->|Hne].
  { split; intros _; by apply entry_nil_dir. }
  assert (valid_path q) as Hv.
  { apply (wf_present_valid q (source_tree w)); [done|]. by apply entry_is_present. }
  split; intros Hd.
  - destruct (entry q (replica_tree w)) as [[c m|]|] eqn:Hk; [|done|done].
    exfalso. apply (not_elem_of_empty (C:=gset string) (render q)).
    rewrite <- Hdf. apply elem_of_intersection. split.
    + apply scan_tree_dirs; [done|]. exists q. repeat split; try done.
      by apply entry_is_dir.
    + apply scan_tree_files; [done|]. exists q. repeat split; try done.
      apply entry_is_file. eauto.
  - destruct (entry q (source_tree w)) as [[c m|]|] eqn:Hk; [|done|done].
    exfalso. apply (not_elem_of_empty (C:=gset string) (render q)).
    rewrite <- Hfd. apply elem_of_intersection. split.
    + apply scan_tree_files; [done|]. exists q. repeat split; try done.
      apply entry_is_file. eauto.
    + apply scan_tree_dirs; [done|]. exists q. repeat split; try done.
      by apply entry_is_dir.
Qed.

Lemma synchronize_unfold P cfg w :
  synchronize P cfg w =
  (add_loop P cfg (pass_plan cfg (source_tree w) (replica_tree w)) ;;;
   remove_loop P cfg (pass_plan cfg (source_tree w) (replica_tree w)) ;;;
   update_loop P cfg (pass_plan cfg (source_tree w) (replica_tree w)) ;;;
   when (use_hash_cache cfg && negb (dry_run cfg)) (save_cache P cfg)) w.
Proof. reflexivity. Qed.

(** The three loops of a clean live pass. *)
Lemma clean_pass P cfg w :
  clean_start cfg w = true → iteration_faithful P →
  ∃ w1 w2 w3,
    add_loop P cfg (pass_plan cfg (source_tree w) (replica_tree w)) w
    = (inr tt, w1)
    ∧ remove_loop P cfg (pass_plan cfg (source_tree w) (replica_tree w)) w1
      = (inr tt, w2)
    ∧ update_loop P cfg (pass_plan cfg (source_tree w) (replica_tree w)) w2
      = (inr tt, w3)
    ∧ live_pass_post P cfg (source_tree w) (replica_tree w) w w2 w3.
Proof.
  intros (Hs & Hr & Hnc & Hlive & Hf & Hn)%clean_start_spec Hit.
  apply live_pass; try done.
  intros q. by apply no_type_conflict_paths.
Qed.

Lemma same_shape_scan cfg s r :
  wf_root s = true → wf_root r = true →
  (∀ q, q ≠ [] → visible cfg q → entry q s = None → entry q r = None) →
  (∀ q, visible cfg q → entry q s ≠ None →
     entry q r ≠ None ∧ (entry q r = Some KDir ↔ entry q s = Some KDir)) →
  scan_tree cfg r = scan_tree cfg s.
Proof.
  intros Hs Hr Hgone Hkept.
  assert (Hshape : ∀ q, q ≠ [] → visible cfg q →
    is_file (resolve q r) = is_file (resolve q s)
    ∧ is_dir (resolve q r) = is_dir (resolve q s)).
  { intros q Hne Hvis.
    pose proof (Hkept q Hvis) as Hk. pose proof (Hgone q Hne Hvis) as Hg.
    unfold entry in Hk, Hg.
    destruct (resolve q s) as [[c m|st es]|],
             (resolve q r) as [[c' m'|st' es']|]; simpl in *; try done.
    - destruct Hk as [_ [H1 _]]; [done|]. by specialize (H1 eq_refl).
    - by destruct Hk as [? _].
    - destruct Hk as [_ [_ H2]]; [done|]. by specialize (H2 eq_refl).
    - by destruct Hk as [? _].
    - by specialize (Hg eq_refl).
    - by specialize (Hg eq_refl). }
  destruct (scan_tree cfg r) as [rf rd] eqn:Hsr.
  destruct (scan_tree cfg s) as [sf sd] eqn:Hss.
  f_equal; apply set_eq; intros p.
  - change rf with (rf, rd).1. change sf with (sf, sd).1.
    rewrite <- Hsr, <- Hss, !scan_tree_files by done.
    split; intros (q & Hne & Hv & -> & Hk & Hvis); exists q;
      repeat split; try done; destruct (Hshape q Hne Hvis) as [Hf _];
      congruence.
  - change rd with (rf, rd).2. change sd with (sf, sd).2.
    rewrite <- Hsr, <- Hss, !scan_tree_dirs by done.
    split; intros (q & Hne & Hv & -> & Hk & Hvis); exists q;
      repeat split; try done; destruct (Hshape q Hne Hvis) as [_ Hd];
      congruence.
Qed.


Lemma demo_iteration_faithful : iteration_faithful demo_platform.
Proof. intros X. reflexivity. Qed.


Lemma gset_neq_by_compute (X Y : gset string) :
  bool_decide (X = Y) = false → X ≠ Y.
Proof. by intros H%bool_decide_eq_false. Qed.


(** * A live pass whose operations may fail

    Nothing is assumed here of the faults or of [max_retries]: an operation
    under [_retry_operation] takes effect once or not at all, and the pass
    goes on either way. *)

Section Rough.
Context (P : platform) (cfg : config).
Hypothesis Hlive : dry_run cfg = false.

Lemma retry_loop_any func args op attempts : ∀ w,
  ∃ r' f' evs,
    retry_loop cfg attempts func args op w
    = (inr tt, after w r' (hash_cache w) f' evs)
    ∧ infos evs = []
    ∧ (r' = replica_tree w ∨ op (replica_tree w) = inr r').
Proof.
  induction attempts as [|a rest IH]; intros w.
  - exists (replica_tree w), (faults w), [LogError func]. by auto.
  - cbn [retry_loop]. unfold bind at 1, attempt.
    set (w1 := set_faults (tail (faults w)) (emit (Call func args) w)).
    assert (∀ e : exn, ∃ r' f' evs,
      (log (LogWarning func (a + 1) (max_retries cfg)) ;;;
       log (Sleep 1) ;;; retry_loop cfg rest func args op) w1
      = (inr tt, after w r' (hash_cache w) f' evs)
      ∧ infos evs = []
      ∧ (r' = replica_tree w ∨ op (replica_tree w) = inr r')) as Hfail.
    { intros _. unfold bind at 1, log at 1. unfold bind at 1, log at 1.
      destruct (IH (emit (Sleep 1)
                      (emit (LogWarning func (a + 1) (max_retries cfg)) w1)))
        as (r' & f' & evs & Hrun & Hinf & Hr).
      rewrite Hrun. exists r', f', ([Call func args;
        LogWarning func (a + 1) (max_retries cfg); Sleep 1] ++ evs).
      split; [|split; [by rewrite infos_app, Hinf|exact Hr]].
      unfold after, emit, w1, set_faults. simpl.
      by rewrite <- !app_assoc. }
    destruct (head (faults w)) as [[]|].
    + apply (Hfail OSError).
    + destruct (op (replica_tree w)) as [e|r] eqn:Hop; [apply (Hfail e)|].
      exists r, (tail (faults w)), [Call func args]. by auto.
    + destruct (op (replica_tree w)) as [e|r] eqn:Hop; [apply (Hfail e)|].
      exists r, (tail (faults w)), [Call func args]. by auto.
Qed.

Lemma retry_operation_any func args op w :
  ∃ r' f' evs,
    _retry_operation cfg func args op w
    = (inr tt, after w r' (hash_cache w) f' evs)
    ∧ infos evs = []
    ∧ (r' = replica_tree w ∨ op (replica_tree w) = inr r').
Proof. apply retry_loop_any. Qed.

(** [copy_item] of a regular file: the directories above it are made, and
    the file is written or not. *)
Lemma copy_item_file_any q c m w :
  valid_path q →
  resolve q (source_tree w) = Some (File c m) →
  wf_opt (replica_tree w) → is_dir (replica_tree w) = true →
  (∀ q', q' `prefix_of` q → q' ≠ q →
     entry q' (replica_tree w) = None ∨ entry q' (replica_tree w) = Some KDir) →
  is_dir (resolve q (replica_tree w)) = false →
  ∃ r' f' evs,
    copy_item P cfg (render q) w
    = (inr tt, after w r' (hash_cache w) f' evs)
    ∧ infos evs = [LogInfo ("File copied/updated: "
                            +:+ abs_path cfg (InReplica (render q)))]
    ∧ wf_opt r' ∧ is_dir r' = true
    ∧ ∀ q', entry q' r' = entry q' (replica_tree w)
            ∨ (q' = q ∧ entry q' r' = Some (KFile c m))
            ∨ (q' `prefix_of` q ∧ q' ≠ q ∧ entry q' r' = Some KDir).
Proof.
  intros Hq Hsrc Hwf Hroot Hchain Hnd. unfold copy_item.
  unfold bind at 1, os_path_isdir at 1. rewrite node_at_source, Hsrc by done.
  cbn [is_dir].
  destruct (decide (q = [])) as [->|Hne].
  { simpl in Hnd. congruence. }
  destruct (exists_last Hne) as (parent & name & ->).
  apply Forall_app in Hq as Hq'. destruct Hq' as [Hparent [Hname _]%Forall_cons].
  cbn [dirname_loc]. rewrite os_path_dirname_render by done.
  destruct (ensure_dir_exists_live P cfg parent w)
    as (r1 & ev1 & Hrun & Hinf & Hmade); try done.
  { intros q' Hq'. apply Hchain; [by apply prefix_app_r|].
    intros ->. by apply (prefix_snoc_not parent name). }
  rewrite (bind_ok _ _ _ _ _ Hrun).
  destruct Hmade as (Hwf1 & Hroot1 & Hent1).
  assert (entry (parent ++ [name]) r1 = entry (parent ++ [name]) (replica_tree w))
    as Hsame.
  { rewrite Hent1. rewrite bool_decide_eq_false_2; [done|].
    apply prefix_snoc_not. }
  assert (is_dir (resolve (parent ++ [name]) r1) = false) as Hnd1.
  { apply not_true_is_false. intros Hd%entry_is_dir.
    rewrite Hsame in Hd. apply entry_is_dir in Hd. congruence. }
  unfold bind at 1. rewrite Hlive. cbn [negb when].
  set (w1 := after w r1 (hash_cache w) (faults w) ev1).
  destruct (retry_operation_any "copy2"
              [abs_path cfg (InSource (render (parent ++ [name])));
               abs_path cfg (InReplica (render (parent ++ [name])))]
              (shutil_copy2 (source_tree w1)
                 (split_path (render (parent ++ [name])))
                 (split_path (render (parent ++ [name])))) w1)
    as (r' & f' & ev2 & Hretry & Hinf2 & Hr').
  rewrite Hretry. unfold log, emit, after. simpl.
  eexists r', f', (ev1 ++ ev2 ++ [_]). rewrite <- !app_assoc. split; [done|].
  split; [by rewrite !infos_app, Hinf, Hinf2|].
  cbn [replica_tree source_tree after w1] in Hr'.
  destruct Hr' as [->|Hw].
  { (* the file was not written *)
    split; [done|]. split; [done|]. intros q'. rewrite Hent1.
    case_bool_decide as Hpre; [|by left].
    right. right. split; [by apply prefix_app_r|]. split; [|done].
    intros ->. by apply (prefix_snoc_not parent name). }
  unfold shutil_copy2 in Hw. rewrite split_path_render in Hw by done.
  rewrite Hnd1, Hsrc in Hw.
  split; [exact (write_wf _ _ _ _ _ Hwf1 Hq Hw)|].
  pose proof (write_entry _ _ _ _ _ Hw) as Hent'.
  split.
  { apply entry_nil_dir. rewrite Hent'.
    rewrite bool_decide_eq_false_2 by by destruct parent.
    rewrite bool_decide_eq_false_2.
    - by apply entry_nil_dir.
    - intros ?%prefix_nil_inv. by destruct parent. }
  intros q'. rewrite Hent'. case_bool_decide as Heq; [by right; left|].
  case_bool_decide as Hunder.
  - left. destruct Hunder as [t ->]. symmetry.
    apply entry_None_resolve. rewrite resolve_app.
    destruct (resolve (parent ++ [name]) (replica_tree w)) as [[]|] eqn:Hr;
      [|done|by rewrite resolve_None].
    apply resolve_File. intros ->. by rewrite app_nil_r in Heq.
  - rewrite Hent1. case_bool_decide as Hp1; [|by left].
    right. right. split; [by apply prefix_app_r|]. done.
Qed.

(** [copy_item] of a file or of a directory: every path is as it was, or
    it lies on the way to the item and is now as in the source. *)
Lemma copy_item_any s q w :
  source_tree w = s → valid_path q → q ≠ [] → entry q s ≠ None →
  wf_opt (replica_tree w) → is_dir (replica_tree w) = true →
  (∀ q', q' `prefix_of` q → q' ≠ q →
     entry q' s = Some KDir
     ∧ (entry q' (replica_tree w) = None
        ∨ entry q' (replica_tree w) = Some KDir)) →
  (entry q s = Some KDir →
     entry q (replica_tree w) = None ∨ entry q (replica_tree w) = Some KDir) →
  (entry q s ≠ Some KDir → entry q (replica_tree w) ≠ Some KDir) →
  ∃ r' f' evs,
    copy_item P cfg (render q) w = (inr tt, after w r' (hash_cache w) f' evs)
    ∧ infos evs = [copy_msg cfg s (render q)]
    ∧ wf_opt r' ∧ is_dir r' = true
    ∧ ∀ q', entry q' r' = entry q' (replica_tree w)
            ∨ (q' `prefix_of` q ∧ entry q' r' = entry q' s).
Proof.
  intros Hsrc Hq Hne Hpres Hwf Hroot Hchain Hd Hnd.
  unfold copy_msg. rewrite split_path_render by done.
  destruct (resolve q s) as [[c m|st es]|] eqn:Hres.
  - (* a regular file *)
    destruct (copy_item_file_any q c m w)
      as (r' & f' & evs & Hrun & Hinf & Hwf' & Hroot' & Hent); try done.
    { by rewrite Hsrc. }
    { intros q' Hpre Hneq. by apply Hchain. }
    { apply not_true_is_false. intros Hdir%entry_is_dir.
      apply Hnd; [|done]. unfold entry. by rewrite Hres. }
    exists r', f', evs. split; [exact Hrun|]. split; [exact Hinf|].
    split; [done|]. split; [done|]. intros q'.
    destruct (Hent q') as [?|[[-> Hk]|(Hpre & Hneq & Hk)]]; [by left|right..].
    + split; [done|]. rewrite Hk. unfold entry. by rewrite Hres.
    + split; [done|]. rewrite Hk. symmetry. by apply Hchain.
  - (* a directory *)
    assert (entry q s = Some KDir) as Hks by (unfold entry; by rewrite Hres).
    destruct (copy_item_dir_live P cfg q w)
      as (r' & evs & Hrun & Hinf & Hwf' & Hroot' & Hent); try done.
    { by rewrite Hsrc, Hres. }
    { intros q' Hq'. destruct (decide (q' = q)) as [->|Hneq].
      - by apply Hd.
      - by apply Hchain. }
    exists r', (faults w), evs. split; [done|]. split; [exact Hinf|].
    split; [done|]. split; [done|]. intros q'. rewrite Hent.
    case_bool_decide as Hpre; [|by left]. right. split; [done|].
    destruct (decide (q' = q)) as [->|Hneq]; [done|].
    symmetry. by apply Hchain.
  - exfalso. apply Hpres. unfold entry. by rewrite Hres.
Qed.

(** [remove_item]: every path is as it was, or it lay at or below the item
    and is gone. *)
Lemma remove_item_any q w :
  valid_path q → q ≠ [] →
  wf_opt (replica_tree w) → is_dir (replica_tree w) = true →
  ∃ r' f' evs,
    remove_item cfg (render q) w = (inr tt, after w r' (hash_cache w) f' evs)
    ∧ infos evs = [remove_msg cfg (render q)]
    ∧ wf_opt r' ∧ is_dir r' = true
    ∧ ∀ q', entry q' r' = entry q' (replica_tree w)
            ∨ (q `prefix_of` q' ∧ entry q' r' = None).
Proof.
  intros Hq Hne Hwf Hroot. unfold remove_item.
  rewrite Hlive. cbn [negb when].
  set (f := if is_dir (resolve q (replica_tree w))
            then rmtree_edit else remove_edit).
  set (name := if is_dir (resolve q (replica_tree w))
               then "rmtree" else "remove").
  match goal with
  | |- context [bind ?inner _ w] =>
      assert (inner w
              = _retry_operation cfg name [abs_path cfg (InReplica (render q))]
                  (update_at q f) w) as Hinner
  end.
  { unfold bind, os_path_isdir. rewrite node_at_replica by done.
    rewrite split_path_render by done. unfold f, name.
    by destruct (is_dir (resolve q (replica_tree w))). }
  unfold bind at 1. rewrite Hinner. clear Hinner.
  assert (Hf' : f = remove_edit ∨ f = rmtree_edit).
  { unfold f. destruct (is_dir (resolve q (replica_tree w))); auto. }
  destruct (retry_operation_any name [abs_path cfg (InReplica (render q))]
              (update_at q f) w) as (r' & f' & evs & Hrun & Hinf & Hr').
  rewrite Hrun. unfold log, emit, after, remove_msg. simpl.
  eexists r', f', (evs ++ [_]). rewrite <- app_assoc.
  split; [reflexivity|]. split; [by rewrite infos_app, Hinf|].
  destruct Hr' as [->|Hup].
  { split; [done|]. split; [done|]. intros q'. by left. }
  pose proof (unlink_entry _ _ _ _ Hf' Hup) as Hent.
  split; [exact (unlink_wf _ _ _ _ Hf' Hwf Hq Hup)|]. split.
  { apply entry_nil_dir. rewrite Hent.
    rewrite bool_decide_eq_false_2; [by apply entry_nil_dir|].
    by intros ?%prefix_nil_inv. }
  intros q'. rewrite Hent. case_bool_decide; [by right|by left].
Qed.

End Rough.

Section RoughPass.
Context (P : platform) (cfg : config) (s r0 : option node).
Hypothesis Hs : wf_root s = true.
Hypothesis Hr0 : wf_root r0 = true.
Hypothesis Hlive : dry_run cfg = false.
Hypothesis Hnc : ∀ q, visible cfg q → entry q s ≠ None → entry q r0 ≠ None →
  (entry q s = Some KDir ↔ entry q r0 = Some KDir).

(** What [copy_item] needs of the replica follows from [same_kinds]. *)
Lemma same_kinds_chain q r :
  is_dir r = true → same_kinds cfg s r →
  visible cfg q → entry q s ≠ None →
  (∀ q', q' `prefix_of` q → q' ≠ q →
     entry q' s = Some KDir ∧ (entry q' r = None ∨ entry q' r = Some KDir))
  ∧ (entry q s = Some KDir → entry q r = None ∨ entry q r = Some KDir)
  ∧ (entry q s ≠ Some KDir → entry q r ≠ Some KDir).
Proof.
  intros Hroot Hsame Hvis Hps. split; [|split].
  - intros q' Hpre Hneq.
    assert (entry q' s = Some KDir) as Hd
      by by apply (entry_strict_prefix_dir q q' s).
    split; [done|].
    destruct (entry q' r) as [k|] eqn:Hk; [right|by left].
    rewrite <- Hk. apply Hsame; [by eapply visible_prefix|congruence..|done].
  - intros Hd. destruct (entry q r) as [k|] eqn:Hk; [right|by left].
    rewrite <- Hk. apply Hsame; [done|congruence..|done].
  - intros Hnd Hd. apply Hnd. apply Hsame; [done..|congruence|done].
Qed.

Lemma same_kinds_copy q r r' :
  same_kinds cfg s r →
  (∀ q', entry q' r' = entry q' r
         ∨ (q' `prefix_of` q ∧ entry q' r' = entry q' s)) →
  same_kinds cfg s r'.
Proof.
  intros Hsame Hch q' Hvis Hps Hpr.
  destruct (Hch q') as [Heq|[_ Heq]]; rewrite Heq in *; [by apply Hsame|done].
Qed.

Lemma same_kinds_remove q r r' :
  same_kinds cfg s r →
  (∀ q', entry q' r' = entry q' r
         ∨ (q `prefix_of` q' ∧ entry q' r' = None)) →
  same_kinds cfg s r'.
Proof.
  intros Hsame Hch q' Hvis Hps Hpr.
  destruct (Hch q') as [Heq|[_ Heq]]; rewrite Heq in *; [by apply Hsame|done].
Qed.

(** An item of [in_both] other than the one copied is left as it was. *)
Lemma pending_copy q r r' q' :
  visible cfg q → entry q s ≠ None →
  (entry q' r' = entry q' r
   ∨ (q' `prefix_of` q ∧ entry q' r' = entry q' s)) →
  in_both_path cfg s r0 q' → q' ≠ q →
  entry q' r = entry q' r0 → entry q' r' = entry q' r0.
Proof.
  intros Hvis Hps [->|[Hpre ->]] (_ & _ & Hvis' & Hps' & Hpr') Hneq Hold;
    [done|].
  assert (entry q' s = Some KDir) as Hd
    by by apply (entry_strict_prefix_dir q q' s).
  rewrite Hd. symmetry. by apply Hnc.
Qed.

Lemma pending_remove q r r' q' :
  entry q s = None →
  (entry q' r' = entry q' r ∨ (q `prefix_of` q' ∧ entry q' r' = None)) →
  in_both_path cfg s r0 q' →
  entry q' r = entry q' r0 → entry q' r' = entry q' r0.
Proof.
  intros Hn [->|[Hpre _]] (_ & _ & _ & Hps' & _) Hold; [done|].
  exfalso. by apply (entry_prefix_present q' q s Hps' Hpre).
Qed.

Lemma add_step_any items t0 c0 :
  (∀ p, p ∈ items → ∃ q, p = render q ∧ to_add_path cfg s r0 q) →
  ∀ done x rest w,
    items = done ++ x :: rest →
    rough_inv cfg s r0 t0 (copy_msg cfg s <$> done) c0 [] w →
    ∃ w', copy_item P cfg x w = (inr tt, w')
          ∧ rough_inv cfg s r0 t0 (copy_msg cfg s <$> (done ++ [x])) c0 [] w'.
Proof.
  intros Hitems done x rest w Heq Hinv.
  destruct (Hitems x) as (q & -> & Hq).
  { rewrite Heq. apply elem_of_app. right. by left. }
  destruct Hq as (Hne & Hval & Hvis & Hps & Hnone).
  destruct Hinv as (Hsrc & Hwf & Hroot & Hc & (evs0 & Ht & Hi) & Hsame & Hpend).
  destruct (same_kinds_chain q (replica_tree w)) as (Hchain & Hd & Hnd);
    try done.
  destruct (copy_item_any P cfg Hlive s q w)
    as (r' & f' & evs & Hrun & Hinf & Hwf' & Hroot' & Hent); try done.
  eexists. split; [exact Hrun|].
  split; [done|]. split; [done|]. split; [done|]. split; [done|].
  split; [|split].
  - exists (evs0 ++ evs). simpl. rewrite Ht, <- app_assoc. split; [done|].
    by rewrite infos_app, Hi, Hinf, fmap_app.
  - by apply (same_kinds_copy q (replica_tree w)).
  - intros q' Hq' Hnot. apply (pending_copy q (replica_tree w)); try done.
    + intros ->. by destruct Hq' as (_ & _ & _ & _ & ?).
    + by apply Hpend.
Qed.

Lemma remove_step_any items t0 c0 :
  (∀ p, p ∈ items → ∃ q, p = render q ∧ to_remove_path cfg s r0 q) →
  ∀ done x rest w,
    items = done ++ x :: rest →
    rough_inv cfg s r0 t0 (remove_msg cfg <$> done) c0 [] w →
    ∃ w', remove_item cfg x w = (inr tt, w')
          ∧ rough_inv cfg s r0 t0 (remove_msg cfg <$> (done ++ [x])) c0 [] w'.
Proof.
  intros Hitems done x rest w Heq Hinv.
  destruct (Hitems x) as (q & -> & Hq).
  { rewrite Heq. apply elem_of_app. right. by left. }
  destruct Hq as (Hne & Hval & Hvis & Hpr & Hnone).
  destruct Hinv as (Hsrc & Hwf & Hroot & Hc & (evs0 & Ht & Hi) & Hsame & Hpend).
  destruct (remove_item_any cfg Hlive q w)
    as (r' & f' & evs & Hrun & Hinf & Hwf' & Hroot' & Hent); try done.
  eexists. split; [exact Hrun|].
  split; [done|]. split; [done|]. split; [done|]. split; [done|].
  split; [|split].
  - exists (evs0 ++ evs). simpl. rewrite Ht, <- app_assoc. split; [done|].
    by rewrite infos_app, Hi, Hinf, fmap_app.
  - by apply (same_kinds_remove q (replica_tree w)).
  - intros q' Hq' Hnot. apply (pending_remove q (replica_tree w)); try done.
    by apply Hpend.
Qed.

Lemma update_step_any items t0 c0 :
  NoDup items →
  (∀ p, p ∈ items → ∃ q, p = render q ∧ in_both_path cfg s r0 q) →
  ∀ done x rest w,
    items = done ++ x :: rest →
    rough_inv cfg s r0 t0 (update_outcome P cfg s r0 done c0).1
      (update_outcome P cfg s r0 done c0).2 done w →
    ∃ w', update_item P cfg x w = (inr tt, w')
          ∧ rough_inv cfg s r0 t0
              (update_outcome P cfg s r0 (done ++ [x]) c0).1
              (update_outcome P cfg s r0 (done ++ [x]) c0).2 (done ++ [x]) w'.
Proof.
  intros Hnodup Hitems done x rest w Heq Hinv.
  destruct (Hitems x) as (q & -> & Hq).
  { rewrite Heq. apply elem_of_app. right. by left. }
  pose proof Hq as (Hne & Hval & Hvis & Hps & Hpr).
  assert (render q ∉ done) as Hfresh.
  { rewrite Heq in Hnodup. apply NoDup_app in Hnodup as (_ & Hdisj & _).
    intros Hin. apply (Hdisj _ Hin). by left. }
  destruct Hinv as (Hsrc & Hwf & Hroot & Hc & (evs0 & Ht & Hi) & Hsame & Hpend).
  assert (entry q (replica_tree w) = entry q r0) as Hcur by by apply Hpend.
  assert (Hrest : ∀ q', in_both_path cfg s r0 q' →
            render q' ∉ (done ++ [render q]) →
            (render q' ∉ done) ∧ q' ≠ q).
  { intros q' _ Hnot. split.
    - intros Hin. apply Hnot. apply elem_of_app. by left.
    - intros ->. apply Hnot. apply elem_of_app. right. by left. }
  rewrite update_outcome_snoc.
  set (acc := update_outcome P cfg s r0 done c0) in *.
  unfold update_item. unfold bind at 1, os_path_isfile at 1.
  rewrite node_at_source, Hsrc by done.
  unfold update_step. rewrite split_path_render by done.
  destruct (resolve q s) as [[c m|st es]|] eqn:Hres; cbn [is_file].
  2:{ (* a directory of the source: nothing to do *)
      exists w. split; [done|].
      split; [done|]. split; [done|]. split; [done|]. split; [done|].
      split; [by exists evs0|]. split; [done|].
      intros q' Hq' Hnot. apply Hpend; [done|]. by apply Hrest. }
  2:{ exfalso. apply Hps. unfold entry. by rewrite Hres. }
  (* a regular file of the source *)
  assert (entry q s = Some (KFile c m)) as Hks by (unfold entry; by rewrite Hres).
  assert (∃ c' m', entry q r0 = Some (KFile c' m')) as (c' & m' & Hkr).
  { destruct (entry q r0) as [[c' m'|]|] eqn:Hk; [by eauto| |done].
    exfalso. assert (entry q s = Some KDir); [|congruence].
    apply Hnc; [done|congruence|congruence|done]. }
  assert (resolve q r0 = Some (File c' m')) as Hr0res
    by by apply (entry_file_resolve q r0 r0 c' m').
  assert (resolve q (replica_tree w) = Some (File c' m')) as Hrres
    by by apply (entry_file_resolve q r0 _ c' m').
  rewrite Hr0res.
  unfold bind at 1. rewrite files_differ_run.
  rewrite node_at_source, node_at_replica, Hsrc, Hres, Hrres, Hc by done.
  destruct (files_differ_core_files P cfg (InSource (render q))
              (InReplica (render q)) c m c' m' acc.2)
    as (b & cache' & evs & Hcore & Hinf & _).
  rewrite Hcore.
  set (w1 := after w (replica_tree w) cache' (faults w) evs).
  destruct b; cbn [when].
  - (* differing files: the copy *)
    destruct (same_kinds_chain q (replica_tree w)) as (Hchain & Hd & Hnd);
      try done.
    destruct (copy_item_any P cfg Hlive s q w1)
      as (r' & f' & evs' & Hrun & Hinf' & Hwf' & Hroot' & Hent); try done.
    eexists. split; [exact Hrun|].
    split; [done|]. split; [done|]. split; [done|]. split; [done|].
    split; [|split].
    + exists (evs0 ++ evs ++ evs'). simpl. rewrite Ht, <- !app_assoc.
      split; [done|]. by rewrite !infos_app, Hi, Hinf, Hinf'.
    + by apply (same_kinds_copy q (replica_tree w)).
    + intros q' Hq' Hnot. destruct (Hrest q' Hq' Hnot) as [Hnd' Hneq].
      apply (pending_copy q (replica_tree w)); try done.
      by apply Hpend.
  - (* equal files: left alone *)
    exists w1. split; [done|].
    split; [done|]. split; [done|]. split; [done|]. split; [done|].
    split; [|split; [done|]].
    + exists (evs0 ++ evs). simpl. rewrite Ht, <- !app_assoc.
      split; [done|]. by rewrite !infos_app, Hi, Hinf, app_nil_r.
    + intros q' Hq' Hnot. apply Hpend; [done|]. by apply Hrest.
Qed.

(** The three loops of a live pass, whatever fails in it: each returns,
    and the copy and removal lines logged are those of the plan. *)
Lemma rough_pass w :
  iteration_faithful P →
  source_tree w = s → replica_tree w = r0 →
  ∃ w1 w2 w3,
    add_loop P cfg (pass_plan cfg s r0) w = (inr tt, w1)
    ∧ remove_loop P cfg (pass_plan cfg s r0) w1 = (inr tt, w2)
    ∧ update_loop P cfg (pass_plan cfg s r0) w2 = (inr tt, w3)
    ∧ ∃ evs, trace w3 = trace w ++ evs
        ∧ infos evs
          = (copy_msg cfg s <$> set_iter P (to_add (pass_plan cfg s r0)))
            ++ (remove_msg cfg <$> set_iter P (to_remove (pass_plan cfg s r0)))
            ++ (update_outcome P cfg s r0
                  (set_iter P (in_both (pass_plan cfg s r0))) (hash_cache w)).1.
Proof.
  intros Hit Hsrc Hrep.
  pose proof (proj1 (wf_root_spec _) Hr0) as [Hrdir Hrwf].
  set (pl := pass_plan cfg s r0).
  (* the additions *)
  destruct (for_each_inv
              (λ done, rough_inv cfg s r0 (trace w) (copy_msg cfg s <$> done)
                         (hash_cache w) [])
              (copy_item P cfg) (set_iter P (to_add pl))) with (w := w)
    as (w1 & Hrun1 & Hinv1).
  { apply add_step_any. intros p Hp. apply in_to_add; [done..|].
    by apply iter_elem in Hp. }
  { split; [done|]. rewrite Hrep. split; [done|]. split; [done|].
    split; [done|]. split; [exists []; by rewrite app_nil_r|].
    split; [|done]. intros q Hvis Hps Hpr. symmetry. by apply Hnc. }
  destruct Hinv1 as (Hsrc1 & Hwf1 & Hroot1 & Hc1 & (e1 & Ht1 & Hi1) & Hsame1
                     & Hpend1).
  (* the removals *)
  destruct (for_each_inv
              (λ done, rough_inv cfg s r0 (trace w1) (remove_msg cfg <$> done)
                         (hash_cache w) [])
              (remove_item cfg) (set_iter P (to_remove pl))) with (w := w1)
    as (w2 & Hrun2 & Hinv2).
  { apply remove_step_any. intros p Hp. apply in_to_remove; [done..|].
    by apply iter_elem in Hp. }
  { split; [done|]. split; [done|]. split; [done|]. split; [done|].
    split; [exists []; by rewrite app_nil_r|]. done. }
  destruct Hinv2 as (Hsrc2 & Hwf2 & Hroot2 & Hc2 & (e2 & Ht2 & Hi2) & Hsame2
                     & Hpend2).
  (* the updates *)
  destruct (for_each_inv
              (λ done, rough_inv cfg s r0 (trace w2)
                         (update_outcome P cfg s r0 done (hash_cache w)).1
                         (update_outcome P cfg s r0 done (hash_cache w)).2 done)
              (update_item P cfg) (set_iter P (in_both pl))) with (w := w2)
    as (w3 & Hrun3 & Hinv3).
  { apply update_step_any; [by apply iter_NoDup|].
    intros p Hp. apply in_in_both; [done..|]. by apply iter_elem in Hp. }
  { split; [done|]. split; [done|]. split; [done|]. split; [done|].
    split; [exists []; by rewrite app_nil_r|]. done. }
  destruct Hinv3 as (_ & _ & _ & _ & (e3 & Ht3 & Hi3) & _).
  exists w1, w2, w3. split; [exact Hrun1|]. split; [exact Hrun2|].
  split; [exact Hrun3|].
  exists (e1 ++ e2 ++ e3). rewrite Ht3, Ht2, Ht1, <- !app_assoc.
  split; [done|]. by rewrite !infos_app, Hi1, Hi2, Hi3.
Qed.

End RoughPass.

(** * A second pass *)

Section SecondPass.
Context (P : platform) (cfg : config).
Hypothesis Hcache : use_hash_cache cfg = false.

Lemma md5_core_cache_off l n c :
  md5_core P cfg l n c
  = ((md5_core P cfg l n ∅).1.1, c, (md5_core P cfg l n ∅).2).
Proof.
  unfold md5_core. rewrite Hcache.
  destruct n as [[content mtime|st es]|]; done.
Qed.

Lemma files_differ_core_cache_off src rep sn rn c :
  files_differ_core P cfg src rep sn rn c
  = ((files_differ_core P cfg src rep sn rn ∅).1.1, c,
     (files_differ_core P cfg src rep sn rn ∅).2).
Proof.
  unfold files_differ_core, md5_core. rewrite Hcache.
  destruct rn as [[]|], sn as [[]|], (use_md5 cfg); done.
Qed.

Lemma files_differ_core_same_file src rep content mtime c :
  (files_differ_core P cfg src rep (Some (File content mtime))
     (Some (File content mtime)) c).1.1 = inr false.
Proof.
  unfold files_differ_core, md5_core. rewrite Hcache.
  destruct (use_md5 cfg); simpl.
  - by rewrite bool_decide_eq_true_2.
  - unfold metadata_differ. rewrite mtime_gap_same.
    by rewrite bool_decide_eq_true_2.
Qed.

Lemma update_item_idle s r q w :
  source_tree w = s → replica_tree w = r →
  valid_path q → q ≠ [] → visible cfg q →
  (entry q s ≠ None →
     entry q r ≠ None ∧ (entry q r = Some KDir ↔ entry q s = Some KDir)) →
  (is_file (resolve q s) = true →
     entry q r = entry q s
     ∨ ∃ c, (files_differ_core P cfg (InSource (render q))
               (InReplica (render q)) (resolve q s) (resolve q r) c).1.1
            = inr false) →
  ∃ w', update_item P cfg (render q) w = (inr tt, w') ∧ only_read w w'.
Proof.
  intros Hsrc Hrep Hq Hne Hvis Hkept Hsettled.
  unfold update_item. unfold bind at 1, os_path_isfile at 1.
  rewrite node_at_source, Hsrc by done.
  destruct (is_file (resolve q s)) eqn:Hfile.
  2:{ exists w. split; [done|]. repeat split; try done.
      exists []. by rewrite app_nil_r. }
  unfold bind at 1. rewrite files_differ_run.
  rewrite node_at_source, node_at_replica, Hsrc, Hrep by done.
  rewrite files_differ_core_cache_off.
  destruct (resolve q s) as [[c m|]|] eqn:Hrs; try done.
  assert (entry q s = Some (KFile c m)) as Hks by (unfold entry; by rewrite Hrs).
  destruct Hkept as [Hp Hd]; [by rewrite Hks|]. rewrite Hks in Hd.
  assert (∃ c' m', resolve q r = Some (File c' m')) as (c' & m' & Hrr).
  { unfold entry in Hp, Hd.
    destruct (resolve q r) as [[c' m'|]|]; simpl in *; [by eauto| |done].
    by destruct Hd as [Hd _]; specialize (Hd eq_refl). }
  assert ((files_differ_core P cfg (InSource (render q)) (InReplica (render q))
             (Some (File c m)) (resolve q r) ∅).1.1 = inr false) as Hfalse.
  { destruct Hsettled as [Heq|(c0 & Hc0)]; [done| |].
    - assert (resolve q r = Some (File c m)) as ->.
      { by apply (entry_file_resolve q s r c m). }
      apply files_differ_core_same_file.
    - rewrite files_differ_core_cache_off in Hc0. exact Hc0. }
  rewrite Hfalse. cbn [when]. rewrite Hrr.
  destruct (files_differ_core_files P cfg (InSource (render q))
              (InReplica (render q)) c m c' m' ∅)
    as (b & cache' & evs & Hcore & Hinf & Hcalls).
  rewrite Hcore. simpl.
  eexists. split; [done|]. repeat split; try done.
  by exists evs.
Qed.

Lemma update_loop_idle s r items w :
  source_tree w = s → replica_tree w = r →
  (∀ p, p ∈ items → ∃ q, p = render q ∧ valid_path q ∧ q ≠ []
                         ∧ visible cfg q) →
  (∀ q, visible cfg q → entry q s ≠ None →
     entry q r ≠ None ∧ (entry q r = Some KDir ↔ entry q s = Some KDir)) →
  (∀ q, q ≠ [] → visible cfg q → is_file (resolve q s) = true →
     entry q r = entry q s
     ∨ ∃ c, (files_differ_core P cfg (InSource (render q))
               (InReplica (render q)) (resolve q s) (resolve q r) c).1.1
            = inr false) →
  ∃ w', for_each items (update_item P cfg) w = (inr tt, w') ∧ only_read w w'.
Proof.
  intros Hsrc Hrep Hitems Hkept Hsettled.
  apply (for_each_inv (λ _, only_read w)).
  - intros done x rest w0 Heq (Hs0 & Hr0 & Hc0 & Hf0 & evs0 & Ht0 & Hcl0 & Hi0).
    destruct (Hitems x) as (q & -> & Hq & Hne & Hvis).
    { rewrite Heq. apply elem_of_app. right. by left. }
    destruct (update_item_idle s r q w0)
      as (w' & Hrun & Hs' & Hr' & Hc' & Hf' & evs & Ht & Hcl & Hi);
      try done; try congruence.
    { by apply Hkept. }
    { by apply Hsettled. }
    exists w'. split; [done|].
    split; [congruence|]. split; [congruence|]. split; [congruence|].
    split; [congruence|]. exists (evs0 ++ evs).
    rewrite Ht, Ht0, <- app_assoc. split; [done|].
    by rewrite calls_app, infos_app, Hcl0, Hcl, Hi0, Hi.
  - repeat split; try done. exists []. by rewrite app_nil_r.
Qed.

End SecondPass.

Lemma iter_empty P : iteration_faithful P → set_iter P ∅ = [].
Proof.
  intros Hit. apply Permutation_nil_r. rewrite (Hit ∅).
  by rewrite elements_empty.
Qed.

(** Claim C2, amended.  Under the hypotheses of the convergence theorem
    (both folders are directories, no name holds a backslash, no path is a
    file on one side and a directory on the other, live run, no fault
    injected, at least one attempt per operation, hash cache disabled) a
    second pass of [synchronize] right after the first finds nothing to add
    and nothing to remove, logs no copy and no removal, calls no operation
    of the file system and leaves the replica as the first pass left it. *)
Theorem second_pass_is_idle P cfg w :
  clean_start cfg w = true →
  use_hash_cache cfg = false →
  iteration_faithful P →
  ∃ w1 w2,
    synchronize P cfg w = (inr tt, w1)
    ∧ synchronize P cfg w1 = (inr tt, w2)
    ∧ to_add (pass_plan cfg (source_tree w1) (replica_tree w1)) = ∅
    ∧ to_remove (pass_plan cfg (source_tree w1) (replica_tree w1)) = ∅
    ∧ infos (new_events w1 w2) = []
    ∧ calls (new_events w1 w2) = []
    ∧ replica_tree w2 = replica_tree w1.
Proof.
  intros Hclean Hcache Hit.
  destruct (clean_pass P cfg w Hclean Hit)
    as (w1 & w2 & w3 & Hrun1 & Hrun2 & Hrun3 & Hpost).
  destruct Hpost as (Hsrc & _ & Hwf3 & _ & Hgone & Hkept & Hsettled & _).
  pose proof Hclean as (Hs & _)%clean_start_spec.
  assert (synchronize P cfg w = (inr tt, w3)) as Hfirst.
  { rewrite synchronize_unfold.
    rewrite (bind_ok _ _ _ _ _ Hrun1), (bind_ok _ _ _ _ _ Hrun2),
      (bind_ok _ _ _ _ _ Hrun3).
    by rewrite Hcache. }
  assert (scan_tree cfg (replica_tree w3) = scan_tree cfg (source_tree w3))
    as Hscan.
  { rewrite Hsrc. apply same_shape_scan; try done.
    intros q Hne Hvis Hn. by apply Hgone. }
  assert (to_add (pass_plan cfg (source_tree w3) (replica_tree w3)) = ∅) as Ha.
  { unfold pass_plan, make_plan. cbn [to_add]. rewrite Hscan.
    apply difference_diag_L. }
  assert (to_remove (pass_plan cfg (source_tree w3) (replica_tree w3)) = ∅) as Hr.
  { unfold pass_plan, make_plan. cbn [to_remove]. rewrite Hscan.
    apply difference_diag_L. }
  destruct (update_loop_idle P cfg Hcache (source_tree w) (replica_tree w3)
              (set_iter P (in_both (pass_plan cfg (source_tree w3)
                                      (replica_tree w3)))) w3)
    as (w4 & Hrun4 & Hs4 & Hr4 & Hc4 & Hf4 & evs & Ht & Hcl & Hi);
    try done.
  { intros p Hp. apply iter_elem in Hp; [|done].
    unfold pass_plan, make_plan in Hp. cbn [in_both] in Hp.
    apply elem_of_intersection in Hp as [Hp _].
    rewrite Hsrc in Hp. apply scan_all_iff in Hp; [|done].
    destruct Hp as (q & ? & ? & ? & ? & ?). by exists q. }
  exists w3, w4. split; [done|]. split.
  { rewrite synchronize_unfold. unfold add_loop, remove_loop.
    rewrite Ha, Hr, (iter_empty P Hit). cbn [for_each].
    unfold bind at 1, ret at 1. unfold bind at 1, ret at 1.
    unfold update_loop. rewrite (bind_ok _ _ _ _ _ Hrun4).
    by rewrite Hcache. }
  split; [done|]. split; [done|].
  unfold new_events. rewrite Ht, drop_app_length. done.
Qed.

Lemma second_pass_is_idle_witness :
  ∃ w1 w2,
    synchronize demo_platform demo_config
      (fresh_world mirror_source mirror_replica) = (inr tt, w1)
    ∧ synchronize demo_platform demo_config w1 = (inr tt, w2)
    ∧ calls (new_events w1 w2) = []
    ∧ replica_tree w2 = replica_tree w1.
Proof.
  destruct (second_pass_is_idle demo_platform demo_config
              (fresh_world mirror_source mirror_replica))
    as (w1 & w2 & H1 & H2 & _ & _ & _ & H6 & H7).
  - vm_compute. reflexivity.
  - reflexivity.
  - intros X. reflexivity.
  - exists w1, w2. repeat split; assumption.
Defined.

Lemma gset_eq_by_compute (X Y : gset string) :
  bool_decide (X = Y) = true → X = Y.
Proof. by intros H%bool_decide_eq_true. Qed.

(** C2: with the hash cache the second pass removes and rewrites the cache
    file; after a type conflict the second pass removes what the first
    one copied; a replica file named [x\y] is scanned as [x/y], and when
    the first pass has removed the directory [x] the second pass still has
    [x/y] to remove; and after a first pass in dry-run mode, with every
    attempt failing, or with [max_retries] 0, the second pass has the same
    file to add. *)
Lemma second_pass_is_not_always_idle :
  (∃ w1 w2,
     synchronize demo_platform cache_config
       (fresh_world one_file_source empty_root) = (inr tt, w1)
     ∧ synchronize demo_platform cache_config w1 = (inr tt, w2)
     ∧ to_remove (pass_plan cache_config (source_tree w1) (replica_tree w1))
       = {[ "hash_cache.json" ]}
     ∧ calls (new_events w1 w2)
       = [Call "remove" ["/rep/hash_cache.json"];
          Call "open" ["/rep/hash_cache.json"]])
  ∧ (∃ w1 w2,
       synchronize demo_platform demo_config
         (fresh_world conflict2_source conflict2_replica) = (inr tt, w1)
       ∧ synchronize demo_platform demo_config w1 = (inr tt, w2)
       ∧ to_remove (pass_plan demo_config (source_tree w1) (replica_tree w1))
         = {[ "a/a" ]}
       ∧ calls (new_events w1 w2)
         = [Call "remove" ["/rep/a/a"]; Call "copy2" ["/src/a"; "/rep/a"]])
  ∧ (∃ w1 w2,
       synchronize demo_platform demo_config
         (fresh_world empty_root backslash_replica) = (inr tt, w1)
       ∧ no_type_conflict demo_config (fresh_world empty_root backslash_replica)
         = true
       ∧ trace w1
         = [Call "remove" ["/rep/x/y"]; LogInfo "Removed: /rep/x/y";
            Call "rmtree" ["/rep/x"]; LogInfo "Removed: /rep/x"]
       ∧ synchronize demo_platform demo_config w1 = (inr tt, w2)
       ∧ to_remove (pass_plan demo_config (source_tree w1) (replica_tree w1))
         = {[ "x/y" ]}
       ∧ calls (new_events w1 w2)
         = [Call "remove" ["/rep/x/y"]; Call "remove" ["/rep/x/y"];
            Call "remove" ["/rep/x/y"]])
  ∧ (∃ w1 w2,
       synchronize demo_platform dry_config
         (fresh_world one_file_source empty_root) = (inr tt, w1)
       ∧ synchronize demo_platform dry_config w1 = (inr tt, w2)
       ∧ to_add (pass_plan dry_config (source_tree w1) (replica_tree w1))
         = {[ "a.txt" ]})
  ∧ (∃ w1 w2,
       synchronize demo_platform demo_config
         (faulty_world one_file_source empty_root) = (inr tt, w1)
       ∧ synchronize demo_platform demo_config w1 = (inr tt, w2)
       ∧ to_add (pass_plan demo_config (source_tree w1) (replica_tree w1))
         = {[ "a.txt" ]}
       ∧ calls (new_events w1 w2)
         = [Call "copy2" ["/src/a.txt"; "/rep/a.txt"]])
  ∧ (∃ w1 w2,
       synchronize demo_platform no_retry_config
         (fresh_world one_file_source empty_root) = (inr tt, w1)
       ∧ synchronize demo_platform no_retry_config w1 = (inr tt, w2)
       ∧ to_add (pass_plan no_retry_config (source_tree w1) (replica_tree w1))
         = {[ "a.txt" ]}).
Proof.
  split; [|split; [|split; [|split; [|split]]]].
  - eexists _, _. split; [vm_compute; reflexivity|].
    split; [vm_compute; reflexivity|].
    split; [|vm_compute; reflexivity].
    apply gset_eq_by_compute. vm_compute. reflexivity.
  - eexists _, _. split; [vm_compute; reflexivity|].
    split; [vm_compute; reflexivity|].
    split; [|vm_compute; reflexivity].
    apply gset_eq_by_compute. vm_compute. reflexivity.
  - eexists _, _. split; [vm_compute; reflexivity|].
    split; [vm_compute; reflexivity|].
    split; [vm_compute; reflexivity|].
    split; [vm_compute; reflexivity|].
    split; [|vm_compute; reflexivity].
    apply gset_eq_by_compute. vm_compute. reflexivity.
  - eexists _, _. split; [vm_compute; reflexivity|].
    split; [vm_compute; reflexivity|].
    apply gset_eq_by_compute. vm_compute. reflexivity.
  - eexists _, _. split; [vm_compute; reflexivity|].
    split; [vm_compute; reflexivity|].
    split; [|vm_compute; reflexivity].
    apply gset_eq_by_compute. vm_compute. reflexivity.
  - eexists _, _. split; [vm_compute; reflexivity|].
    split; [vm_compute; reflexivity|].
    apply gset_eq_by_compute. vm_compute. reflexivity.
Qed.

(** * The cache file inside the replica *)

Lemma cache_file_name_valid : valid_path ["hash_cache.json"].
Proof. constructor; [|constructor]. vm_compute. reflexivity. Qed.

Lemma cache_file_visible cfg :
  should_ignore (ignore_patterns cfg) "hash_cache.json" = false →
  visible cfg ["hash_cache.json"].
Proof.
  intros Hig q' [t Ht] Hne. destruct q' as [|c q']; [done|].
  simplify_eq/=. destruct q'; [done|]. discriminate.
Qed.




(** * The dry run *)

Lemma kept_refl w : kept w w.
Proof. repeat split. exists []. by rewrite app_nil_r. Qed.

Lemma kept_trans w1 w2 w3 : kept w1 w2 → kept w2 w3 → kept w1 w3.
Proof.
  intros (Hs1 & Hr1 & e1 & Ht1 & Hc1) (Hs2 & Hr2 & e2 & Ht2 & Hc2).
  split; [congruence|]. split; [congruence|].
  exists (e1 ++ e2). rewrite Ht2, Ht1, <- app_assoc. split; [done|].
  by rewrite calls_app, Hc1, Hc2.
Qed.

Lemma kept_emit e w : is_call e = false → kept w (emit e w).
Proof.
  intros He. repeat split. exists [e]. split; [done|].
  unfold calls. simpl. by rewrite He.
Qed.

Lemma kept_bind {A B} (m : M A) (k : A → M B) w :
  kept w (m w).2 → (∀ a w', kept w' (k a w').2) → kept w (bind m k w).2.
Proof.
  intros Hm Hk. unfold bind. destruct (m w) as [[e|a] w'] eqn:Hmw; [done|].
  eapply kept_trans; [exact Hm|]. apply Hk.
Qed.

Lemma kept_for_each {A} (items : list A) (body : A → M unit) w :
  (∀ x w', kept w' (body x w').2) → kept w (for_each items body w).2.
Proof.
  intros Hbody. revert w. induction items as [|x items IH]; intros w.
  - apply kept_refl.
  - simpl. apply kept_bind; [apply Hbody|]. intros _ w'. apply IH.
Qed.

Section Dry.
Context (P : platform) (cfg : config).
Hypothesis Hdry : dry_run cfg = true.

Lemma copy_item_dry p w :
  copy_item P cfg p w = (inr tt, emit (copy_msg cfg (source_tree w) p) w).
Proof.
  unfold copy_item, copy_msg, ensure_dir_exists, bind, os_path_isdir,
    os_path_exists, log. rewrite Hdry. cbn [negb].
  change (node_at (InSource p) w)
    with (resolve (split_path p) (source_tree w)).
  destruct (is_dir (resolve (split_path p) (source_tree w)));
    cbv beta; rewrite andb_false_r; done.
Qed.

Lemma remove_item_dry p w :
  remove_item cfg p w = (inr tt, emit (remove_msg cfg p) w).
Proof. unfold remove_item, bind, log. by rewrite Hdry. Qed.

Lemma md5_core_calls l n c : calls (md5_core P cfg l n c).2 = [].
Proof.
  unfold md5_core. destruct n as [[]|]; [| |done];
    by destruct (if use_hash_cache cfg then _ else None).
Qed.

Lemma files_differ_core_calls src rep sn rn c :
  calls (files_differ_core P cfg src rep sn rn c).2 = [].
Proof.
  unfold files_differ_core. destruct rn as [rnode|]; [|done].
  destruct (use_md5 cfg); [|by destruct sn].
  pose proof (md5_core_calls src sn c) as H1.
  destruct (md5_core P cfg src sn c) as [[[e|h1] c1] ev1]; [done|].
  pose proof (md5_core_calls rep (Some rnode) c1) as H2.
  destruct (md5_core P cfg rep (Some rnode) c1) as [[[e|h2] c2] ev2];
    simpl in *; by rewrite calls_app, H1, H2.
Qed.

Lemma update_item_dry_kept p w : kept w (update_item P cfg p w).2.
Proof.
  unfold update_item. apply kept_bind; [apply kept_refl|].
  intros [] w'; [|apply kept_refl].
  apply kept_bind.
  - rewrite files_differ_run.
    pose proof (files_differ_core_calls (InSource p) (InReplica p)
                  (node_at (InSource p) w') (node_at (InReplica p) w')
                  (hash_cache w')) as Hc.
    destruct (files_differ_core P cfg _ _ _ _ _) as [[r c] evs].
    repeat split. by exists evs.
  - intros [] w''; [|apply kept_refl]. simpl. rewrite copy_item_dry.
    by apply kept_emit.
Qed.

(** The replica is as before, whatever the trees and the outcome. *)
Lemma synchronize_dry_kept w : kept w (synchronize P cfg w).2.
Proof.
  rewrite synchronize_unfold.
  apply kept_bind.
  { apply kept_for_each. intros p w'. rewrite copy_item_dry. by apply kept_emit. }
  intros _ w1. apply kept_bind.
  { apply kept_for_each. intros p w'. rewrite remove_item_dry. by apply kept_emit. }
  intros _ w2. apply kept_bind.
  { apply kept_for_each. intros p w'. apply update_item_dry_kept. }
  intros _ w3. rewrite Hdry, andb_false_r. apply kept_refl.
Qed.

Lemma add_loop_dry items w :
  for_each items (copy_item P cfg) w
  = (inr tt, after w (replica_tree w) (hash_cache w) (faults w)
               (copy_msg cfg (source_tree w) <$> items)).
Proof.
  revert w. induction items as [|p items IH]; intros w.
  - simpl. unfold ret. by rewrite after_id.
  - simpl. unfold bind. rewrite copy_item_dry, IH.
    unfold after, emit. simpl. by rewrite <- app_assoc.
Qed.

Lemma remove_loop_dry items w :
  for_each items (remove_item cfg) w
  = (inr tt, after w (replica_tree w) (hash_cache w) (faults w)
               (remove_msg cfg <$> items)).
Proof.
  revert w. induction items as [|p items IH]; intros w.
  - simpl. unfold ret. by rewrite after_id.
  - simpl. unfold bind. rewrite remove_item_dry, IH.
    unfold after, emit. simpl. by rewrite <- app_assoc.
Qed.

Lemma infos_all_info {A} (f : A → event) (items : list A) :
  (∀ x, is_info (f x) = true) → infos (f <$> items) = f <$> items.
Proof.
  intros Hf. induction items as [|x items IH]; [done|].
  rewrite fmap_cons. unfold infos in *. cbn [List.filter].
  by rewrite Hf, IH.
Qed.

Lemma infos_copy_msgs s (items : list string) :
  infos (copy_msg cfg s <$> items) = copy_msg cfg s <$> items.
Proof. by apply infos_all_info. Qed.

Lemma infos_remove_msgs (items : list string) :
  infos (remove_msg cfg <$> items) = remove_msg cfg <$> items.
Proof. by apply infos_all_info. Qed.

Lemma update_loop_dry items w0 :
  wf_root (source_tree w0) = true → wf_root (replica_tree w0) = true →
  (∀ q, visible cfg q → entry q (source_tree w0) ≠ None →
     entry q (replica_tree w0) ≠ None →
     (entry q (source_tree w0) = Some KDir
      ↔ entry q (replica_tree w0) = Some KDir)) →
  (∀ p, p ∈ items →
     ∃ q, p = render q ∧ in_both_path cfg (source_tree w0) (replica_tree w0) q) →
  ∃ w', for_each items (update_item P cfg) w0 = (inr tt, w')
        ∧ dry_update_inv P cfg w0 items w'.
Proof.
  intros Hs Hr Hnc Hitems.
  apply (for_each_inv (dry_update_inv P cfg w0)).
  2:{ repeat split; try done. exists []. by rewrite app_nil_r. }
  intros done x rest w Heq (Hsrc & Hrep & Hc & evs0 & Ht & Hi).
  destruct (Hitems x) as (q & -> & Hq).
  { rewrite Heq. apply elem_of_app. right. by left. }
  destruct Hq as (Hne & Hval & Hvis & Hps & Hpr).
  unfold dry_update_inv.
  unfold update_outcome in *. rewrite foldl_app. cbn [foldl].
  set (acc := foldl (update_step P cfg (source_tree w0) (replica_tree w0))
                ([], hash_cache w0) done) in *.
  unfold update_item. unfold bind at 1, os_path_isfile at 1.
  rewrite node_at_source, Hsrc by done.
  unfold update_step. rewrite split_path_render by done.
  destruct (resolve q (source_tree w0)) as [[c m|st es]|] eqn:Hres;
    cbn [is_file].
  2:{ exists w. split; [done|]. repeat split; try done. by exists evs0. }
  2:{ exfalso. apply Hps. unfold entry. by rewrite Hres. }
  assert (∃ c' m', resolve q (replica_tree w0) = Some (File c' m'))
    as (c' & m' & Hrr).
  { specialize (Hnc q Hvis Hps Hpr). unfold entry in Hnc, Hpr.
    rewrite Hres in Hnc.
    destruct (resolve q (replica_tree w0)) as [[c' m'|]|]; simpl in *;
      [by eauto| |done].
    destruct Hnc as [_ Hnc]. by specialize (Hnc eq_refl). }
  unfold bind at 1. rewrite files_differ_run.
  rewrite node_at_source, node_at_replica, Hsrc, Hrep, Hres, Hrr, Hc by done.
  destruct (files_differ_core_files P cfg (InSource (render q))
              (InReplica (render q)) c m c' m' acc.2)
    as (b & cache' & evs & Hcore & Hinf & _).
  rewrite Hcore. destruct b; cbn [when].
  - rewrite copy_item_dry. eexists. split; [done|].
    split; [done|]. split; [done|]. split; [done|].
    exists (evs0 ++ evs ++ [copy_msg cfg (source_tree w0) (render q)]).
    simpl. rewrite Ht, Hsrc, <- !app_assoc. split; [done|].
    rewrite !infos_app, Hi, Hinf. done.
  - eexists. split; [done|].
    split; [done|]. split; [done|]. split; [done|].
    exists (evs0 ++ evs). simpl. rewrite Ht, <- !app_assoc. split; [done|].
    by rewrite !infos_app, Hi, Hinf, app_nil_r.
Qed.

End Dry.

Lemma scan_tree_live_of cfg o : scan_tree (live_of cfg) o = scan_tree cfg o.
Proof. reflexivity. Qed.

Lemma update_outcome_live_of P cfg s r items c :
  update_outcome P (live_of cfg) s r items c = update_outcome P cfg s r items c.
Proof. reflexivity. Qed.

Lemma save_cache_infos P cfg w :
  ∃ res w', save_cache P cfg w = (res, w')
            ∧ trace w' = trace w ++ [Call "open" [abs_path cfg hash_cache_file]].
Proof.
  unfold save_cache, mutate.
  destruct (update_at _ _ _); eexists _, _; split; done.
Qed.




(** * Further properties of the matcher, the planner and the applier *)

Example match_pattern_suffix : match_pattern "x.tmp" "*.tmp" = true.
Proof. reflexivity. Qed.

Example match_pattern_subtree :
  should_ignore ["*.tmp"; "ignore_dir/"] "ignore_dir/sub/file.txt" = true.
Proof. reflexivity. Qed.

Example match_pattern_plain :
  should_ignore ["*.tmp"; "ignore_dir/"] "file.txt" = false.
Proof. reflexivity. Qed.

Example match_pattern_dir_itself : match_pattern "cache" "cache/" = true.
Proof. reflexivity. Qed.

Lemma str_app l1 l2 : str (l1 ++ l2) = str l1 +:+ str l2.
Proof. apply chars_inj. by rewrite chars_app, !chars_str. Qed.

Lemma replace_backslash_app a b :
  replace_backslash (a +:+ b) = replace_backslash a +:+ replace_backslash b.
Proof.
  unfold replace_backslash. by rewrite chars_app, fmap_app, str_app.
Qed.

Lemma drop_last_char_snoc s c : drop_last_char (s +:+ String c "") = s.
Proof.
  unfold drop_last_char. rewrite chars_app.
  change (chars (String c "")) with [c].
  rewrite removelast_last. apply str_chars.
Qed.

Lemma endswith_snoc s c : endswith (s +:+ String c "") (String c "") = true.
Proof.
  apply bool_decide_eq_true. rewrite chars_app. by exists (chars s).
Qed.

(** The directory branch of [match_pattern] is a test of the path against
    the rule without its final separator, and nothing more: under the rule
    ["D/"] a path matches exactly when it starts with the characters of
    [D]. *)
Theorem match_pattern_dir_rule path D :
  match_pattern path (D +:+ "/")
  = startswith (replace_backslash path) (replace_backslash D).
Proof.
  unfold match_pattern. rewrite replace_backslash_app.
  change (replace_backslash "/") with "/".
  rewrite endswith_snoc, drop_last_char_snoc.
  by destruct (startswith _ _).
Qed.

(** A rule that begins with the star and does not end with the separator
    matches the paths that end with the text after the star. *)
Theorem match_pattern_suffix_rule path ext :
  endswith (replace_backslash ("*" +:+ ext)) "/" = false →
  match_pattern path ("*" +:+ ext)
  = endswith (replace_backslash path) (replace_backslash ext).
Proof.
  intros Hend. unfold match_pattern. rewrite Hend.
  change (replace_backslash ("*" +:+ ext))
    with (String "*" (replace_backslash ext)).
  assert (contains_star (String "*" (replace_backslash ext)) = true) as ->.
  { apply bool_decide_eq_true. simpl. left. }
  change (chars (String "*" (replace_backslash ext)))
    with (star :: chars (replace_backslash ext)).
  cbn [split_first_star]. rewrite decide_True by done.
  assert (startswith (String "*" (replace_backslash ext)) "*" = true) as ->.
  { apply bool_decide_eq_true. by exists (chars (replace_backslash ext)). }
  by rewrite str_chars.
Qed.

Lemma match_pattern_suffix_rule_witness :
  match_pattern "notes.tmp" ("*" +:+ ".tmp")
  = endswith (replace_backslash "notes.tmp") (replace_backslash ".tmp").
Proof. apply match_pattern_suffix_rule. reflexivity. Defined.

(** A rule without star and without final separator matches the one path
    equal to it, once the backslashes of both are replaced. *)
Theorem match_pattern_plain_rule path pattern :
  endswith (replace_backslash pattern) "/" = false →
  contains_star (replace_backslash pattern) = false →
  match_pattern path pattern
  = bool_decide (replace_backslash path = replace_backslash pattern).
Proof. intros Hend Hstar. unfold match_pattern. by rewrite Hend, Hstar. Qed.

Lemma match_pattern_plain_rule_witness :
  match_pattern "a\b.txt" "a/b.txt"
  = bool_decide (replace_backslash "a\b.txt" = replace_backslash "a/b.txt").
Proof. apply match_pattern_plain_rule; reflexivity. Defined.

(** A rule that holds a star but does not begin with it, and does not end
    with the separator, matches no path. *)
Theorem match_pattern_inner_star_never_matches path pattern :
  endswith (replace_backslash pattern) "/" = false →
  contains_star (replace_backslash pattern) = true →
  startswith (replace_backslash pattern) "*" = false →
  match_pattern path pattern = false.
Proof.
  intros Hend Hstar Hfirst. unfold match_pattern.
  rewrite Hend, Hstar, Hfirst.
  by destruct (split_first_star _).
Qed.

Lemma match_pattern_inner_star_never_matches_witness :
  match_pattern "report.txt" "rep*.txt" = false.
Proof. apply match_pattern_inner_star_never_matches; reflexivity. Defined.

(** The three sets of a pass are pairwise disjoint; the set to add and the
    set in both make up the source's paths, the set to remove and the set
    in both the replica's. *)
Theorem make_plan_partition (source_snap replica_snap : gset string * gset string) :
  to_add (make_plan source_snap replica_snap)
    ## to_remove (make_plan source_snap replica_snap)
  ∧ to_add (make_plan source_snap replica_snap)
      ## in_both (make_plan source_snap replica_snap)
  ∧ to_remove (make_plan source_snap replica_snap)
      ## in_both (make_plan source_snap replica_snap)
  ∧ to_add (make_plan source_snap replica_snap)
      ∪ in_both (make_plan source_snap replica_snap)
    = source_snap.1 ∪ source_snap.2
  ∧ to_remove (make_plan source_snap replica_snap)
      ∪ in_both (make_plan source_snap replica_snap)
    = replica_snap.1 ∪ replica_snap.2.
Proof.
  unfold make_plan. cbn [to_add to_remove in_both].
  set (S := source_snap.1 ∪ source_snap.2).
  set (R := replica_snap.1 ∪ replica_snap.2).
  repeat split.
  - intros x [? ?]%elem_of_difference [? ?]%elem_of_difference. tauto.
  - intros x [? ?]%elem_of_difference [? ?]%elem_of_intersection. tauto.
  - intros x [? ?]%elem_of_difference [? ?]%elem_of_intersection. tauto.
  - apply set_eq. intros x.
    rewrite elem_of_union, elem_of_difference, elem_of_intersection.
    destruct (decide (x ∈ R)); tauto.
  - apply set_eq. intros x.
    rewrite elem_of_union, elem_of_difference, elem_of_intersection.
    destruct (decide (x ∈ S)); tauto.
Qed.

(** On a well-formed tree [get_all_items] raises nothing and changes
    nothing; a path is in its set of files exactly when it names a regular
    file of the tree, and in its set of directories exactly when it names a
    directory below the root, provided no ignore rule matches the path or
    one of its ancestors. *)
Theorem get_all_items_collects cfg root w :
  wf_root (root_of root w) = true →
  ∃ files dirs,
    get_all_items cfg root w = (inr (files, dirs), w)
    ∧ (∀ p, p ∈ files ↔
         ∃ q, q ≠ [] ∧ valid_path q ∧ p = render q
              ∧ is_file (resolve q (root_of root w)) = true ∧ visible cfg q)
    ∧ (∀ p, p ∈ dirs ↔
         ∃ q, q ≠ [] ∧ valid_path q ∧ p = render q
              ∧ is_dir (resolve q (root_of root w)) = true ∧ visible cfg q).
Proof.
  intros Hwf. unfold get_all_items.
  destruct (scan_tree cfg (root_of root w)) as [files dirs] eqn:Hscan.
  exists files, dirs. split; [done|]. split; intros p.
  - change files with (files, dirs).1. rewrite <- Hscan.
    by apply scan_tree_files.
  - change dirs with (files, dirs).2. rewrite <- Hscan.
    by apply scan_tree_dirs.
Qed.

Lemma get_all_items_collects_witness :
  ∃ files dirs,
    get_all_items json_ignoring_config (InReplica "")
      (fresh_world one_file_source cached_replica)
    = (inr (files, dirs), fresh_world one_file_source cached_replica)
    ∧ ("hash_cache.json" ∉ files).
Proof.
  destruct (get_all_items_collects json_ignoring_config (InReplica "")
              (fresh_world one_file_source cached_replica))
    as (files & dirs & Hrun & Hfiles & _).
  - vm_compute. reflexivity.
  - exists files, dirs. split; [exact Hrun|].
    intros (q & Hne & Hq & Heq & _ & Hvis)%Hfiles.
    specialize (Hvis q (reflexivity q) Hne). rewrite <- Heq in Hvis.
    vm_compute in Hvis. discriminate Hvis.
Defined.

Section RetryMore.
Context (cfg : config).

Lemma retry_loop_transient func args op r' fs (k : nat) :
  ∀ (a n : Z) w,
    faults w = replicate k true ++ false :: fs →
    (Z.of_nat k < n)%Z →
    op (replica_tree w) = inr r' →
    retry_loop cfg (seqZ a n) func args op w
    = (inr tt,
       after w r' (hash_cache w) fs
         (concat (failing_round cfg func args <$> seqZ a (Z.of_nat k))
          ++ [Call func args])).
Proof.
  induction k as [|k IH]; intros a n w Hf Hk Hop.
  - rewrite seqZ_cons by lia. cbn [retry_loop].
    unfold bind, attempt. rewrite Hf. simpl. rewrite Hop. done.
  - rewrite seqZ_cons by lia. cbn [retry_loop].
    unfold bind at 1. unfold attempt. rewrite Hf. cbn [replicate app head tail].
    unfold bind at 1, log at 1. unfold bind at 1, log at 1.
    rewrite (IH (Z.succ a) (Z.pred n)
               (emit (Sleep 1)
                  (emit (LogWarning func (a + 1) (max_retries cfg))
                     (set_faults (replicate k true ++ false :: fs)
                        (emit (Call func args) w)))));
      [|done|lia|done].
    rewrite (seqZ_cons a (Z.of_nat (S k))) by lia.
    replace (Z.pred (Z.of_nat (S k))) with (Z.of_nat k) by lia.
    unfold after. simpl. rewrite <- !app_assoc. done.
Qed.

End RetryMore.

(** An operation that fails [k] times, fewer than [max_retries], and then
    succeeds is called [k + 1] times by [_retry_operation]: [k] rounds of a
    call, a warning and a pause, then the call that succeeds; no permanent
    failure is logged and the replica is what the operation made of it. *)
Theorem retry_operation_transient cfg func args op w r' fs (k : nat) :
  faults w = replicate k true ++ false :: fs →
  (Z.of_nat k < max_retries cfg)%Z →
  op (replica_tree w) = inr r' →
  ∃ w',
    _retry_operation cfg func args op w = (inr tt, w')
    ∧ replica_tree w' = r'
    ∧ new_events w w'
      = concat (failing_round cfg func args <$> seqZ 0 (Z.of_nat k))
        ++ [Call func args].
Proof.
  intros Hf Hk Hop. unfold _retry_operation.
  rewrite (retry_loop_transient cfg func args op r' fs k 0 _ w Hf Hk Hop).
  eexists. split; [done|]. split; [done|].
  unfold new_events, after. simpl. by rewrite drop_app_length.
Qed.

Lemma retry_operation_transient_witness :
  let w := mk_world None (Some (Dir dir_stat0 [("gone", File (bytes "X") 7)]))
             ∅ [true; true; false] [] in
  ∃ w',
    _retry_operation demo_config "remove" ["/rep/gone"]
      (update_at ["gone"] remove_edit) w = (inr tt, w')
    ∧ replica_tree w' = Some (Dir dir_stat0 [])
    ∧ length (calls (new_events w w')) = 3%nat.
Proof.
  intros w.
  destruct (retry_operation_transient demo_config "remove" ["/rep/gone"]
              (update_at ["gone"] remove_edit) w
              (Some (Dir dir_stat0 [])) [] 2)
    as (w' & Hrun & Hrep & Hev); [reflexivity|reflexivity|reflexivity|].
  exists w'. split; [exact Hrun|]. split; [exact Hrep|].
  rewrite Hev. reflexivity.
Defined.

(** With [dry_run] set, [copy_item] and [remove_item] return normally and
    do nothing but log their one message: the world after the call is the
    world before it with that message appended to the trace. *)
Theorem dry_run_items_only_log P cfg p w :
  dry_run cfg = true →
  copy_item P cfg p w = (inr tt, emit (copy_msg cfg (source_tree w) p) w)
  ∧ remove_item cfg p w = (inr tt, emit (remove_msg cfg p) w).
Proof.
  intros Hdry. split.
  - by apply copy_item_dry.
  - by apply remove_item_dry.
Qed.

Lemma dry_run_items_only_log_witness :
  let w := fresh_world mirror_source mirror_replica in
  copy_item demo_platform dry_config "sub/c.txt" w
  = (inr tt, emit (LogInfo "File copied/updated: /rep/sub/c.txt") w)
  ∧ remove_item dry_config "b.txt" w
    = (inr tt, emit (LogInfo "Removed: /rep/b.txt") w).
Proof.
  intros w.
  destruct (dry_run_items_only_log demo_platform dry_config "sub/c.txt" w)
    as [Hc _]; [reflexivity|].
  destruct (dry_run_items_only_log demo_platform dry_config "b.txt" w)
    as [_ Hr]; [reflexivity|].
  split; [exact Hc|exact Hr].
Defined.

(** Deletion: with the source holding [a.txt] and the replica [a.txt] and
    [b.txt], the pass has [b.txt] to remove and nothing to add, and it
    leaves the replica with [a.txt] alone. *)
Example deletion_propagates :
  let s := Some (Dir dir_stat0 [("a.txt", File (bytes "A") 5)]) in
  let r := Some (Dir dir_stat0 [("a.txt", File (bytes "A") 5);
                                ("b.txt", File (bytes "B") 5)]) in
  to_remove (pass_plan demo_config s r) = {[ "b.txt" ]}
  ∧ to_add (pass_plan demo_config s r) = ∅
  ∧ replica_tree (synchronize demo_platform demo_config (fresh_world s r)).2
    = s.
Proof.
  intros s r. split; [|split].
  - apply gset_eq_by_compute. vm_compute. reflexivity.
  - apply gset_eq_by_compute. vm_compute. reflexivity.
  - vm_compute. reflexivity.
Qed.

(** Addition: with the source holding [a.txt] and [sub/c.txt] and an empty
    replica, the pass has [sub], [sub/c.txt] and [a.txt] to add, and the
    scan of the replica after the pass is the scan of the source. *)
Example addition_propagates :
  let s := Some (Dir dir_stat0
                   [("a.txt", File (bytes "A") 5);
                    ("sub", Dir dir_stat0 [("c.txt", File (bytes "CC") 7)])]) in
  let w := fresh_world s (Some (Dir dir_stat0 [])) in
  to_add (pass_plan demo_config s (Some (Dir dir_stat0 [])))
  = {[ "sub"; "sub/c.txt"; "a.txt" ]}
  ∧ (synchronize demo_platform demo_config w).1 = inr tt
  ∧ (scan_tree demo_config
       (replica_tree (synchronize demo_platform demo_config w).2)).1
    = (scan_tree demo_config s).1
  ∧ (scan_tree demo_config
       (replica_tree (synchronize demo_platform demo_config w).2)).2
    = (scan_tree demo_config s).2.
Proof.
  intros s w. split; [|split; [|split]].
  - apply gset_eq_by_compute. vm_compute. reflexivity.
  - vm_compute. reflexivity.
  - apply gset_eq_by_compute. vm_compute. reflexivity.
  - apply gset_eq_by_compute. vm_compute. reflexivity.
Qed.

(** * The matcher and the scanner, further *)

Lemma should_ignore_spec pats path :
  should_ignore pats path = true ↔
  ∃ pat, pat ∈ pats ∧ match_pattern path pat = true.
Proof.
  induction pats as [|pat pats IH]; simpl.
  - split; [done|]. intros (pat & Hin & _). by apply elem_of_nil in Hin.
  - destruct (match_pattern path pat) eqn:Hm.
    + split; [|done]. intros _. exists pat. split; [by left|done].
    + rewrite IH. split.
      * intros (p & Hin & Hp). exists p. split; [by right|done].
      * intros (p & [->|Hin]%elem_of_cons & Hp); [congruence|]. by exists p.
Qed.

(** The outcome of [should_ignore] depends on which rules the list holds,
    not on their order or on how often a rule is repeated. *)
Theorem should_ignore_same_rules pats pats' path :
  (∀ pat, pat ∈ pats ↔ pat ∈ pats') →
  should_ignore pats path = should_ignore pats' path.
Proof.
  intros Hsame.
  destruct (should_ignore pats path) eqn:H1,
           (should_ignore pats' path) eqn:H2; try done.
  - apply should_ignore_spec in H1 as (pat & Hin & Hm).
    assert (should_ignore pats' path = true) as H.
    { apply should_ignore_spec. exists pat. split; [by apply Hsame|done]. }
    congruence.
  - apply should_ignore_spec in H2 as (pat & Hin & Hm).
    assert (should_ignore pats path = true) as H.
    { apply should_ignore_spec. exists pat. split; [by apply Hsame|done]. }
    congruence.
Qed.

Lemma should_ignore_same_rules_witness :
  should_ignore ["*.tmp"; "build/"] "build/x.o"
  = should_ignore ["build/"; "*.tmp"; "build/"] "build/x.o".
Proof.
  apply should_ignore_same_rules. intros pat.
  rewrite !elem_of_cons, !elem_of_nil. tauto.
Defined.

Lemma normalize_char_idemp c : normalize_char (normalize_char c) = normalize_char c.
Proof. unfold normalize_char. by repeat case_decide. Qed.

Lemma replace_backslash_idemp s :
  replace_backslash (replace_backslash s) = replace_backslash s.
Proof.
  unfold replace_backslash. rewrite chars_str. f_equal.
  rewrite <- list_fmap_compose. apply list_fmap_ext.
  intros _ c _. apply normalize_char_idemp.
Qed.

(** [match_pattern] reads the path and the rule with every backslash
    replaced by a slash: writing either of them with backslashes changes
    nothing. *)
Theorem match_pattern_backslash path pattern :
  match_pattern (replace_backslash path) pattern = match_pattern path pattern
  ∧ match_pattern path (replace_backslash pattern) = match_pattern path pattern.
Proof.
  unfold match_pattern. by rewrite !replace_backslash_idemp.
Qed.

Lemma startswith_empty s : startswith s "" = true.
Proof. apply bool_decide_eq_true. apply prefix_nil. Qed.

Lemma endswith_empty s : endswith s "" = true.
Proof. apply bool_decide_eq_true. apply suffix_nil. Qed.

Lemma match_pattern_slash path : match_pattern path "/" = true.
Proof.
  unfold match_pattern.
  change (replace_backslash "/") with "/".
  change (endswith "/" "/") with true.
  change (drop_last_char "/") with "".
  cbv iota. by rewrite startswith_empty.
Qed.

Lemma match_pattern_star path : match_pattern path "*" = true.
Proof.
  unfold match_pattern.
  change (replace_backslash "*") with "*".
  change (endswith "*" "/") with false.
  change (contains_star "*") with true.
  change (split_first_star (chars "*")) with (@nil ascii, @nil ascii).
  change (startswith "*" "*") with true.
  cbv iota beta. apply endswith_empty.
Qed.

Lemma snap_union_empty : snap_union (∅, ∅) (∅, ∅) = (∅, ∅).
Proof. unfold snap_union. simpl. by rewrite !(left_id_L ∅ (∪)). Qed.

(** The rule ["/"] and the rule ["*"] match every path: with one of them
    among the ignore rules the scan of any tree is empty, both sets. *)
Theorem scan_tree_catch_all_rule cfg o :
  "/" ∈ ignore_patterns cfg ∨ "*" ∈ ignore_patterns cfg →
  (∀ path, should_ignore (ignore_patterns cfg) path = true)
  ∧ scan_tree cfg o = (∅, ∅).
Proof.
  intros Hrule.
  assert (∀ path, should_ignore (ignore_patterns cfg) path = true) as Hall.
  { intros path. apply should_ignore_spec. destruct Hrule as [H|H].
    - exists "/". split; [done|]. apply match_pattern_slash.
    - exists "*". split; [done|]. apply match_pattern_star. }
  split; [done|].
  destruct o as [[c m|st es]|]; try done.
  unfold scan_tree. cbn [walk].
  rewrite bool_decide_eq_true_2 by done.
  rewrite bool_decide_eq_true_2 by done.
  induction es as [|[name child] es IH]; [done|].
  rewrite fmap_cons. cbn [foldr]. rewrite IH.
  unfold visit_entry. cbn [fst snd].
  destruct child; rewrite Hall; apply snap_union_empty.
Qed.

Lemma scan_tree_catch_all_rule_witness :
  scan_tree (mk_config "/src" "/rep" false false ["*.tmp"; "/"] false 3)
    mirror_source = (∅, ∅).
Proof.
  apply (scan_tree_catch_all_rule
           (mk_config "/src" "/rep" false false ["*.tmp"; "/"] false 3)).
  left. cbn [ignore_patterns]. apply elem_of_cons. right. by left.
Defined.

Section Snapshot.
Context (cfg : config) (o : option node).
Hypothesis Hwf : wf_root o = true.

Lemma scan_member_valid p :
  p ∈ (scan_tree cfg o).1 ∪ (scan_tree cfg o).2 →
  ∃ q, q ≠ [] ∧ valid_path q ∧ p = render q ∧ entry q o ≠ None
       ∧ visible cfg q.
Proof.
  intros [Hp|Hp]%elem_of_union.
  - apply scan_tree_files in Hp as (q & ? & ? & ? & Hk & ?); [|done].
    exists q. repeat split; try done.
    apply entry_is_present. by destruct (resolve q o).
  - apply scan_tree_dirs in Hp as (q & ? & ? & ? & Hk & ?); [|done].
    exists q. repeat split; try done.
    apply entry_is_present. by destruct (resolve q o).
Qed.

End Snapshot.

Lemma scan_files_dirs_disjoint cfg o :
  wf_root o = true → (scan_tree cfg o).1 ∩ (scan_tree cfg o).2 = ∅.
Proof.
  intros Hwf. apply set_eq. intros p.
  rewrite elem_of_intersection. split; [|by intros ?%elem_of_empty].
  intros [Hf Hd].
  apply scan_tree_files in Hf as (q & _ & Hq & -> & Hfile & _); [|done].
  apply scan_tree_dirs in Hd as (q' & _ & Hq' & Heq & Hdir & _); [|done].
  apply render_inj in Heq; [|done..]. subst q'.
  by destruct (resolve q o) as [[]|].
Qed.

(** In the snapshot of a well-formed tree no path is both a file and a
    directory, the empty path is in neither set, and no member holds a
    backslash. *)
Theorem scan_tree_sets_disjoint cfg o :
  wf_root o = true →
  (scan_tree cfg o).1 ## (scan_tree cfg o).2
  ∧ ("" ∉ (scan_tree cfg o).1 ∪ (scan_tree cfg o).2)
  ∧ ∀ p, p ∈ (scan_tree cfg o).1 ∪ (scan_tree cfg o).2 →
         replace_backslash p = p.
Proof.
  intros Hwf. split; [|split].
  - intros p Hf Hd.
    assert (p ∈ (scan_tree cfg o).1 ∩ (scan_tree cfg o).2) as Hp
      by by apply elem_of_intersection.
    rewrite scan_files_dirs_disjoint in Hp by done.
    by apply elem_of_empty in Hp.
  - intros (q & Hne & Hq & Heq & _)%(scan_member_valid cfg o Hwf).
    symmetry in Heq. by apply render_nonempty in Heq.
  - intros p (q & _ & Hq & -> & _)%(scan_member_valid cfg o Hwf).
    by apply replace_backslash_render.
Qed.

Lemma scan_tree_sets_disjoint_witness :
  (scan_tree demo_config mirror_source).1
    ## (scan_tree demo_config mirror_source).2.
Proof.
  destruct (scan_tree_sets_disjoint demo_config mirror_source) as [H _].
  - vm_compute. reflexivity.
  - exact H.
Defined.

(** The snapshot of a well-formed tree is closed under parents: the
    directory part of a member, when it is not empty, is in the set of
    directories. *)
Theorem scan_tree_parent_closed cfg o p :
  wf_root o = true →
  p ∈ (scan_tree cfg o).1 ∪ (scan_tree cfg o).2 →
  os_path_dirname p ≠ "" →
  os_path_dirname p ∈ (scan_tree cfg o).2.
Proof.
  intros Hwf (q & Hne & Hq & -> & Hk & Hvis)%(scan_member_valid cfg o Hwf) Hd.
  destruct q as [|n q _] using rev_ind; [done|].
  apply Forall_app in Hq as [Hq [Hn _]%Forall_cons].
  rewrite os_path_dirname_render in Hd |- * by done.
  apply scan_tree_dirs; [done|]. exists q.
  split. { intros ->. done. }
  split; [done|]. split; [done|]. split.
  - assert (entry q o = Some KDir) as Hdir.
    { by apply (entry_parent_dir q [n]). }
    apply entry_is_dir in Hdir. done.
  - intros q' Hq' Hne'. apply Hvis; [|done].
    etrans; [exact Hq'|]. by exists [n].
Qed.

Lemma scan_tree_parent_closed_witness :
  "sub" ∈ (scan_tree demo_config mirror_source).2.
Proof.
  apply (scan_tree_parent_closed demo_config mirror_source "sub/c.txt").
  - vm_compute. reflexivity.
  - apply elem_of_union. left.
    apply (bool_decide_eq_true_1 _). vm_compute. reflexivity.
  - vm_compute. discriminate.
Defined.

(** Ignore rules only take away: when every path ignored under one
    configuration is ignored under another, the snapshot under the second
    is contained in the snapshot under the first. *)
Theorem scan_tree_more_rules_less cfg cfg' o :
  wf_root o = true →
  (∀ path, should_ignore (ignore_patterns cfg) path = true →
           should_ignore (ignore_patterns cfg') path = true) →
  (scan_tree cfg' o).1 ⊆ (scan_tree cfg o).1
  ∧ (scan_tree cfg' o).2 ⊆ (scan_tree cfg o).2.
Proof.
  intros Hwf Hmore.
  assert (∀ q, visible cfg' q → visible cfg q) as Hvis.
  { intros q Hv q' Hq' Hne. specialize (Hv q' Hq' Hne).
    destruct (should_ignore (ignore_patterns cfg) (render q')) eqn:Hig;
      [|done].
    apply Hmore in Hig. congruence. }
  split; intros p Hp.
  - apply scan_tree_files in Hp as (q & ? & ? & ? & ? & ?); [|done].
    apply scan_tree_files; [done|]. exists q. repeat split; try done.
    by apply Hvis.
  - apply scan_tree_dirs in Hp as (q & ? & ? & ? & ? & ?); [|done].
    apply scan_tree_dirs; [done|]. exists q. repeat split; try done.
    by apply Hvis.
Qed.

Lemma scan_tree_more_rules_less_witness :
  (scan_tree json_ignoring_config cached_replica).1
    ⊆ (scan_tree demo_config cached_replica).1.
Proof.
  destruct (scan_tree_more_rules_less demo_config json_ignoring_config
              cached_replica) as [H _].
  - vm_compute. reflexivity.
  - intros path H. vm_compute in H. discriminate H.
  - exact H.
Defined.

(** * What a pass never touches *)

Section Preserved.
Context (P : platform) (cfg : config).

Lemma preserved_refl w : preserved cfg w w.
Proof. repeat split; done. Qed.

Lemma preserved_trans w1 w2 w3 :
  preserved cfg w1 w2 → preserved cfg w2 w3 → preserved cfg w1 w3.
Proof.
  intros (Hs1 & Hc1 & Ho1 & Ht1) (Hs2 & Hc2 & Ho2 & Ht2).
  split; [congruence|]. split; [by etrans|].
  split; [|by etrans]. intros Hoff. rewrite Ho2, Ho1; done.
Qed.

Lemma preserved_after w r f evs :
  preserved cfg w (after w r (hash_cache w) f evs).
Proof. repeat split; try done. by exists evs. Qed.

Lemma preserved_emit e w : preserved cfg w (emit e w).
Proof. repeat split; try done. by exists [e]. Qed.

Lemma preserved_bind {A B} (m : M A) (k : A → M B) w :
  preserved cfg w (m w).2 → (∀ a w', preserved cfg w' (k a w').2) →
  preserved cfg w (bind m k w).2.
Proof.
  intros Hm Hk. unfold bind. destruct (m w) as [[e|a] w'] eqn:Hmw; [done|].
  eapply preserved_trans; [exact Hm|]. apply Hk.
Qed.

Lemma preserved_for_each {A} (items : list A) (body : A → M unit) w :
  (∀ x w', preserved cfg w' (body x w').2) →
  preserved cfg w (for_each items body w).2.
Proof.
  intros Hbody. revert w. induction items as [|x items IH]; intros w.
  - apply preserved_refl.
  - simpl. apply preserved_bind; [apply Hbody|]. intros _ w'. apply IH.
Qed.

Lemma preserved_when b (m : M unit) w :
  (∀ w', preserved cfg w' (m w').2) → preserved cfg w (when b m w).2.
Proof. intros Hm. destruct b; [apply Hm|apply preserved_refl]. Qed.

Lemma preserved_mutate func args op w :
  preserved cfg w (mutate func args op w).2.
Proof.
  unfold mutate. destruct (op (replica_tree w));
    repeat split; try done; by exists [Call func args].
Qed.

Lemma preserved_attempt func args op w :
  preserved cfg w (attempt func args op w).2.
Proof.
  unfold attempt.
  destruct (head (faults w)) as [[]|]; [| |];
    try destruct (op (replica_tree w));
    repeat split; try done; by exists [Call func args].
Qed.

Lemma preserved_retry_loop attempts func args op w :
  preserved cfg w (retry_loop cfg attempts func args op w).2.
Proof.
  revert w. induction attempts as [|a rest IH]; intros w.
  - apply preserved_emit.
  - cbn [retry_loop]. apply preserved_bind; [apply preserved_attempt|].
    intros [e|] w'; [|apply preserved_refl].
    apply preserved_bind; [apply preserved_emit|]. intros _ w''.
    apply preserved_bind; [apply preserved_emit|]. intros _ w'''.
    apply IH.
Qed.

Lemma preserved_ensure_dir_exists l w :
  preserved cfg w (ensure_dir_exists P cfg l w).2.
Proof.
  unfold ensure_dir_exists. apply preserved_bind; [apply preserved_refl|].
  intros b w'. apply preserved_when. intros w''. apply preserved_mutate.
Qed.

Lemma preserved_copy_item p w : preserved cfg w (copy_item P cfg p w).2.
Proof.
  unfold copy_item. apply preserved_bind; [apply preserved_refl|].
  intros [] w1.
  - apply preserved_bind; [apply preserved_ensure_dir_exists|].
    intros _ w2. apply preserved_emit.
  - apply preserved_bind; [apply preserved_ensure_dir_exists|].
    intros _ w2. apply preserved_bind.
    + apply preserved_when. intros w3. apply preserved_retry_loop.
    + intros _ w3. apply preserved_emit.
Qed.

Lemma preserved_remove_item p w : preserved cfg w (remove_item cfg p w).2.
Proof.
  unfold remove_item. apply preserved_bind.
  - apply preserved_when. intros w1.
    apply preserved_bind; [apply preserved_refl|].
    intros [] w2; apply preserved_retry_loop.
  - intros _ w1. apply preserved_emit.
Qed.

Lemma md5_core_cache l n c :
  c ⊆ (md5_core P cfg l n c).1.2
  ∧ (use_hash_cache cfg = false → (md5_core P cfg l n c).1.2 = c).
Proof.
  unfold md5_core. destruct n as [nd|]; [|done].
  destruct (use_hash_cache cfg) eqn:Hon.
  - destruct (c !! _) as [cached|] eqn:Hc; [done|].
    destruct nd; [|done]. cbn [fst snd]. split; [|done].
    by apply insert_subseteq.
  - by destruct nd.
Qed.

Lemma files_differ_core_cache src rep sn rn c :
  c ⊆ (files_differ_core P cfg src rep sn rn c).1.2
  ∧ (use_hash_cache cfg = false →
     (files_differ_core P cfg src rep sn rn c).1.2 = c).
Proof.
  unfold files_differ_core. destruct rn as [rnode|]; [|done].
  destruct (use_md5 cfg); [|by destruct sn].
  pose proof (md5_core_cache src sn c) as [H1 H1'].
  destruct (md5_core P cfg src sn c) as [[[e|h1] c1] ev1]; [done|].
  pose proof (md5_core_cache rep (Some rnode) c1) as [H2 H2'].
  destruct (md5_core P cfg rep (Some rnode) c1) as [[[e|h2] c2] ev2];
    cbn [fst snd] in *.
  - split; [by etrans|]. intros Hoff. rewrite H2', H1'; done.
  - split; [by etrans|]. intros Hoff. rewrite H2', H1'; done.
Qed.

Lemma preserved_files_differ src rep w :
  preserved cfg w (files_differ P cfg src rep w).2.
Proof.
  rewrite files_differ_run.
  pose proof (files_differ_core_cache src rep (node_at src w)
                (node_at rep w) (hash_cache w)) as [H1 H2].
  destruct (files_differ_core P cfg _ _ _ _ _) as [[r c] evs].
  cbn [fst snd] in *. repeat split; try done. by exists evs.
Qed.

Lemma preserved_update_item p w : preserved cfg w (update_item P cfg p w).2.
Proof.
  unfold update_item. apply preserved_bind; [apply preserved_refl|].
  intros [] w1; [|apply preserved_refl].
  apply preserved_bind; [apply preserved_files_differ|].
  intros b w2. apply preserved_when. intros w3. apply preserved_copy_item.
Qed.

Lemma preserved_save_cache w : preserved cfg w (save_cache P cfg w).2.
Proof. unfold save_cache. apply preserved_mutate. Qed.

Lemma preserved_synchronize w : preserved cfg w (synchronize P cfg w).2.
Proof.
  rewrite synchronize_unfold.
  apply preserved_bind.
  { apply preserved_for_each. intros p w'. apply preserved_copy_item. }
  intros _ w1. apply preserved_bind.
  { apply preserved_for_each. intros p w'. apply preserved_remove_item. }
  intros _ w2. apply preserved_bind.
  { apply preserved_for_each. intros p w'. apply preserved_update_item. }
  intros _ w3. apply preserved_when. intros w4. apply preserved_save_cache.
Qed.

End Preserved.

(** * The equality oracle, further *)

Section OracleMore.
Context (P : platform) (cfg : config).

Lemma md5_core_file_cache_off l c m cache :
  use_hash_cache cfg = false →
  md5_core P cfg l (Some (File c m)) cache
  = (inr (md5_hexdigest P c), cache, [ReadBytes (abs_path cfg l)]).
Proof. intros Hoff. unfold md5_core. by rewrite Hoff. Qed.

Lemma md5_core_dir_cache_off l st es cache :
  use_hash_cache cfg = false →
  md5_core P cfg l (Some (Dir st es)) cache = (inl IsADirectoryError, cache, []).
Proof. intros Hoff. unfold md5_core. by rewrite Hoff. Qed.

(** In MD5 mode without the cache, [files_differ] on a source file: a
    missing replica path differs and nothing is read; against a replica
    file both files are read, once each and the source first, and the
    answer is whether the two digests differ, whatever the modification
    times; against a replica directory the source is read and the call
    raises [IsADirectoryError]. *)
Theorem files_differ_md5_mode src rep w c m :
  use_md5 cfg = true →
  use_hash_cache cfg = false →
  node_at src w = Some (File c m) →
  (node_at rep w = None → files_differ P cfg src rep w = (inr true, w))
  ∧ (∀ c' m', node_at rep w = Some (File c' m') →
       files_differ P cfg src rep w
       = (inr (negb (bool_decide (md5_hexdigest P c = md5_hexdigest P c'))),
          after w (replica_tree w) (hash_cache w) (faults w)
            [ReadBytes (abs_path cfg src); ReadBytes (abs_path cfg rep)]))
  ∧ (∀ st es, node_at rep w = Some (Dir st es) →
       files_differ P cfg src rep w
       = (inl IsADirectoryError,
          after w (replica_tree w) (hash_cache w) (faults w)
            [ReadBytes (abs_path cfg src)])).
Proof.
  intros Hmd5 Hoff Hsrc. rewrite files_differ_run, Hsrc.
  split; [|split].
  - intros ->. unfold files_differ_core. by rewrite after_id.
  - intros c' m' ->. unfold files_differ_core. rewrite Hmd5.
    by rewrite !md5_core_file_cache_off.
  - intros st es ->. unfold files_differ_core. rewrite Hmd5.
    by rewrite md5_core_file_cache_off, md5_core_dir_cache_off.
Qed.

Lemma cache_key_same_identity path c m c' m' :
  length c' = length c →
  int_of_float (st_mtime (stat_of (File c' m')))
  = int_of_float (st_mtime (stat_of (File c m))) →
  cache_key path (stat_of (File c' m')) = cache_key path (stat_of (File c m)).
Proof.
  intros Hlen Hmt. unfold cache_key, int_mtime. rewrite Hmt. simpl.
  by rewrite Hlen.
Qed.

(** The cache can answer for contents it never saw: once [md5] has stored
    the digest of a file, a file at the same path with the same size and
    the same [int(st_mtime)] gets that stored digest, unread, whatever its
    contents are now. *)
Theorem md5_serves_stored_digest_for_changed_content l w c m c' m' w2 :
  use_hash_cache cfg = true →
  node_at l w = Some (File c m) →
  hash_cache w !! cache_key (abs_path cfg l) (stat_of (File c m)) = None →
  hash_cache w2 = hash_cache (md5 P cfg l w).2 →
  node_at l w2 = Some (File c' m') →
  length c' = length c →
  int_of_float (st_mtime (stat_of (File c' m')))
  = int_of_float (st_mtime (stat_of (File c m))) →
  md5 P cfg l w2 = (inr (md5_hexdigest P c), w2).
Proof.
  intros Hon Hn Hmiss Hc2 Hn2 Hlen Hmt.
  rewrite (md5_miss P cfg l w c m Hn) in Hc2 by by rewrite Hon.
  rewrite Hon in Hc2. cbn [snd hash_cache set_cache] in Hc2.
  apply (md5_hit P cfg l w2 (File c' m')); [done|done|].
  rewrite Hc2, (cache_key_same_identity _ c m c' m') by done.
  apply lookup_insert_eq.
Qed.

End OracleMore.

Lemma files_differ_md5_mode_witness :
  let cfg := mk_config "/src" "/rep" true false [] false 3 in
  let w := fresh_world (Some (Dir dir_stat0 [("f", File (bytes "Hello") 5)]))
                       (Some (Dir dir_stat0 [("f", Dir dir_stat0 [])])) in
  files_differ demo_platform cfg (InSource "f") (InReplica "f") w
  = (inl IsADirectoryError,
     after w (replica_tree w) (hash_cache w) (faults w)
       [ReadBytes "/src/f"]).
Proof.
  intros cfg w.
  destruct (files_differ_md5_mode demo_platform cfg (InSource "f")
              (InReplica "f") w (bytes "Hello") 5) as (_ & _ & Hdir);
    [reflexivity..|].
  apply (Hdir dir_stat0 []). reflexivity.
Defined.

Lemma md5_serves_stored_digest_for_changed_content_witness :
  let w := mk_world None
             (Some (Dir dir_stat0
                      [("f", File (bytes "Hello") 1700000000999999999)]))
             ∅ [] [] in
  let w2 := mk_world None
              (Some (Dir dir_stat0
                       [("f", File (bytes "World") 1700000001000000000)]))
              (hash_cache (md5 demo_platform cache_config (InReplica "f") w).2)
              [] [] in
  md5 demo_platform cache_config (InReplica "f") w2
  = (inr (demo_md5 (bytes "Hello")), w2).
Proof.
  intros w w2.
  apply (md5_serves_stored_digest_for_changed_content demo_platform
           cache_config (InReplica "f") w (bytes "Hello") 1700000000999999999
           (bytes "World") 1700000001000000000 w2); reflexivity.
Defined.

(** In metadata mode the contents are never looked at: a file of the
    replica with the size of the source file, whose float [st_mtime] is not
    more than 1.0 away from the source file's in double precision, is left
    as it is by the update loop, without a read, a call or a log line,
    whatever the two files hold. *)
Theorem update_item_metadata_mode_keeps_same_size_same_time
    P cfg p c m c' m' w :
  use_md5 cfg = false →
  node_at (InSource p) w = Some (File c m) →
  node_at (InReplica p) w = Some (File c' m') →
  length c' = length c →
  SFltb (float_of_Z 1)
    (SFabs (float_sub (st_mtime (stat_of (File c m)))
                      (st_mtime (stat_of (File c' m'))))) = false →
  update_item P cfg p w = (inr tt, w).
Proof.
  intros Hmode Hsrc Hrep Hlen Hgap.
  unfold update_item, bind at 1, os_path_isfile. rewrite Hsrc. cbn [is_file].
  unfold bind.
  rewrite (files_differ_metadata_eq P cfg (InSource p) (InReplica p) w
             (File c m) Hmode Hsrc).
  rewrite Hrep. unfold metadata_differ, mtime_gap_exceeds_1s.
  rewrite Hgap. cbn [stat_of st_size]. rewrite Hlen.
  by rewrite bool_decide_eq_true_2.
Qed.

Lemma update_item_metadata_mode_keeps_same_size_same_time_witness :
  let w := fresh_world
             (Some (Dir dir_stat0
                      [("f", File (bytes "Hello") 1700000001000000001)]))
             (Some (Dir dir_stat0
                      [("f", File (bytes "World") 1700000000000000000)])) in
  update_item demo_platform demo_config "f" w = (inr tt, w).
Proof.
  intros w.
  apply (update_item_metadata_mode_keeps_same_size_same_time demo_platform
           demo_config "f" (bytes "Hello") 1700000001000000001
           (bytes "World") 1700000000000000000 w);
    reflexivity.
Defined.

(** * The applier, further *)

Lemma update_at_through_file q t f o :
  is_file (resolve q o) = true → t ≠ [] →
  update_at (q ++ t) f o = inl NotADirectoryError.
Proof.
  revert o. induction q as [|c q IH]; intros o Hfile Ht.
  - destruct o as [[]|]; try done. by destruct t.
  - destruct o as [[|st es]|]; try done. simpl in Hfile.
    cbn [app update_at]. by rewrite IH.
Qed.

Lemma update_at_absent q f o e0 :
  resolve q o = None → f None = inl e0 →
  ∃ e, update_at q f o = inl e.
Proof.
  revert o. induction q as [|c q IH]; intros o Hn Hf.
  - simpl in *. subst o. by exists e0.
  - destruct o as [[|st es]|]; cbn [update_at]; [by eexists| |by eexists].
    simpl in Hn. destruct (IH _ Hn Hf) as [e ->]. by eexists.
Qed.

Lemma makedirs_from_beyond_file fresh q rest : ∀ pre o,
  is_file (resolve q o) = true →
  (∃ t, pre = q ++ t ∧ t ≠ []) →
  makedirs_from fresh pre rest o = inl NotADirectoryError.
Proof.
  induction rest as [|c rest IH]; intros pre o Hfile (t & -> & Ht).
  - cbn [makedirs_from]. by apply update_at_through_file.
  - cbn [makedirs_from].
    assert (is_present (resolve (q ++ t) o) = false) as ->.
    { rewrite resolve_app. destruct (resolve q o) as [[]|]; try done.
      by rewrite resolve_File. }
    by rewrite update_at_through_file.
Qed.

Lemma makedirs_from_blocked fresh q rest : ∀ pre o,
  is_file (resolve q o) = true →
  pre `prefix_of` q →
  (∃ t, pre ++ rest = q ++ t ∧ t ≠ []) →
  makedirs_from fresh pre rest o = inl NotADirectoryError.
Proof.
  induction rest as [|c rest IH]; intros pre o Hfile [u Hu] (t & Heq & Ht).
  - rewrite app_nil_r in Heq. subst pre. rewrite <- app_assoc in Hu.
    rewrite <- (app_nil_r q) in Hu at 1. apply app_inv_head in Hu.
    symmetry in Hu. apply app_eq_nil in Hu as [-> _]. done.
  - cbn [makedirs_from].
    assert (is_present (resolve pre o) = true) as ->.
    { subst q. rewrite resolve_app in Hfile.
      destruct (resolve pre o); [done|]. by rewrite resolve_None in Hfile. }
    destruct u as [|c' u].
    + rewrite app_nil_r in Hu. subst q.
      apply makedirs_from_beyond_file with (q := pre); [done|].
      by exists [c].
    + assert (c' = c) as ->.
      { subst q. rewrite <- app_assoc in Heq. apply app_inv_head in Heq.
        by simplify_eq/=. }
      apply IH; [done| |].
      * exists u. subst q. by rewrite <- app_assoc.
      * exists t. by rewrite <- app_assoc.
Qed.

Section ApplierMore.
Context (P : platform) (cfg : config).

(** A directory of the source whose place in the replica lies under a
    regular file cannot be made: in a live run [copy_item] raises
    [NotADirectoryError] from [os.makedirs], which is called once and not
    retried, and the replica is as it was. *)
Theorem copy_item_directory_under_file_raises q t w :
  dry_run cfg = false →
  valid_path (q ++ t) → t ≠ [] →
  is_dir (resolve (q ++ t) (source_tree w)) = true →
  is_file (resolve q (replica_tree w)) = true →
  copy_item P cfg (render (q ++ t)) w
  = (inl NotADirectoryError,
     emit (Call "makedirs" [abs_path cfg (InReplica (render (q ++ t)))]) w).
Proof.
  intros Hlive Hv Ht Hsrc Hrep.
  unfold copy_item, bind, os_path_isdir.
  rewrite node_at_source by done. rewrite Hsrc.
  unfold ensure_dir_exists, bind, os_path_exists.
  rewrite node_at_replica by done. rewrite resolve_app.
  destruct (resolve q (replica_tree w)) as [[c m|]|] eqn:Hq; try done.
  rewrite resolve_File by done. rewrite Hlive. cbn [is_present negb andb when].
  unfold mutate. cbn [rel_of]. rewrite split_path_render by done.
  unfold os_makedirs.
  rewrite (makedirs_from_blocked (mkdir_stat P) q (q ++ t) [] (replica_tree w));
    [done| |apply prefix_nil|by exists t].
  by rewrite Hq.
Qed.

(** When the directory of the destination is already there and the copy
    of a file fails at every attempt, [copy_item] still returns normally
    and still logs the file as copied: after the rounds of
    [_retry_operation] and its permanent failure comes the message [File
    copied/updated], and the replica is as it was. *)
Theorem copy_item_logs_copy_after_permanent_failure p w :
  dry_run cfg = false →
  is_dir (node_at (InSource p) w) = false →
  is_present (node_at (dirname_loc (InReplica p)) w) = true →
  always_fails cfg
    (shutil_copy2 (source_tree w) (split_path p) (split_path p)) w = true →
  ∃ w',
    copy_item P cfg p w = (inr tt, w')
    ∧ replica_tree w' = replica_tree w
    ∧ new_events w w'
      = concat (failing_round cfg "copy2"
                  [abs_path cfg (InSource p); abs_path cfg (InReplica p)]
                  <$> seqZ 0 (max_retries cfg))
        ++ [LogError "copy2";
            LogInfo ("File copied/updated: " +:+ abs_path cfg (InReplica p))].
Proof.
  intros Hlive Hsrc Hparent Hfail.
  assert (ensure_dir_exists P cfg (dirname_loc (InReplica p)) w = (inr tt, w))
    as Hens.
  { unfold ensure_dir_exists, bind, os_path_exists. by rewrite Hparent. }
  unfold copy_item, bind at 1, os_path_isdir. rewrite Hsrc.
  rewrite (bind_ok _ _ _ _ _ Hens).
  unfold bind at 1. rewrite Hlive. cbn [negb when].
  unfold _retry_operation. rewrite retry_loop_all_fail.
  - unfold log. eexists. split; [done|]. split; [done|].
    unfold new_events, emit. cbn [trace].
    by rewrite <- !app_assoc, drop_app_length.
  - unfold always_fails in Hfail. rewrite length_seqZ.
    destruct (shutil_copy2 _ _ _ _); [done|].
    apply andb_prop in Hfail as [H1 H2].
    by apply bool_decide_eq_true in H1.
Qed.

(** The removal of a path that is no longer there (a directory removed
    earlier in the same pass took it along) is no quiet step: in a live
    run [os.remove] is tried [max_retries] times, a second apart, the
    permanent failure is logged, and then the path is logged as
    removed. *)
Theorem remove_item_of_absent_path_is_retried p w :
  dry_run cfg = false →
  node_at (InReplica p) w = None →
  ∃ w',
    remove_item cfg p w = (inr tt, w')
    ∧ replica_tree w' = replica_tree w
    ∧ new_events w w'
      = concat (failing_round cfg "remove" [abs_path cfg (InReplica p)]
                  <$> seqZ 0 (max_retries cfg))
        ++ [LogError "remove";
            LogInfo ("Removed: " +:+ abs_path cfg (InReplica p))].
Proof.
  intros Hlive Habs.
  unfold remove_item, bind at 1. rewrite Hlive. cbn [negb when].
  unfold bind at 1, os_path_isdir. rewrite Habs. cbn [is_dir].
  unfold _retry_operation. rewrite retry_loop_all_fail.
  - unfold log. eexists. split; [done|]. split; [done|].
    unfold new_events, emit. cbn [trace].
    by rewrite <- !app_assoc, drop_app_length.
  - destruct (update_at_absent (split_path p) remove_edit (replica_tree w)
                FileNotFoundError) as [e ->]; done.
Qed.

(** In a live run without faults and with [max_retries] at least 1, on a
    well-formed replica (no name holds a backslash) and for a path of
    valid names, [remove_item] unlinks the path with everything under it
    and changes no other path of the replica. *)
Theorem remove_item_removes_subtree q w :
  dry_run cfg = false → faults w = [] → (0 < max_retries cfg)%Z →
  valid_path q → wf_opt (replica_tree w) →
  ∃ w',
    remove_item cfg (render q) w = (inr tt, w')
    ∧ source_tree w' = source_tree w
    ∧ ∀ q', entry q' (replica_tree w')
            = if bool_decide (q `prefix_of` q') then None
              else entry q' (replica_tree w).
Proof.
  intros Hlive Hf Hn Hq Hwf.
  destruct (remove_item_live cfg q w Hlive Hf Hn Hq Hwf)
    as (r' & evs & Hrun & _ & _ & Hent).
  eexists. split; [exact Hrun|]. split; [done|]. exact Hent.
Qed.

(** In a live run without faults and with [max_retries] at least 1, on a
    well-formed replica (its root is a directory, no name holds a
    backslash) and for a path of valid names that is a file of the source,
    whose destination in the replica is not a directory and lies below
    paths that are each missing or a directory, [copy_item] makes the
    missing directories above the destination, writes the file with the
    contents and the modification time of the source, and changes no other
    path of the replica. *)
Theorem copy_item_copies_file q c m w :
  dry_run cfg = false → faults w = [] → (0 < max_retries cfg)%Z →
  valid_path q →
  resolve q (source_tree w) = Some (File c m) →
  wf_opt (replica_tree w) → is_dir (replica_tree w) = true →
  (∀ q', q' `prefix_of` q → q' ≠ q →
     entry q' (replica_tree w) = None ∨ entry q' (replica_tree w) = Some KDir) →
  is_dir (resolve q (replica_tree w)) = false →
  ∃ w',
    copy_item P cfg (render q) w = (inr tt, w')
    ∧ source_tree w' = source_tree w
    ∧ ∀ q', entry q' (replica_tree w')
            = if bool_decide (q' = q) then Some (KFile c m)
              else if bool_decide (q' `prefix_of` q) then Some KDir
              else entry q' (replica_tree w).
Proof.
  intros Hlive Hf Hn Hq Hsrc Hwf Hdir Habove Hnd.
  destruct (copy_item_file_live P cfg q c m w Hlive Hf Hn Hq Hsrc Hwf Hdir
              Habove Hnd) as (r' & evs & Hrun & _ & _ & _ & Hent).
  eexists. split; [exact Hrun|]. split; [done|]. exact Hent.
Qed.

End ApplierMore.

Lemma valid_path_by_compute q :
  forallb valid_name q = true → valid_path q.
Proof. apply forallb_Forall. Qed.

Lemma copy_item_directory_under_file_raises_witness :
  copy_item demo_platform demo_config "a/b"
    (fresh_world nested_source conflict_replica)
  = (inl NotADirectoryError,
     emit (Call "makedirs" ["/rep/a/b"])
       (fresh_world nested_source conflict_replica)).
Proof.
  apply (copy_item_directory_under_file_raises demo_platform demo_config
           ["a"] ["b"] (fresh_world nested_source conflict_replica)).
  - reflexivity.
  - apply valid_path_by_compute. vm_compute. reflexivity.
  - discriminate.
  - reflexivity.
  - reflexivity.
Defined.

Lemma copy_item_logs_copy_after_permanent_failure_witness :
  let w := mk_world one_file_source empty_root ∅ [true; true; true] [] in
  ∃ w',
    copy_item demo_platform demo_config "a.txt" w = (inr tt, w')
    ∧ replica_tree w' = empty_root
    ∧ last (trace w') = Some (LogInfo "File copied/updated: /rep/a.txt").
Proof.
  intros w.
  destruct (copy_item_logs_copy_after_permanent_failure demo_platform
              demo_config "a.txt" w) as (w' & Hrun & Hrep & Hev);
    [reflexivity..|].
  exists w'. split; [exact Hrun|]. split; [exact Hrep|].
  assert (trace w' = new_events w w') as -> by (unfold new_events; by rewrite drop_0).
  rewrite Hev. reflexivity.
Defined.

Lemma remove_item_of_absent_path_is_retried_witness :
  let w := fresh_world one_file_source empty_root in
  ∃ w',
    remove_item demo_config "gone/x" w = (inr tt, w')
    ∧ length (calls (new_events w w')) = 3%nat.
Proof.
  intros w.
  destruct (remove_item_of_absent_path_is_retried demo_config "gone/x" w)
    as (w' & Hrun & _ & Hev); [reflexivity..|].
  exists w'. split; [exact Hrun|]. rewrite Hev. reflexivity.
Defined.

Lemma remove_item_removes_subtree_witness :
  ∃ w',
    remove_item demo_config "gone"
      (fresh_world mirror_source mirror_replica) = (inr tt, w')
    ∧ entry ["gone"; "x"] (replica_tree w') = None
    ∧ entry ["b.txt"] (replica_tree w') = Some (KFile (bytes "B") 5).
Proof.
  destruct (remove_item_removes_subtree demo_config ["gone"]
              (fresh_world mirror_source mirror_replica))
    as (w' & Hrun & _ & Hent).
  - reflexivity.
  - reflexivity.
  - reflexivity.
  - apply valid_path_by_compute. vm_compute. reflexivity.
  - vm_compute. reflexivity.
  - exists w'. split; [exact Hrun|].
    rewrite (Hent ["gone"; "x"]), (Hent ["b.txt"]). split; reflexivity.
Defined.

Lemma copy_item_copies_file_witness :
  ∃ w',
    copy_item demo_platform demo_config "sub/c.txt"
      (fresh_world mirror_source mirror_replica) = (inr tt, w')
    ∧ entry ["sub"; "c.txt"] (replica_tree w') = Some (KFile (bytes "CC") 7)
    ∧ entry ["sub"] (replica_tree w') = Some KDir.
Proof.
  destruct (copy_item_copies_file demo_platform demo_config ["sub"; "c.txt"]
              (bytes "CC") 7 (fresh_world mirror_source mirror_replica))
    as (w' & Hrun & _ & Hent).
  - reflexivity.
  - reflexivity.
  - reflexivity.
  - apply valid_path_by_compute. vm_compute. reflexivity.
  - reflexivity.
  - vm_compute. reflexivity.
  - reflexivity.
  - intros q' [t Ht] Hne. destruct q' as [|a [|b [|? ?]]]; simplify_eq/=.
    + right. reflexivity.
    + left. reflexivity.
  - reflexivity.
  - exists w'. split; [exact Hrun|].
    rewrite (Hent ["sub"; "c.txt"]), (Hent ["sub"]). split; reflexivity.
Defined.



(** * What a clean pass leaves in the replica *)

Lemma clean_pass_run P cfg w :
  clean_start cfg w = true → use_hash_cache cfg = false →
  iteration_faithful P →
  ∃ w2 w3,
    synchronize P cfg w = (inr tt, w3)
    ∧ live_pass_post P cfg (source_tree w) (replica_tree w) w w2 w3.
Proof.
  intros Hclean Hcache Hit.
  destruct (clean_pass P cfg w Hclean Hit)
    as (w1 & w2 & w3 & Hrun1 & Hrun2 & Hrun3 & Hpost).
  exists w2, w3. split; [|done].
  rewrite synchronize_unfold.
  rewrite (bind_ok _ _ _ _ _ Hrun1), (bind_ok _ _ _ _ _ Hrun2),
    (bind_ok _ _ _ _ _ Hrun3).
  by rewrite Hcache.
Qed.

Lemma entry_KFile_resolve q o c m :
  entry q o = Some (KFile c m) → resolve q o = Some (File c m).
Proof.
  unfold entry. destruct (resolve q o) as [[]|]; simpl; intros; by simplify_eq.
Qed.

(** After a clean pass (both folders are directories, no name holds a
    backslash, no type conflict, live run, no fault, at least one attempt
    per operation, hash cache off) every file of the source that no ignore
    rule hides is a file of the replica, and it is the source's file,
    contents and modification time, or one that [files_differ] takes for
    equal: in MD5 mode a file with the same digest, in metadata mode a file
    of the same size whose float [st_mtime] is not more than 1.0 away from
    the source file's in double precision. *)
Theorem clean_pass_file_contents P cfg w :
  clean_start cfg w = true →
  use_hash_cache cfg = false →
  iteration_faithful P →
  ∃ w',
    synchronize P cfg w = (inr tt, w')
    ∧ ∀ q c m,
        q ≠ [] → visible cfg q →
        resolve q (source_tree w) = Some (File c m) →
        ∃ c' m',
          resolve q (replica_tree w') = Some (File c' m')
          ∧ ((c' = c ∧ m' = m)
             ∨ (use_md5 cfg = true
                ∧ md5_hexdigest P c' = md5_hexdigest P c)
             ∨ (use_md5 cfg = false
                ∧ length c' = length c
                ∧ SFltb (float_of_Z 1)
                    (SFabs (float_sub (st_mtime (stat_of (File c m)))
                                      (st_mtime (stat_of (File c' m')))))
                  = false)).
Proof.
  intros Hclean Hcache Hit.
  destruct (clean_pass_run P cfg w Hclean Hcache Hit)
    as (w2 & w3 & Hrun & Hpost).
  destruct Hpost as (_ & _ & _ & _ & _ & Hkept & Hsettled & _).
  exists w3. split; [done|]. intros q c m Hne Hvis Hsrc.
  assert (entry q (source_tree w) = Some (KFile c m)) as Hes.
  { unfold entry. by rewrite Hsrc. }
  destruct (Hkept q Hvis) as [Hpres Hdir]; [by rewrite Hes|].
  destruct (entry q (replica_tree w3)) as [[c' m'|]|] eqn:Her; [| |done].
  2:{ destruct Hdir as [Hdir _]. specialize (Hdir eq_refl). congruence. }
  exists c', m'. split; [by apply entry_KFile_resolve|].
  destruct (Hsettled q Hne Hvis) as [Heq|[cache Hsame]].
  { by rewrite Hsrc. }
  { left. rewrite Hes in Heq. by simplify_eq. }
  right. apply entry_KFile_resolve in Her. rewrite Hsrc, Her in Hsame.
  unfold files_differ_core in Hsame.
  destruct (use_md5 cfg) eqn:Hmode.
  - left. split; [done|]. unfold md5_core in Hsame. rewrite Hcache in Hsame.
    cbn [fst snd] in Hsame. injection Hsame as Hsame.
    apply negb_false_iff, bool_decide_eq_true in Hsame. done.
  - right. split; [done|]. cbn [fst snd] in Hsame. injection Hsame as Hsame.
    unfold metadata_differ, mtime_gap_exceeds_1s in Hsame.
    apply orb_false_iff in Hsame as [Hsize Hgap].
    apply negb_false_iff, bool_decide_eq_true in Hsize.
    simpl in Hsize. split; [lia|exact Hgap].
Qed.

Lemma clean_pass_file_contents_witness :
  ∃ w' c' m',
    synchronize demo_platform demo_config
      (fresh_world mirror_source mirror_replica) = (inr tt, w')
    ∧ resolve ["sub"; "c.txt"] (replica_tree w') = Some (File c' m')
    ∧ length c' = 2%nat.
Proof.
  destruct (clean_pass_file_contents demo_platform demo_config
              (fresh_world mirror_source mirror_replica))
    as (w' & Hrun & Hfiles).
  - vm_compute. reflexivity.
  - reflexivity.
  - intros X. reflexivity.
  - destruct (Hfiles ["sub"; "c.txt"] (bytes "CC") 7%Z)
      as (c' & m' & Hres & Hsame).
    + discriminate.
    + intros q' Hq' Hne. reflexivity.
    + reflexivity.
    + exists w', c', m'. split; [exact Hrun|]. split; [exact Hres|].
      destruct Hsame as [[-> _]|[[Hmode _]|(_ & Hlen & _)]].
      * reflexivity.
      * discriminate Hmode.
      * exact Hlen.
Defined.

(** * The ignore file *)

Lemma lstrip_chars_split l :
  ∃ pre, l = pre ++ lstrip_chars l ∧ Forall (λ c, is_space c = true) pre.
Proof.
  induction l as [|c l (pre & Hl & Hpre)]; [by exists []|].
  simpl. destruct (is_space c) eqn:Hc.
  - exists (c :: pre). split; [by rewrite <- app_comm_cons, <- Hl|].
    by constructor.
  - by exists [].
Qed.

Lemma lstrip_chars_head l c :
  head (lstrip_chars l) = Some c → is_space c = false.
Proof.
  induction l as [|a l IH]; [done|]. simpl.
  destruct (is_space a) eqn:Ha; [done|]. simpl. by intros [= <-].
Qed.

Lemma lstrip_chars_id l :
  (∀ c, head l = Some c → is_space c = false) → lstrip_chars l = l.
Proof.
  destruct l as [|a l]; [done|]. intros H. simpl. by rewrite (H a).
Qed.

Lemma head_reverse {A} (l : list A) : head (reverse l) = last l.
Proof.
  induction l as [|a l IH] using rev_ind; [done|].
  by rewrite reverse_app, last_snoc.
Qed.

Lemma last_reverse {A} (l : list A) : last (reverse l) = head l.
Proof. by rewrite <- head_reverse, reverse_involutive. Qed.

(** The characters of a stripped string, inside the string. *)
Lemma strip_split s :
  ∃ pre post,
    chars s = pre ++ chars (strip s) ++ post
    ∧ Forall (λ c, is_space c = true) pre
    ∧ Forall (λ c, is_space c = true) post
    ∧ (∀ c, head (chars (strip s)) = Some c → is_space c = false)
    ∧ (∀ c, last (chars (strip s)) = Some c → is_space c = false).
Proof.
  unfold strip. rewrite chars_str.
  destruct (lstrip_chars_split (chars s)) as (pre & Hs & Hpre).
  set (l1 := lstrip_chars (chars s)) in *.
  destruct (lstrip_chars_split (reverse l1)) as (post & Hr & Hpost).
  set (l2 := lstrip_chars (reverse l1)) in *.
  exists pre, (reverse post). split; [|split; [done|split; [|split]]].
  - rewrite Hs at 1. f_equal. rewrite <- reverse_app, <- Hr.
    by rewrite reverse_involutive.
  - by apply Forall_reverse.
  - intros c Hc.
    destruct (decide (post = [])) as [->|Hne].
    + simpl in Hr. rewrite <- Hr, reverse_involutive in Hc.
      by apply (lstrip_chars_head (chars s)).
    + (* the first character of [l1] is a space of [post]: impossible *)
      destruct l1 as [|a l1'] eqn:Hl1.
      { destruct post; [done|]. by destruct l2. }
      assert (is_space a = false) as Ha.
      { apply (lstrip_chars_head (chars s)). fold l1. by rewrite Hl1. }
      (* [l2] is what is left of [reverse l1] once spaces are gone; if
         all of [l1] but a prefix were spaces, [a] would be one *)
      rewrite head_reverse in Hc.
      assert (l2 ≠ []) as Hl2 by (intros E; by rewrite E in Hc).
      assert (head (reverse (post ++ l2)) = Some a) as Hh.
      { rewrite <- Hr, reverse_involutive. done. }
      rewrite reverse_app in Hh.
      destruct (reverse l2) as [|b l2'] eqn:Hrl2.
      { apply (f_equal reverse) in Hrl2. rewrite reverse_involutive in Hrl2.
        done. }
      simpl in Hh. simplify_eq.
      rewrite <- head_reverse, Hrl2 in Hc. simpl in Hc. by simplify_eq.
  - intros c Hc. rewrite last_reverse in Hc.
    by apply (lstrip_chars_head (reverse l1)).
Qed.

Lemma is_space_newline : is_space newline = true.
Proof. reflexivity. Qed.

(** No carriage return is left in a text read with universal newlines, and
    a text without any is read as it is. *)
Lemma universal_newlines_no_cr raw : ∀ after_cr,
  carriage_return ∉ universal_newlines_from after_cr raw.
Proof.
  induction raw as [|c raw IH]; intros after_cr; simpl.
  - apply not_elem_of_nil.
  - case_bool_decide as Hc.
    + intros [?|?]%elem_of_cons; [done|]. by eapply IH.
    + destruct (bool_decide (c = newline) && after_cr); [apply IH|].
      intros [?|?]%elem_of_cons; [done|]. by eapply IH.
Qed.

Lemma universal_newlines_id raw :
  carriage_return ∉ raw → universal_newlines_from false raw = raw.
Proof.
  induction raw as [|c raw IH]; intros Hraw; simpl; [done|].
  rewrite bool_decide_eq_false_2 by (intros ->; apply Hraw; by left).
  rewrite andb_false_r, IH; [done|]. intros ?. apply Hraw. by right.
Qed.

Lemma text_lines_from_no_cr text : ∀ cur,
  carriage_return ∉ cur → carriage_return ∉ text →
  Forall (λ line, carriage_return ∉ chars line) (text_lines_from cur text).
Proof.
  induction text as [|c text IH]; intros cur Hcur Htext; simpl.
  - case_bool_decide; [done|]. constructor; [|done]. by rewrite chars_str.
  - assert (carriage_return ∉ cur ++ [c]) as Hsnoc.
    { intros [?|Hc%list_elem_of_singleton]%elem_of_app; [done|].
      apply Htext. rewrite Hc. by left. }
    assert (carriage_return ∉ text) as Hrest.
    { intros ?. apply Htext. by right. }
    case_bool_decide as Hc.
    + constructor; [by rewrite chars_str|]. apply IH; [|done].
      apply not_elem_of_nil.
    + by apply IH.
Qed.

Lemma strip_no_cr line :
  carriage_return ∉ chars line → carriage_return ∉ chars (strip line).
Proof.
  intros Hline Hin. apply Hline.
  destruct (strip_split line) as (pre & post & -> & _).
  apply elem_of_app. right. apply elem_of_app. by left.
Qed.

(** Each line that [for line in f] yields is not empty and holds a
    newline at its end or nowhere. *)
Lemma text_lines_from_shape text : ∀ cur,
  newline ∉ cur →
  Forall (λ line, ∃ body, (newline ∉ body)
                          ∧ (chars line = body ++ [newline] ∨ chars line = body))
    (text_lines_from cur text).
Proof.
  induction text as [|c text IH]; intros cur Hcur; simpl.
  - case_bool_decide; [done|]. constructor; [|done].
    exists cur. split; [done|]. right. apply chars_str.
  - case_bool_decide as Hc.
    + constructor; [|apply IH, not_elem_of_nil].
      exists cur. split; [done|]. left. subst c. apply chars_str.
    + apply IH. intros [?|?%list_elem_of_singleton]%elem_of_app; done.
Qed.

Lemma strip_line_no_newline line body :
  newline ∉ body →
  chars line = body ++ [newline] ∨ chars line = body →
  newline ∉ chars (strip line).
Proof.
  intros Hbody Hline.
  destruct (strip_split line) as (pre & post & Hs & _ & _ & _ & Hlast).
  set (mid := chars (strip line)) in *.
  destruct Hline as [Hline|Hline]; rewrite Hline in Hs.
  - destruct post as [|p post _] using rev_ind.
    + rewrite app_nil_r in Hs.
      destruct mid as [|m mid' _] using rev_ind; [apply not_elem_of_nil|].
      rewrite app_assoc in Hs. apply app_inj_tail in Hs as [_ <-].
      specialize (Hlast newline). rewrite last_snoc in Hlast.
      by specialize (Hlast eq_refl).
    + rewrite !app_assoc in Hs. apply app_inj_tail in Hs as [Hs _].
      intros Hin. apply Hbody. rewrite Hs.
      apply elem_of_app. left. apply elem_of_app. by right.
  - intros Hin. apply Hbody. rewrite Hs.
    apply elem_of_app. right. apply elem_of_app. by left.
Qed.

Lemma keep_patterns_clean lines :
  Forall (λ line, ∃ body, (newline ∉ body)
                          ∧ (chars line = body ++ [newline] ∨ chars line = body))
    lines →
  Forall (λ line, carriage_return ∉ chars line) lines →
  Forall clean_pattern (keep_patterns lines).
Proof.
  induction 1 as [|line lines (body & Hbody & Hline) _ IH]; [done|].
  intros [Hcr Hcrs]%Forall_cons.
  simpl. case_bool_decide as Hempty; [by apply IH|].
  constructor; [|by apply IH].
  destruct (strip_split line) as (pre & post & _ & _ & _ & Hhead & Hlast).
  split; [done|]. split; [by apply (strip_line_no_newline line body)|].
  split; [by apply strip_no_cr|]. done.
Qed.

(** Every rule that [main] reads from the ignore file is not empty, holds
    no newline and no carriage return, and neither begins nor ends with
    white space: blank lines give no rule and the white space around a
    rule is dropped. *)
Theorem read_ignore_patterns_clean raw :
  Forall clean_pattern (read_ignore_patterns raw).
Proof.
  unfold read_ignore_patterns, text_lines, universal_newlines.
  rewrite chars_str. apply keep_patterns_clean.
  - apply text_lines_from_shape, not_elem_of_nil.
  - apply text_lines_from_no_cr;
      [apply not_elem_of_nil|apply universal_newlines_no_cr].
Qed.

Lemma text_lines_from_line x y : ∀ cur,
  newline ∉ x →
  text_lines_from cur (x ++ newline :: y)
  = str (cur ++ x ++ [newline]) :: text_lines_from [] y.
Proof.
  induction x as [|c x IH]; intros cur Hx; simpl.
  - done.
  - rewrite bool_decide_eq_false_2 by (intros ->; apply Hx; by left).
    rewrite IH by (intros ?; apply Hx; by right).
    by rewrite <- app_assoc.
Qed.

Lemma strip_clean_line p :
  clean_pattern p → strip (p +:+ String newline "") = p.
Proof.
  intros (Hne & _ & _ & Hhead & Hlast). unfold strip. rewrite chars_app.
  change (chars (String newline "")) with [newline].
  assert (chars p ≠ []) as Hc by (intros E; by apply Hne, chars_nil).
  rewrite (lstrip_chars_id (chars p ++ [newline])).
  2:{ intros c. destruct (chars p) as [|a l]; [done|].
      intros Hh. apply Hhead. exact Hh. }
  rewrite reverse_app. change (reverse [newline]) with [newline].
  cbn [app lstrip_chars]. rewrite is_space_newline.
  rewrite (lstrip_chars_id (reverse (chars p))).
  2:{ intros c. rewrite head_reverse. apply Hlast. }
  rewrite reverse_involutive. apply str_chars.
Qed.

Lemma write_lines_no_cr patterns :
  Forall clean_pattern patterns →
  carriage_return ∉ chars (write_lines patterns).
Proof.
  induction 1 as [|p ps (_ & _ & Hcr & _) _ IH]; [apply not_elem_of_nil|].
  cbn [write_lines]. rewrite chars_app.
  change (chars (String newline (write_lines ps)))
    with (newline :: chars (write_lines ps)).
  intros [?|[?|?]%elem_of_cons]%elem_of_app; done.
Qed.

(** Writing rules one per line and reading the file back gives the rules
    again, in their order, when each rule is one the reader can leave:
    not empty, without newline or carriage return, without white space at
    either end. *)
Theorem read_ignore_patterns_round_trip patterns :
  Forall clean_pattern patterns →
  read_ignore_patterns (write_lines patterns) = patterns.
Proof.
  intros Hclean. unfold read_ignore_patterns, text_lines, universal_newlines.
  rewrite chars_str, universal_newlines_id by by apply write_lines_no_cr.
  induction Hclean as [|p ps Hp _ IH]; [done|].
  cbn [write_lines]. rewrite chars_app.
  change (chars (String newline (write_lines ps)))
    with (newline :: chars (write_lines ps)).
  rewrite text_lines_from_line by apply Hp.
  cbn [keep_patterns app]. rewrite IH.
  assert (str (chars p ++ [newline]) = p +:+ String newline "") as ->.
  { apply chars_inj. by rewrite chars_str, chars_app. }
  rewrite strip_clean_line by done.
  rewrite bool_decide_eq_false_2; [done|]. apply Hp.
Qed.

Lemma read_ignore_patterns_round_trip_witness :
  read_ignore_patterns (write_lines ["*.tmp"; "build/"; "notes.txt"])
  = ["*.tmp"; "build/"; "notes.txt"].
Proof.
  apply read_ignore_patterns_round_trip.
  repeat constructor; try discriminate;
    try (intros c [= <-]; reflexivity);
    intros H; apply (bool_decide_eq_true_2 _) in H; vm_compute in H;
    discriminate H.
Defined.

Example read_ignore_patterns_sample :
  read_ignore_patterns
    (str (chars "  *.tmp  " ++ [newline; newline] ++ chars "build/"
          ++ [carriage_return; newline] ++ chars "# notes"
          ++ [carriage_return] ++ chars "a" ++ [carriage_return]
          ++ chars "b"))
  = ["*.tmp"; "build/"; "# notes"; "a"; "b"].
Proof. vm_compute. reflexivity. Qed.

(** * The constructor, the loop and [main] *)

Lemma init_trees load cfg w :
  source_tree (init load cfg w).2 = source_tree w
  ∧ replica_tree (init load cfg w).2 = replica_tree w
  ∧ trace w `prefix_of` trace (init load cfg w).2.
Proof.
  unfold init.
  destruct (use_hash_cache cfg && is_present (node_at hash_cache_file w));
    [|done].
  destruct (node_at hash_cache_file w) as [[content mtime|]|]; [|done..].
  destruct (load content) as [e|[cache|]]; repeat split; by exists [ReadBytes (abs_path cfg hash_cache_file)].
Qed.

(** A synchronizer made after a pass has written the cache file starts
    with the cache that pass ended with, whatever it held in memory
    before, provided [json.load] reads back what [json.dump] wrote. *)
Theorem init_reads_back_saved_cache P cfg load w w' c0 :
  use_hash_cache cfg = true →
  save_cache P cfg w = (inr tt, w') →
  load (json_dumps P (hash_cache w)) = inr (Some (hash_cache w)) →
  ∃ w'',
    init load cfg (set_cache c0 w') = (inr Constructed, w'')
    ∧ hash_cache w'' = hash_cache w
    ∧ source_tree w'' = source_tree w'
    ∧ replica_tree w'' = replica_tree w'.
Proof.
  intros Hon Hsave Hload. unfold save_cache, mutate in Hsave.
  destruct (update_at _ _ (replica_tree w)) as [e|r] eqn:Hw; [done|].
  injection Hsave as Hw'. subst w'.
  change (split_path (rel_of hash_cache_file)) with ["hash_cache.json"] in Hw.
  destruct (update_at_under _ _ _ _ Hw) as (res & Hres & Hunder).
  assert (∀ w0, replica_tree w0 = r →
            node_at hash_cache_file w0
            = Some (File (json_dumps P (hash_cache w)) (clock_ns P))) as Hfile.
  { intros w0 Hw0.
    change (node_at hash_cache_file w0)
      with (resolve (["hash_cache.json"] ++ []) (replica_tree w0)).
    rewrite Hw0, Hunder. simpl.
    unfold write_edit in Hres.
    destruct (resolve _ (replica_tree w)) as [[]|]; by simplify_eq. }
  unfold init. rewrite Hon.
  rewrite (Hfile (set_cache c0 (set_replica r _))) by done. cbn [is_present andb].
  rewrite Hload. eexists. split; [done|]. done.
Qed.

Lemma init_reads_back_saved_cache_witness :
  let load := λ _ : list byte, inr (Some ({[ "k" := "d" ]} : gmap string string))
              : py_exn + option (gmap string string) in
  let w := mk_world one_file_source empty_root {[ "k" := "d" ]} [] [] in
  ∃ w'',
    init load cache_config (set_cache ∅ (save_cache demo_platform cache_config w).2)
    = (inr Constructed, w'')
    ∧ hash_cache w'' = {[ "k" := "d" ]}.
Proof.
  intros load w.
  destruct (init_reads_back_saved_cache demo_platform cache_config load w
              (save_cache demo_platform cache_config w).2 ∅)
    as (w'' & Hrun & Hc & _); [reflexivity..|].
  exists w''. split; [exact Hrun|exact Hc].
Defined.

(** ** The loop *)

Lemma own_events_app a b : own_events (a ++ b) = own_events a ++ own_events b.
Proof. apply List.filter_app. Qed.

Lemma own_events_from_pass evs : own_events (FromPass <$> evs) = [].
Proof. induction evs as [|e evs IH]; [done|]. exact IH. Qed.

Lemma only_read_mirrored P cfg w w' :
  only_read w w' → mirrored P cfg w → mirrored P cfg w'.
Proof.
  intros (Hs & Hr & _ & Hf & _). unfold mirrored. by rewrite Hs, Hr, Hf.
Qed.

Lemma clean_pass_mirrored P cfg w :
  clean_start cfg w = true → use_hash_cache cfg = false →
  iteration_faithful P →
  ∃ w',
    synchronize P cfg w = (inr tt, w')
    ∧ source_tree w' = source_tree w
    ∧ mirrored P cfg w'.
Proof.
  intros Hclean Hcache Hit.
  destruct (clean_pass_run P cfg w Hclean Hcache Hit)
    as (w2 & w3 & Hrun & Hpost).
  destruct Hpost as (Hsrc & Hf & Hwf3 & _ & Hgone & Hkept & Hsettled & _).
  apply clean_start_spec in Hclean as (Hs & _).
  exists w3. split; [done|]. split; [done|].
  unfold mirrored. rewrite Hsrc. repeat split; try done.
  - intros q Hne Hvis Hn. by apply Hgone.
  - by apply Hkept.
  - by apply Hkept.
  - by apply Hkept.
Qed.

Lemma mirrored_scan P cfg w :
  mirrored P cfg w →
  scan_tree cfg (replica_tree w) = scan_tree cfg (source_tree w).
Proof.
  intros (Hs & Hr & _ & Hgone & Hkept & _). by apply same_shape_scan.
Qed.

Lemma mirrored_pass_idle P cfg w :
  use_hash_cache cfg = false → dry_run cfg = false →
  iteration_faithful P →
  mirrored P cfg w →
  ∃ w', synchronize P cfg w = (inr tt, w') ∧ only_read w w'.
Proof.
  intros Hcache Hlive Hit Hm.
  pose proof (mirrored_scan P cfg w Hm) as Hscan.
  destruct Hm as (Hs & Hr & Hf & Hgone & Hkept & Hsettled).
  assert (to_add (pass_plan cfg (source_tree w) (replica_tree w)) = ∅) as Ha.
  { unfold pass_plan, make_plan. cbn [to_add]. rewrite Hscan.
    apply difference_diag_L. }
  assert (to_remove (pass_plan cfg (source_tree w) (replica_tree w)) = ∅) as Hrm.
  { unfold pass_plan, make_plan. cbn [to_remove]. rewrite Hscan.
    apply difference_diag_L. }
  destruct (update_loop_idle P cfg Hcache (source_tree w) (replica_tree w)
              (set_iter P (in_both (pass_plan cfg (source_tree w)
                                      (replica_tree w)))) w)
    as (w' & Hrun & Hread); try done.
  { intros p Hp. apply iter_elem in Hp; [|done].
    unfold pass_plan, make_plan in Hp. cbn [in_both] in Hp.
    apply elem_of_intersection in Hp as [Hp _].
    apply scan_all_iff in Hp; [|done].
    destruct Hp as (q & ? & ? & ? & ? & ?). by exists q. }
  exists w'. split; [|done].
  rewrite synchronize_unfold. unfold add_loop, remove_loop.
  rewrite Ha, Hrm, (iter_empty P Hit). cbn [for_each].
  unfold bind at 1, ret at 1. unfold bind at 1, ret at 1.
  unfold update_loop. rewrite (bind_ok _ _ _ _ _ Hrun).
  by rewrite Hcache.
Qed.

Lemma sync_loop_mirrored env P cfg interval n : ∀ w,
  time_sleep env interval = None →
  use_hash_cache cfg = false → dry_run cfg = false →
  iteration_faithful P →
  mirrored P cfg w →
  (sync_loop env P cfg interval n w).1.1 = Looping
  ∧ source_tree (sync_loop env P cfg interval n w).1.2 = source_tree w
  ∧ replica_tree (sync_loop env P cfg interval n w).1.2 = replica_tree w
  ∧ own_events (sync_loop env P cfg interval n w).2
    = concat (replicate n [InfoCompleted; SleepFor interval]).
Proof.
  induction n as [|n IH]; intros w Hsleep Hcache Hlive Hit Hm; [done|].
  destruct (mirrored_pass_idle P cfg w Hcache Hlive Hit Hm)
    as (w1 & Hrun & Hread).
  pose proof (only_read_mirrored P cfg w w1 Hread Hm) as Hm1.
  destruct (IH w1 Hsleep Hcache Hlive Hit Hm1) as (Ho & Hs & Hr & Hlog).
  destruct Hread as (Hs1 & Hr1 & _).
  cbn [sync_loop]. rewrite Hrun, Hsleep.
  destruct (sync_loop env P cfg interval n w1) as [[o w2] rest].
  cbn [fst snd] in *. split; [done|]. split; [congruence|].
  split; [congruence|].
  rewrite !own_events_app, own_events_from_pass, Hlog. done.
Qed.

(** From a clean start (both folders are directories, no name holds a
    backslash, no type conflict, live run, no fault, at least one attempt
    per operation) with the hash cache off and an interval on which
    [time.sleep] does not raise, the loop of [main] does its work in the
    first round: every round completes, none raises; after any number of
    rounds the loop is still running, the replica is what the first pass
    made of it, its scan is the scan of the source, and the source is as
    it was. *)
Theorem sync_loop_settles_in_first_round env P cfg interval n w :
  clean_start cfg w = true →
  use_hash_cache cfg = false →
  iteration_faithful P →
  time_sleep env interval = None →
  (sync_loop env P cfg interval (S n) w).1.1 = Looping
  ∧ replica_tree (sync_loop env P cfg interval (S n) w).1.2
    = replica_tree (synchronize P cfg w).2
  ∧ source_tree (sync_loop env P cfg interval (S n) w).1.2 = source_tree w
  ∧ scan_tree cfg (replica_tree (sync_loop env P cfg interval (S n) w).1.2)
    = scan_tree cfg (source_tree w)
  ∧ own_events (sync_loop env P cfg interval (S n) w).2
    = concat (replicate (S n) [InfoCompleted; SleepFor interval]).
Proof.
  intros Hclean Hcache Hit Hsleep.
  destruct (clean_pass_mirrored P cfg w Hclean Hcache Hit)
    as (w1 & Hrun & Hsrc & Hm).
  apply clean_start_spec in Hclean as (_ & _ & _ & Hlive & _).
  destruct (sync_loop_mirrored env P cfg interval n w1 Hsleep Hcache Hlive
              Hit Hm) as (Ho & Hs & Hr & Hlog).
  pose proof (mirrored_scan P cfg w1 Hm) as Hscan.
  cbn [sync_loop]. rewrite Hrun, Hsleep.
  destruct (sync_loop env P cfg interval n w1) as [[o w2] rest].
  cbn [fst snd] in *.
  split; [done|]. split; [done|]. split; [congruence|].
  split; [by rewrite Hr, Hscan, Hsrc|].
  rewrite !own_events_app, own_events_from_pass, Hlog. done.
Qed.

Lemma sync_loop_settles_in_first_round_witness :
  (sync_loop demo_environment demo_platform demo_config (VInt 30) 3
     (fresh_world mirror_source mirror_replica)).1.1 = Looping
  ∧ replica_tree (sync_loop demo_environment demo_platform demo_config
                    (VInt 30) 3
                    (fresh_world mirror_source mirror_replica)).1.2
    = replica_tree (synchronize demo_platform demo_config
                      (fresh_world mirror_source mirror_replica)).2.
Proof.
  destruct (sync_loop_settles_in_first_round demo_environment demo_platform
              demo_config (VInt 30) 2
              (fresh_world mirror_source mirror_replica))
    as (Ho & H & _).
  - vm_compute. reflexivity.
  - reflexivity.
  - intros X. reflexivity.
  - reflexivity.
  - split; [exact Ho|exact H].
Defined.

(** An exception of [time.sleep] is not caught: the loop ends after the
    pass of that round. *)
Example sync_loop_ends_when_the_pause_raises :
  let env := mk_environment (λ _, false) (λ _, inl (FromDisk FileNotFoundError))
               (λ _, inl ValueError) (λ _, inr (Some ∅)) id (λ _, false)
               (λ _ _, None) None (λ _, Some OverflowError) in
  let w := fresh_world mirror_source mirror_replica in
  (sync_loop env demo_platform demo_config (VInt 10000000000) 3 w).1
  = (SleepRaised OverflowError, (synchronize demo_platform demo_config w).2).
Proof. vm_compute. reflexivity. Qed.

(** ** [main] *)

Lemma sync_loop_in_loop env P cfg interval n : ∀ w,
  ended_before_loop (sync_loop env P cfg interval n w).1.1 = false
  ∧ (sync_loop env P cfg interval n w).1.1 ≠ NotModelled.
Proof.
  induction n as [|n IH]; intros w; [done|].
  cbn [sync_loop]. destruct (synchronize P cfg w) as [r w1].
  destruct (time_sleep env interval); [done|].
  specialize (IH w1).
  by destruct (sync_loop env P cfg interval n w1) as [[o w2] rest].
Qed.

Lemma sync_loop_source env P cfg interval n : ∀ w,
  source_tree (sync_loop env P cfg interval n w).1.2 = source_tree w.
Proof.
  induction n as [|n IH]; intros w; [done|].
  cbn [sync_loop].
  pose proof (preserved_synchronize P cfg w) as [Hs _].
  destruct (synchronize P cfg w) as [r w1].
  destruct (time_sleep env interval); [done|].
  specialize (IH w1).
  destruct (sync_loop env P cfg interval n w1) as [[o w2] rest].
  cbn [fst snd] in *. congruence.
Qed.

Lemma sync_loop_dry_replica env P cfg interval n : ∀ w,
  dry_run cfg = true →
  replica_tree (sync_loop env P cfg interval n w).1.2 = replica_tree w.
Proof.
  induction n as [|n IH]; intros w Hdry; [done|].
  cbn [sync_loop].
  pose proof (synchronize_dry_kept P cfg Hdry w) as (_ & Hr & _).
  destruct (synchronize P cfg w) as [r w1].
  destruct (time_sleep env interval); [done|].
  specialize (IH w1 Hdry).
  destruct (sync_loop env P cfg interval n w1) as [[o w2] rest].
  cbn [fst snd] in *. congruence.
Qed.

Lemma init_fresh_replica load cfg st w :
  (init load cfg (set_replica (Some (Dir st [])) w)).1 = inr Constructed.
Proof.
  unfold init.
  change (node_at hash_cache_file (set_replica (Some (Dir st [])) w))
    with (@None node).
  by rewrite andb_false_r.
Qed.

Lemma start_stops env P s source_folder replica_folder patterns n w log :
  ended_before_loop
    (start env P s source_folder replica_folder patterns n w log).1.1 = true →
  source_tree (start env P s source_folder replica_folder patterns n w log).1.2
  = source_tree w
  ∧ replica_tree
      (start env P s source_folder replica_folder patterns n w log).1.2
    = replica_tree w.
Proof.
  unfold start.
  set (cfg := mk_config _ _ _ _ _ _ _).
  destruct (negb (is_present (replica_tree w)) && negb (truthy (set_dry_run s))).
  - destruct (makedirs_replica env) as [e|]; [done|].
    pose proof (init_fresh_replica (json_load_cache env) cfg (mkdir_stat P) w)
      as Hinit.
    destruct (init _ cfg _) as [[e|[]] w2]; try done.
    pose proof (sync_loop_in_loop env P cfg (set_sync_interval s) n w2)
      as [Hin _].
    destruct (sync_loop env P cfg (set_sync_interval s) n w2) as [[o w3] ?].
    cbn [fst snd] in *. congruence.
  - pose proof (init_trees (json_load_cache env) cfg w) as (Hs & Hr & _).
    destruct (init _ cfg w) as [[e|[]] w2]; try done.
    pose proof (sync_loop_in_loop env P cfg (set_sync_interval s) n w2)
      as [Hin _].
    destruct (sync_loop env P cfg (set_sync_interval s) n w2) as [[o w3] ?].
    cbn [fst snd] in *. congruence.
Qed.

Lemma start_dry env P s source_folder replica_folder patterns n w log :
  truthy (set_dry_run s) = true →
  source_tree (start env P s source_folder replica_folder patterns n w log).1.2
  = source_tree w
  ∧ replica_tree
      (start env P s source_folder replica_folder patterns n w log).1.2
    = replica_tree w.
Proof.
  intros Hdry. unfold start. rewrite Hdry, andb_false_r.
  set (cfg := mk_config _ _ _ _ _ _ _).
  pose proof (init_trees (json_load_cache env) cfg w) as (Hs & Hr & _).
  destruct (init _ cfg w) as [[e|[]] w2]; try done.
  pose proof (sync_loop_source env P cfg (set_sync_interval s) n w2) as Hs2.
  pose proof (sync_loop_dry_replica env P cfg (set_sync_interval s) n w2
                eq_refl) as Hr2.
  destruct (sync_loop env P cfg (set_sync_interval s) n w2) as [[o w3] passes].
  cbn [fst snd] in *. split; congruence.
Qed.

Lemma merge_settings_dry env args config s :
  arg_dry_run args = true →
  and_then config (merge_settings env args) = inr s →
  truthy (set_dry_run s) = true.
Proof.
  intros Hdry. unfold merge_settings, and_then. rewrite Hdry.
  change (or_config (VBool true) ?c ?k ?d) with (@inr py_exn _ (VBool true)).
  intros H. repeat case_match; simplify_eq; done.
Qed.

(** A run whose log file lies inside one of the two folders is not
    followed. *)
Lemma main_log_file_in_folders env P args n w s :
  and_then (match arg_config_file args with
            | Some f => if bool_decide (f = "") then inr (VDict [])
                        else load_config env f
            | None => inr (VDict [])
            end) (merge_settings env args) = inr s →
  log_file_in_folders env (set_log_file s) = true →
  (main env P args n w).1.1 = NotModelled.
Proof. intros Hs Hlog. unfold main. by rewrite Hs, Hlog. Qed.

(** When [main] ends before its loop, by [sys.exit] or by an exception,
    in a run whose log file lies outside the two folders, the source
    folder and the replica folder are as they were: [main] checks before
    it creates anything, and a replica folder it has created is always
    followed by the loop. *)
Theorem main_stops_before_loop_changes_nothing env P args n w :
  ended_before_loop (main env P args n w).1.1 = true →
  source_tree (main env P args n w).1.2 = source_tree w
  ∧ replica_tree (main env P args n w).1.2 = replica_tree w.
Proof.
  unfold main. repeat case_match; try done; apply start_stops.
Qed.

(** With [--dry-run] on the command line, in a run that this development
    follows (the log file lies outside the two folders, the paths are
    strings, a cache file holds a dictionary of strings), [main] leaves
    the source folder and the replica folder as they were, however far it
    gets and however many rounds its loop runs: it does not create a
    missing replica folder either. *)
Theorem main_dry_run_changes_nothing env P args n w :
  arg_dry_run args = true →
  (main env P args n w).1.1 ≠ NotModelled →
  source_tree (main env P args n w).1.2 = source_tree w
  ∧ replica_tree (main env P args n w).1.2 = replica_tree w.
Proof.
  intros Hdry _. unfold main.
  destruct (and_then _ (merge_settings env args)) as [e|s] eqn:Hmerge;
    [done|].
  apply (merge_settings_dry env args _ s Hdry) in Hmerge.
  repeat case_match; try done; by apply start_dry.
Qed.

Lemma main_stops_before_loop_changes_nothing_witness :
  let w := fresh_world mirror_source None in
  (main demo_environment demo_platform zero_interval_arguments 5 w).1.1 = Exit 1
  ∧ replica_tree
      (main demo_environment demo_platform zero_interval_arguments 5 w).1.2
    = None.
Proof.
  intros w. split; [vm_compute; reflexivity|].
  apply (main_stops_before_loop_changes_nothing demo_environment
           demo_platform zero_interval_arguments 5 w).
  vm_compute. reflexivity.
Defined.

Lemma main_dry_run_changes_nothing_witness :
  let w := fresh_world mirror_source None in
  (main demo_environment demo_platform dry_arguments 2 w).1.1 = Looping
  ∧ replica_tree (main demo_environment demo_platform dry_arguments 2 w).1.2
    = None.
Proof.
  intros w. split; [vm_compute; reflexivity|].
  apply (main_dry_run_changes_nothing demo_environment demo_platform
           dry_arguments 2 w).
  - reflexivity.
  - vm_compute. discriminate.
Defined.

Example main_creates_the_replica_and_mirrors :
  let w := fresh_world mirror_source None in
  (main demo_environment demo_platform demo_arguments 2 w).1.1 = Looping
  ∧ bool_decide
      ((scan_tree demo_config
          (replica_tree
             (main demo_environment demo_platform demo_arguments 2 w).1.2)).1
       = (scan_tree demo_config mirror_source).1) = true
  ∧ own_events (main demo_environment demo_platform demo_arguments 2 w).2
    = [MakedirsReplica "/rep";
       InfoStarting
         (mk_settings (VStr "/src") (VStr "/rep") (VInt 30) (VStr "sync.log")
            (VBool false) (VBool false) VNone (VBool false) (VStr "INFO"));
       InfoCompleted; SleepFor (VInt 30);
       InfoCompleted; SleepFor (VInt 30)].
Proof. intros w. repeat split; vm_compute; reflexivity. Qed.

